(** * ChefSue backend: the retrieval-and-generation pipeline

    A shallow embedding of the core of the ChefSue backend:
    - [utils/validators.js]: the allow-list validation of generated API calls;
    - [utils/prompts.js]: the vocabularies and the prompt builders;
    - [services/mealdbService.js]: the batched MealDB executor;
    - [services/aiService.js]: response parsing and the fallback policies;
    - [services/ragPipeline.js]: the session manager and [processRequest].

    JavaScript values are embedded as an inductive type with the language's
    truthiness, [typeof] and property access written out; exceptions are an
    explicit result type; the mutable world (session map, requests sent,
    log) is threaded through a state-and-exception monad, with the
    generation backend, the HTTP client, the clock and the uuid generator
    as oracles. *)

From stdpp Require Import base strings gmap list pretty.

Set Warnings "-register-all".

Open Scope string_scope.

(** ** Strings

    JavaScript strings are modelled as Rocq strings (sequences of 8-bit
    characters); lengths and case mapping are those of ASCII text. *)

Definition dq : string := String (Ascii.ascii_of_nat 34) "".

Definition quoted (s : string) : string := dq ++ s ++ dq.

Definition lower_char (c : Ascii.ascii) : Ascii.ascii :=
  let n := Ascii.nat_of_ascii c in
  if (65 <=? n)%nat && (n <=? 90)%nat then Ascii.ascii_of_nat (n + 32) else c.

(** [String.prototype.toLowerCase] *)
Fixpoint toLowerCase (s : string) : string :=
  match s with
  | "" => ""
  | String c r => String (lower_char c) (toLowerCase r)
  end.

(** [String.prototype.includes]: [sub] occurs somewhere in [s]. *)
Fixpoint includes (s sub : string) : bool :=
  String.prefix sub s ||
  match s with
  | "" => false
  | String _ r => includes r sub
  end.

Definition is_digit (c : Ascii.ascii) : bool :=
  let n := Ascii.nat_of_ascii c in (48 <=? n)%nat && (n <=? 57)%nat.

Fixpoint all_digits (s : string) : bool :=
  match s with
  | "" => true
  | String c r => is_digit c && all_digits r
  end.

(** The regular expression [/^\d+$/]: one or more decimal digits and
    nothing else. *)
Definition matches_digits (s : string) : bool :=
  match s with
  | "" => false
  | _ => all_digits s
  end.

Definition is_space (c : Ascii.ascii) : bool :=
  let n := Ascii.nat_of_ascii c in
  (n =? 32)%nat || ((9 <=? n)%nat && (n <=? 13)%nat).

Fixpoint trimStart (s : string) : string :=
  match s with
  | "" => ""
  | String c r => if is_space c then trimStart r else s
  end.

Fixpoint trimEnd (s : string) : string :=
  match s with
  | "" => ""
  | String c r =>
      match trimEnd r with
      | "" => if is_space c then "" else String c ""
      | r' => String c r'
      end
  end.

(** [String.prototype.trim] *)
Definition trim (s : string) : string := trimEnd (trimStart s).

(** [Array.prototype.join] over strings *)
Fixpoint join (sep : string) (l : list string) : string :=
  match l with
  | [] => ""
  | [x] => x
  | x :: r => x ++ sep ++ join sep r
  end.

(** [str.substring(0, n)] *)
Definition substring0 (n : nat) (s : string) : string := String.substring 0 n s.

(** [Array.prototype.slice(start)] with JavaScript's treatment of a
    negative or oversized start index. *)
Definition slice_from {A} (start : Z) (l : list A) : list A :=
  let len := Z.of_nat (length l) in
  let k := if (start <? 0)%Z then Z.max (len + start) 0 else Z.min start len in
  drop (Z.to_nat k) l.

(** ** JavaScript values *)

(** A number is kept as the text JavaScript prints for it ([52772], [1.5],
    [0], [NaN]): the code modelled here never calculates with a number
    taken from parsed data, it only tests its truthiness, compares it with
    zero and prints it. *)
Inductive JsVal : Type :=
| JUndefined
| JNull
| JBool (b : bool)
| JNum (repr : string)
| JStr (s : string)
| JArr (elems : list JsVal)
| JObj (props : list (string * JsVal)).

Definition js_number (n : nat) : JsVal := JNum (pretty n).

(** ToBoolean *)
Definition truthy (v : JsVal) : bool :=
  match v with
  | JUndefined | JNull => false
  | JBool b => b
  | JNum r => negb ((r =? "0") || (r =? "NaN"))
  | JStr s => negb (s =? "")
  | JArr _ | JObj _ => true
  end.

Definition typeof (v : JsVal) : string :=
  match v with
  | JUndefined => "undefined"
  | JNull | JArr _ | JObj _ => "object"
  | JBool _ => "boolean"
  | JNum _ => "number"
  | JStr _ => "string"
  end.

Definition isArray (v : JsVal) : bool :=
  match v with JArr _ => true | _ => false end.

Fixpoint assoc {A} (k : string) (l : list (string * A)) : option A :=
  match l with
  | [] => None
  | (k', v) :: r => if k' =? k then Some v else assoc k r
  end.

(** ToString, as applied by template literals, [RegExp.prototype.test]
    and [toString()]. *)
Fixpoint ToString (v : JsVal) : string :=
  match v with
  | JUndefined => "undefined"
  | JNull => "null"
  | JBool true => "true"
  | JBool false => "false"
  | JNum r => r
  | JStr s => s
  | JArr l =>
      (fix elems (l : list JsVal) : string :=
         match l with
         | [] => ""
         | x :: r =>
             let sx := match x with JUndefined | JNull => "" | _ => ToString x end in
             match r with
             | [] => sx
             | _ => sx ++ "," ++ elems r
             end
         end) l
  | JObj _ => "[object Object]"
  end.

(** ** Exceptions *)

(** An error object: its [name], [message], [code] (set by
    [ValidationError] and by the HTTP client) and, for an HTTP error
    status, the [response]'s status and status text. *)
Record JsError : Type := mkError {
  err_name : string;
  err_message : string;
  err_code : option string;
  err_response : option (nat * string)
}.

Definition Error (message : string) : JsError := mkError "Error" message None None.

Definition TypeError (message : string) : JsError :=
  mkError "TypeError" message None None.

(** [class ValidationError extends Error], whose [code] defaults to
    ['VALIDATION_ERROR'] when the argument is undefined. *)
Definition ValidationError (message : string) (code : option string) : JsError :=
  mkError "ValidationError" message (Some (default "VALIDATION_ERROR" code)) None.

Inductive Result (A : Type) : Type :=
| Ok (a : A)
| Throw (e : JsError).

Arguments Ok {A} a.
Arguments Throw {A} e.

#[global] Instance Result_ret : MRet Result := fun _ a => Ok a.

#[global] Instance Result_bind : MBind Result := fun _ _ f m =>
  match m with
  | Ok a => f a
  | Throw e => Throw e
  end.

Definition is_ok {A} (r : Result A) : bool :=
  match r with Ok _ => true | Throw _ => false end.

(** Property read [v.k]: a [TypeError] on [undefined] and [null]; on an
    array or a string only [length] is ever read by name. *)
Definition get (v : JsVal) (k : string) : Result JsVal :=
  match v with
  | JUndefined | JNull =>
      Throw (TypeError ("Cannot read properties of " ++ ToString v ++ " (reading '" ++ k ++ "')"))
  | JObj props => Ok (default JUndefined (assoc k props))
  | JArr l => Ok (if k =? "length" then js_number (length l) else JUndefined)
  | JStr s => Ok (if k =? "length" then js_number (String.length s) else JUndefined)
  | JBool _ | JNum _ => Ok JUndefined
  end.

(** [v === 0] *)
Definition is_zero (v : JsVal) : bool :=
  match v with JNum r => r =? "0" | _ => false end.

(** [list.includes(v)] for a list of strings *)
Definition includes_str (l : list string) (v : JsVal) : bool :=
  match v with
  | JStr s => existsb (String.eqb s) l
  | _ => false
  end.

(** ** utils/prompts.js: vocabularies *)

Definition MEALDB_CATEGORIES : list string :=
  [ "Beef"; "Breakfast"; "Chicken"; "Dessert"; "Goat"; "Lamb";
    "Miscellaneous"; "Pasta"; "Pork"; "Seafood"; "Side"; "Starter";
    "Vegan"; "Vegetarian" ].

Definition COMMON_INGREDIENTS : list string :=
  [ "Chicken"; "Salmon"; "Beef"; "Pork"; "Avocado"; "Bacon"; "Basil";
    "Basmati Rice"; "Bread"; "Broccoli"; "Brown Rice"; "Butter"; "Carrots";
    "Cheddar Cheese"; "Cheese"; "Cherry Tomatoes"; "Chicken Breast";
    "Chicken Stock"; "Chickpeas"; "Cilantro"; "Coconut Milk"; "Cod";
    "Coriander"; "Cream"; "Cucumber"; "Cumin"; "Eggs"; "Extra Virgin Olive Oil";
    "Flour"; "Garlic"; "Ginger"; "Honey"; "Lemon"; "Lime"; "Milk"; "Mushrooms";
    "Onion"; "Parsley"; "Pasta"; "Potatoes"; "Prawns"; "Rice"; "Salt";
    "Spinach"; "Tomatoes"; "Tuna"; "Yogurt"; "Black Pepper"; "Olive Oil";
    "Soy Sauce"; "Vinegar"; "Wine"; "Sugar"; "Lamb"; "Turkey"; "Duck";
    "Asparagus"; "Aubergine"; "Bell Pepper"; "Cabbage"; "Celery"; "Courgettes";
    "Green Beans"; "Leeks"; "Peas"; "Red Onion"; "Sweet Potato" ].

(** ** utils/validators.js *)

Definition ALLOWED_ENDPOINTS : list string :=
  [ "search.php"; "filter.php"; "lookup.php" ].

Record ParamRule : Type := mkRule {
  rule_type : string;
  rule_maxLength : nat;
  rule_required : bool;
  rule_enum : option (list string)
}.

Definition PARAM_RULES (paramName : string) : option ParamRule :=
  if paramName =? "s" then Some (mkRule "string" 100 true None)
  else if paramName =? "i" then
    Some (mkRule "string" 50 true (Some (map toLowerCase COMMON_INGREDIENTS)))
  else if paramName =? "c" then
    Some (mkRule "string" 30 true (Some (map toLowerCase MEALDB_CATEGORIES)))
  else None.

(** [parseInt(process.env.X) || d]: the default also replaces a setting
    that parses to zero or does not parse at all ([None]). *)
Definition env_or (parsed : option Z) (d : Z) : Z :=
  match parsed with
  | Some n => if (n =? 0)%Z then d else n
  | None => d
  end.

Record Config : Type := mkConfig {
  MAX_API_CALLS_PER_REQUEST : option Z;
  MAX_CONVERSATION_LENGTH : option Z;
  SESSION_TIMEOUT_MINUTES : option Z
}.

Definition default_config : Config := mkConfig None None None.

Definition MAX_API_CALLS (cfg : Config) : Z :=
  env_or (MAX_API_CALLS_PER_REQUEST cfg) 5.

Definition validateApiCallStructure (apiCall : JsVal) : Result unit :=
  if negb (truthy apiCall) || negb (typeof apiCall =? "object")
  then Throw (ValidationError "API call must be an object" (Some "INVALID_API_CALL"))
  else Ok tt.

Definition validateEndpoint (endpoint : JsVal) : Result unit :=
  if negb (truthy endpoint) || negb (typeof endpoint =? "string")
  then Throw (ValidationError "Endpoint is required and must be a string"
                (Some "INVALID_ENDPOINT"))
  else if negb (includes_str ALLOWED_ENDPOINTS endpoint)
  then Throw (ValidationError ("Endpoint not allowed: " ++ ToString endpoint)
                (Some "ENDPOINT_NOT_ALLOWED"))
  else Ok tt.

Definition validateParams (params : JsVal) : Result unit :=
  if negb (truthy params) || negb (typeof params =? "object")
  then Throw (ValidationError "Params are required and must be an object"
                (Some "INVALID_PARAMS"))
  else Ok tt.

Definition validateParamBasics (paramName : string) (value : JsVal) (rule : ParamRule)
  : Result unit :=
  empty ← (if negb (truthy value) then Ok true
           else len ← get value "length"; Ok (is_zero len));
  if rule_required rule && empty
  then Throw (ValidationError ("Parameter " ++ quoted paramName ++ " is required")
                (Some "MISSING_REQUIRED_PARAM"))
  else if (rule_type rule =? "string") && negb (typeof value =? "string")
  then Throw (ValidationError ("Parameter " ++ quoted paramName ++ " must be a string")
                (Some "INVALID_PARAM_TYPE"))
  else
    match value with
    | JStr s =>
        if negb (rule_maxLength rule =? 0)%nat && (rule_maxLength rule <? String.length s)%nat
        then Throw (ValidationError
                      ("Parameter " ++ quoted paramName ++ " too long. Maximum "
                       ++ pretty (rule_maxLength rule) ++ " characters")
                      (Some "PARAM_TOO_LONG"))
        else Ok tt
    | _ => Ok tt
    end.

Definition validateParamEnum (paramName : string) (value : JsVal) (rule : ParamRule)
  : Result unit :=
  match rule_enum rule with
  | Some enum =>
      if negb (paramName =? "i") then
        match value with
        | JStr s =>
            let normalizedValue := toLowerCase s in
            if negb (existsb (String.eqb normalizedValue) enum) then
              let validOptions :=
                if paramName =? "c" then MEALDB_CATEGORIES else COMMON_INGREDIENTS in
              Throw (ValidationError
                       ("Invalid " ++ (if paramName =? "c" then "category" else "ingredient")
                        ++ ": " ++ quoted s ++ ". Valid options include: "
                        ++ join ", " (take 10 validOptions) ++ "...")
                       (Some "INVALID_ENUM_VALUE"))
            else Ok tt
        | _ => Throw (TypeError "value.toLowerCase is not a function")
        end
      else Ok tt
  | None => Ok tt
  end.

Definition validateParam (paramName : string) (value : JsVal) : Result unit :=
  match PARAM_RULES paramName with
  | None => Throw (ValidationError ("Unknown parameter: " ++ paramName)
                     (Some "UNKNOWN_PARAMETER"))
  | Some rule =>
      _ ← validateParamBasics paramName value rule;
      validateParamEnum paramName value rule
  end.

Definition validateSearchParams (params : JsVal) : Result unit :=
  s ← get params "s";
  if negb (truthy s)
  then Throw (ValidationError ("Search parameter " ++ quoted "s" ++ " is required")
                (Some "MISSING_SEARCH_PARAM"))
  else validateParam "s" s.

Definition validateFilterParamPresence (hasIngredient hasCategory : JsVal) : Result unit :=
  if negb (truthy hasIngredient) && negb (truthy hasCategory)
  then Throw (ValidationError
                "Filter requires either ingredient (i) or category (c) parameter"
                (Some "MISSING_FILTER_PARAM"))
  else if truthy hasIngredient && truthy hasCategory
  then Throw (ValidationError
                "Filter can only use one parameter: ingredient (i) or category (c)"
                (Some "TOO_MANY_FILTER_PARAMS"))
  else Ok tt.

Definition validateFilterParamValues (params hasIngredient hasCategory : JsVal)
  : Result unit :=
  _ ← (if truthy hasIngredient then i ← get params "i"; validateParam "i" i else Ok tt);
  if truthy hasCategory then c ← get params "c"; validateParam "c" c else Ok tt.

Definition validateFilterParams (params : JsVal) : Result unit :=
  hasIngredient ← get params "i";
  hasCategory ← get params "c";
  _ ← validateFilterParamPresence hasIngredient hasCategory;
  validateFilterParamValues params hasIngredient hasCategory.

Definition validateLookupParams (params : JsVal) : Result unit :=
  i ← get params "i";
  if negb (truthy i)
  then Throw (ValidationError
                ("Lookup parameter " ++ quoted "i" ++ " (meal ID) is required")
                (Some "MISSING_LOOKUP_PARAM"))
  else if negb (matches_digits (ToString i))
  then Throw (ValidationError
                ("Lookup parameter " ++ quoted "i" ++ " must be a numeric meal ID")
                (Some "INVALID_MEAL_ID"))
  else Ok tt.

Definition validateEndpointSpecificParams (endpoint params : JsVal) : Result unit :=
  match endpoint with
  | JStr e =>
      if e =? "search.php" then validateSearchParams params
      else if e =? "filter.php" then validateFilterParams params
      else if e =? "lookup.php" then validateLookupParams params
      else Ok tt
  | _ => Ok tt
  end.

Definition validateApiCall (apiCall : JsVal) : Result bool :=
  _ ← validateApiCallStructure apiCall;
  endpoint ← get apiCall "endpoint";
  params ← get apiCall "params";
  _ ← validateEndpoint endpoint;
  _ ← validateParams params;
  _ ← validateEndpointSpecificParams endpoint params;
  Ok true.

(** The [forEach] of [validateApiCalls]: the first call that fails is
    re-thrown with its index, keeping the inner error's code. *)
Fixpoint validateEach (index : nat) (apiCalls : list JsVal) : Result unit :=
  match apiCalls with
  | [] => Ok tt
  | apiCall :: rest =>
      match validateApiCall apiCall with
      | Ok _ => validateEach (S index) rest
      | Throw error =>
          Throw (ValidationError
                   ("Invalid API call at index " ++ pretty index ++ ": "
                    ++ err_message error)
                   (err_code error))
      end
  end.

Definition validateApiCalls (cfg : Config) (apiCalls : JsVal) : Result bool :=
  match apiCalls with
  | JArr calls =>
      if (length calls =? 0)%nat
      then Throw (ValidationError "At least one API call is required" (Some "NO_API_CALLS"))
      else if (MAX_API_CALLS cfg <? Z.of_nat (length calls))%Z
      then Throw (ValidationError
                    ("Too many API calls. Maximum " ++ pretty (MAX_API_CALLS cfg) ++ " allowed")
                    (Some "TOO_MANY_API_CALLS"))
      else _ ← validateEach 0 calls; Ok true
  | _ => Throw (ValidationError "API calls must be an array" (Some "INVALID_API_CALLS_FORMAT"))
  end.

(** [isValidJSON] and [JSON.parse] share one parser, an oracle of the
    development: [None] stands for a [SyntaxError]. *)
Definition isValidJSON (JSON_parse : string → option JsVal) (str : string) : bool :=
  match JSON_parse str with Some _ => true | None => false end.

(** ** The world outside and the mutable state *)

Record Message : Type := mkMessage {
  role : string;
  content : JsVal;
  timestamp : Z
}.

(** One entry of the array returned by [executeBatch]:
    - [ValidResponse meals] is [{ meals, count: meals.length, isEmpty: false }];
    - [EmptyResponse message] is [{ meals: null, message, isEmpty: true }];
    - [UnexpectedResponse rawData] is [{ meals: null, message: 'Unexpected
      response format from MealDB', rawData, isEmpty: true }];
    - [ErrorResult message endpoint params] is
      [{ error: true, message, endpoint, params }]. *)
Inductive BatchResult : Type :=
| ValidResponse (meals : list JsVal)
| EmptyResponse (message : string)
| UnexpectedResponse (rawData : JsVal)
| ErrorResult (message : string) (endpoint params : JsVal).

(** [result.error] *)
Definition result_error (result : BatchResult) : bool :=
  match result with ErrorResult _ _ _ => true | _ => false end.

(** [result.meals]: [None] when it is [null] or absent. *)
Definition result_meals (result : BatchResult) : option (list JsVal) :=
  match result with ValidResponse meals => Some meals | _ => None end.

(** [result.isEmpty] as a truth value *)
Definition result_isEmpty (result : BatchResult) : bool :=
  match result with
  | EmptyResponse _ | UnexpectedResponse _ => true
  | ValidResponse _ | ErrorResult _ _ _ => false
  end.

Record Session : Type := mkSession {
  id : string;
  history : list Message;
  lastMealData : option (list BatchResult);
  createdAt : Z;
  lastActivity : Z
}.

(** A request to MealDB: the endpoint and the query pairs of
    [buildURL], before percent-encoding. *)
Record Url : Type := mkUrl {
  url_endpoint : string;
  url_query : list (string * string)
}.

(** The collaborators the pipeline cannot see into. Each answer may
    depend on how many calls came before, so that two equal requests can
    be answered differently.
    - [bedrock k prompt]: what [invokeModel] returns or throws for the
      [k]-th prompt;
    - [axios_get k url]: the [response.data] of the [k]-th request, or the
      error the client rejects with;
    - [uuidv4 k]: the [k]-th identifier generated;
    - [Date_now k]: the [k]-th reading of the clock, in milliseconds;
    - [JSON_parse]: the parser, [None] for a [SyntaxError]. *)
Record Outside : Type := mkOutside {
  bedrock : nat → string → Result string;
  axios_get : nat → Url → Result JsVal;
  uuidv4 : nat → string;
  Date_now : nat → Z;
  JSON_parse : string → option JsVal
}.

Record World : Type := mkWorld {
  sessions : gmap string Session;
  prompts_sent : list string;
  requests_sent : list Url;
  uuids_drawn : nat;
  clock_reads : nat
}.

Definition initial_world : World := mkWorld ∅ [] [] 0 0.

Definition set_sessions (f : gmap string Session → gmap string Session) (w : World) : World :=
  mkWorld (f (sessions w)) (prompts_sent w) (requests_sent w) (uuids_drawn w) (clock_reads w).

(** State and exceptions: a thrown error keeps the state changes made
    before it. *)
Definition M (A : Type) : Type := World → Result A * World.

#[global] Instance M_ret : MRet M := fun _ a w => (Ok a, w).

#[global] Instance M_bind : MBind M := fun _ _ f m w =>
  match m w with
  | (Ok a, w') => f a w'
  | (Throw e, w') => (Throw e, w')
  end.

Definition lift {A} (r : Result A) : M A := fun w => (r, w).

Definition throw {A} (e : JsError) : M A := fun w => (Throw e, w).

(** [try { body } catch (error) { handler error }] *)
Definition try_catch {A} (body : M A) (handler : JsError → M A) : M A := fun w =>
  match body w with
  | (Ok a, w') => (Ok a, w')
  | (Throw e, w') => handler e w'
  end.

Definition get_sessions : M (gmap string Session) := fun w => (Ok (sessions w), w).

Definition modify_sessions (f : gmap string Session → gmap string Session) : M unit :=
  fun w => (Ok tt, set_sessions f w).

Section Pipeline.

Variable cfg : Config.
Variable out : Outside.

(** [new Date()] and [Date.now()] *)
Definition now : M Z := fun w =>
  (Ok (Date_now out (clock_reads w)),
   mkWorld (sessions w) (prompts_sent w) (requests_sent w) (uuids_drawn w)
     (S (clock_reads w))).

Definition draw_uuid : M string := fun w =>
  (Ok (uuidv4 out (uuids_drawn w)),
   mkWorld (sessions w) (prompts_sent w) (requests_sent w) (S (uuids_drawn w))
     (clock_reads w)).

(** [this.client.get(url)] *)
Definition client_get (url : Url) : M JsVal := fun w =>
  (axios_get out (length (requests_sent w)) url,
   mkWorld (sessions w) (prompts_sent w) (requests_sent w ++ [url])%list (uuids_drawn w)
     (clock_reads w)).

(** [invokeModel(prompt)]: prompt formatting for the model family, the
    call raced against the timeout and the extraction of the text from
    the reply all lie behind the [bedrock] oracle. *)
Definition invokeModel (prompt : string) : M string := fun w =>
  (bedrock out (length (prompts_sent w)) prompt,
   mkWorld (sessions w) (prompts_sent w ++ [prompt])%list (requests_sent w) (uuids_drawn w)
     (clock_reads w)).

(** ** services/mealdbService.js *)

Definition chars_of (s : string) : list JsVal :=
  map (fun c => JStr (String c "")) (String.list_ascii_of_string s).

(** [Object.entries(params)] *)
Definition entries (params : JsVal) : Result (list (string * JsVal)) :=
  match params with
  | JUndefined | JNull => Throw (TypeError "Cannot convert undefined or null to object")
  | JObj props => Ok props
  | JArr l => Ok (imap (fun i v => (pretty i, v)) l)
  | JStr s => Ok (imap (fun i v => (pretty i, v)) (chars_of s))
  | JBool _ | JNum _ => Ok []
  end.

Definition buildURL (endpoint params : JsVal) : Result Url :=
  props ← entries params;
  Ok (mkUrl (ToString endpoint)
        (omap (fun kv : string * JsVal =>
                 match kv.2 with
                 | JNull | JUndefined => None
                 | value => Some (kv.1, ToString value)
                 end) props)).

Definition createEmptyResponse (message : string) : BatchResult := EmptyResponse message.

Definition createValidResponse (meals : list JsVal) : BatchResult := ValidResponse meals.

Definition createUnexpectedResponse (data : JsVal) : BatchResult := UnexpectedResponse data.

Definition processResponse (data endpoint : JsVal) : Result BatchResult :=
  if negb (truthy data) then Ok (createEmptyResponse "No data received from MealDB")
  else
    meals ← get data "meals";
    match meals with
    | JNull => Ok (createEmptyResponse ("No results found for " ++ ToString endpoint))
    | JArr l => Ok (createValidResponse l)
    | _ => Ok (createUnexpectedResponse data)
    end.

Definition determineErrorMessage (error : JsError) : string :=
  let code := default "" (err_code error) in
  if code =? "ENOTFOUND" then "MealDB service is currently unavailable"
  else if code =? "ECONNABORTED" then "MealDB request timed out"
  else
    match err_response error with
    | Some (status, statusText) =>
        "MealDB API error: " ++ pretty status ++ " " ++ statusText
    | None => "Network error: " ++ err_message error
    end.

Definition logAndThrowError {A} (error : JsError) (endpoint params : JsVal) : M A :=
  throw (Error (determineErrorMessage error)).

Definition executeCall (endpoint params : JsVal) : M BatchResult :=
  try_catch
    (url ← lift (buildURL endpoint params);
     data ← client_get url;
     lift (processResponse data endpoint))
    (fun error => logAndThrowError error endpoint params).

Definition createBatchErrorResult (error : JsError) (call : JsVal) : Result BatchResult :=
  endpoint ← get call "endpoint";
  params ← get call "params";
  Ok (ErrorResult (err_message error) endpoint params).

(** What [Promise.allSettled] reports for one promise. *)
Inductive Settled : Type :=
| Fulfilled (value : BatchResult)
| Rejected (reason : JsError).

(** One promise of [createBatchPromises], run to completion. The
    requests leave in the order of the calls; each answer is the
    oracle's for that request, whatever the order of arrival. *)
Definition batchPromise (call : JsVal) : World → Settled * World := fun w =>
  match
    try_catch
      (endpoint ← lift (get call "endpoint");
       params ← lift (get call "params");
       executeCall endpoint params)
      (fun error => lift (createBatchErrorResult error call)) w
  with
  | (Ok value, w') => (Fulfilled value, w')
  | (Throw reason, w') => (Rejected reason, w')
  end.

Fixpoint createBatchPromises (apiCalls : list JsVal) (w : World) : list Settled * World :=
  match apiCalls with
  | [] => ([], w)
  | call :: rest =>
      let '(result, w1) := batchPromise call w in
      let '(results, w2) := createBatchPromises rest w1 in
      (result :: results, w2)
  end.

Definition handleRejectedBatchResult (reason : JsError) (apiCall : JsVal)
  : Result BatchResult :=
  endpoint ← get apiCall "endpoint";
  params ← get apiCall "params";
  Ok (ErrorResult
        (if err_message reason =? "" then "Unknown error" else err_message reason)
        endpoint params).

(** [results.map((result, index) => ...)] against [apiCalls[index]] *)
Fixpoint processBatchResults (results : list Settled) (apiCalls : list JsVal)
  : Result (list BatchResult) :=
  match results with
  | [] => Ok []
  | result :: results' =>
      first ← match result with
               | Fulfilled value => Ok value
               | Rejected reason =>
                   handleRejectedBatchResult reason (default JUndefined (head apiCalls))
               end;
      others ← processBatchResults results' (tail apiCalls);
      Ok (first :: others)
  end.

Definition executeBatch (apiCalls : JsVal) : M (list BatchResult) :=
  match apiCalls with
  | JArr calls =>
      if (length calls =? 0)%nat then mret []
      else fun w =>
        let '(results, w') := createBatchPromises calls w in
        (processBatchResults results calls, w')
  | _ => mret []
  end.

(** [response && response.meals && response.meals.length > 0 && !response.isEmpty] *)
Definition hasResults (response : BatchResult) : bool :=
  match result_meals response with
  | Some meals => (0 <? length meals)%nat && negb (result_isEmpty response)
  | None => false
  end.

(** Filter results only have idMeal, strMeal, strMealThumb; lookup
    results have strInstructions. *)
Definition isFilterResult (response : BatchResult) : Result bool :=
  if hasResults response then
    match result_meals response with
    | Some (firstMeal :: _) =>
        strInstructions ← get firstMeal "strInstructions";
        Ok (negb (truthy strInstructions))
    | _ => Ok false
    end
  else Ok false.

(** ** utils/prompts.js: the prompt builders *)

Definition nl : string := String (Ascii.ascii_of_nat 10) "".

(** The fixed texts below are written with [@] where the source has a
    double quote. *)
Fixpoint with_quotes (s : string) : string :=
  match s with
  | "" => ""
  | String c r =>
      String (if Ascii.eqb c (Ascii.ascii_of_nat 64) then Ascii.ascii_of_nat 34 else c)
        (with_quotes r)
  end.

Definition describe (msg : Message) : string :=
  role msg ++ ": " ++ ToString (content msg).

Definition buildPhase1Context (conversationHistory : list Message) : string :=
  if (0 <? length conversationHistory)%nat
  then nl ++ nl ++ "Conversation context:" ++ nl
       ++ join nl (map describe conversationHistory) ++ nl
  else "".

Definition buildPhase1SystemPrompt : string :=
  "You are a cooking assistant with access to MealDB API.

CRITICAL RULES:
1. For cuisine types (Korean, Italian, Chinese, Mexican, Indian, etc.) → ALWAYS use search.php
2. For categories → ONLY use these exact values: " ++ join ", " MEALDB_CATEGORIES ++ "
3. Unknown categories → Use search.php instead
4. Multiple requests → Return multiple API calls

API endpoints:
- search.php?s={query} - Search by name or cuisine type
- filter.php?c={category} - Filter by category (MUST be from list above)
- filter.php?i={ingredient} - Filter by main ingredient".

Definition buildPhase1Examples : string := with_quotes
  "Examples:
@korean recipes@ → {@api_calls@: [{@endpoint@: @search.php@, @params@: {@s@: @korean@}}]}
@italian pasta@ → {@api_calls@: [{@endpoint@: @search.php@, @params@: {@s@: @italian pasta@}}]}
@mexican food@ → {@api_calls@: [{@endpoint@: @search.php@, @params@: {@s@: @mexican@}}]}
@vegetarian meals@ → {@api_calls@: [{@endpoint@: @filter.php@, @params@: {@c@: @Vegetarian@}}]}
@beef dishes@ → {@api_calls@: [{@endpoint@: @filter.php@, @params@: {@c@: @Beef@}}]}
@dishes with chicken@ → {@api_calls@: [{@endpoint@: @filter.php@, @params@: {@i@: @Chicken@}}]}
@hello@ → @Hello! I'm ChefSue, your cooking assistant. I can help you find delicious recipes!@
@thanks@ → @You're welcome! Let me know if you need any recipe suggestions.@".

Definition createPhase1Prompt (userMessage : string) (conversationHistory : list Message)
  : string :=
  let contextString := buildPhase1Context conversationHistory in
  let systemPrompt := buildPhase1SystemPrompt in
  let examples := buildPhase1Examples in
  systemPrompt ++ nl ++ nl ++ examples ++ nl ++ nl
  ++ "User request: " ++ quoted userMessage ++ contextString ++ nl ++ nl
  ++ with_quotes "OUTPUT FORMAT:
- Recipe requests: Return ONLY {@api_calls@: [...]} as valid JSON
- Greetings/chat: Return ONLY a plain text response (markdown formatting is OK)

DO NOT:
- Include any text before or after JSON when returning api_calls
- Mix JSON and text in the same response
- Return the original prompt or echo the user's message
- Use categories not in the exact list above".

Definition formatFilterMeal (meal : JsVal) : Result string :=
  strMeal ← get meal "strMeal";
  idMeal ← get meal "idMeal";
  Ok ("- " ++ ToString strMeal ++ " (ID: " ++ ToString idMeal ++ ")").

Definition formatFilterResults (filterResults : list BatchResult) : Result string :=
  lines ← mapM (fun result =>
                  match result_meals result with
                  | Some (meal :: meals) =>
                      ls ← mapM formatFilterMeal (meal :: meals); Ok (join nl ls)
                  | _ => Ok "No meals found"
                  end) filterResults;
  Ok (join nl lines).

Definition buildPhase2PromptText (userMessage mealsText : string) : string :=
  "The user asked: " ++ quoted userMessage ++ nl ++ nl
  ++ "Here are meal results from filtering:" ++ nl ++ mealsText ++ nl ++ nl
  ++ with_quotes "Select up to 3 most relevant meals for detailed recipes.
Consider: relevance, variety, user intent.

Return JSON:
{@api_calls@: [{@endpoint@: @lookup.php@, @params@: {@i@: @mealId@}}...]}

Note: This phase is skipped if:
- No filter results were returned
- Direct recipe search was performed
- Initial API calls returned full recipe details".

Definition createPhase2Prompt (userMessage : string) (filterResults : list BatchResult)
  : Result string :=
  mealsText ← formatFilterResults filterResults;
  Ok (buildPhase2PromptText userMessage mealsText).

(** [value.trim()]: a method only strings have. *)
Definition js_trim (value : JsVal) (name : string) : Result string :=
  match value with
  | JStr s => Ok (trim s)
  | _ => Throw (TypeError (name ++ ".trim is not a function"))
  end.

(** One round of the loop of [extractIngredients]. *)
Definition ingredientAt (meal : JsVal) (i : nat) : Result (option string) :=
  ingredient ← get meal ("strIngredient" ++ pretty i);
  measure ← get meal ("strMeasure" ++ pretty i);
  if truthy ingredient then
    trimmed ← js_trim ingredient "ingredient";
    if trimmed =? "" then Ok None
    else
      prefix ← (if truthy measure
                 then m ← js_trim measure "measure"; Ok (m ++ " ")
                 else Ok "");
      trimmed' ← js_trim ingredient "ingredient";
      Ok (Some (prefix ++ trimmed'))
  else Ok None.

Definition extractIngredients (meal : JsVal) : Result (list string) :=
  found ← mapM (ingredientAt meal) (seq 1 20);
  Ok (omap (fun x => x) found).

Definition formatIngredientText (ingredients : list string) : string :=
  if (0 <? length ingredients)%nat
  then "Ingredients: " ++ join ", " (take 8 ingredients)
       ++ (if (8 <? length ingredients)%nat then "..." else "")
  else "".

Definition formatInstructionText (instructions : JsVal) : Result string :=
  if truthy instructions then
    match instructions with
    | JStr s => Ok ("Instructions: " ++ substring0 200 s ++ "...")
    | _ => Throw (TypeError "instructions.substring is not a function")
    end
  else Ok "Instructions: N/A".

(** [v || 'N/A'] inside a template literal *)
Definition or_NA (v : JsVal) : string :=
  if truthy v then ToString v else "N/A".

Definition buildMealInfoText (meal : JsVal) (ingredientText instructions image : string)
  : Result string :=
  strMeal ← get meal "strMeal";
  strCategory ← get meal "strCategory";
  strArea ← get meal "strArea";
  Ok (trim ("**" ++ ToString strMeal ++ "**" ++ nl
            ++ "Category: " ++ or_NA strCategory ++ nl
            ++ "Area: " ++ or_NA strArea ++ nl
            ++ ingredientText ++ nl ++ instructions ++ nl ++ image)).

Definition formatMealInfo (meal : JsVal) : Result string :=
  ingredients ← extractIngredients meal;
  let ingredientText := formatIngredientText ingredients in
  strInstructions ← get meal "strInstructions";
  instructions ← formatInstructionText strInstructions;
  strMealThumb ← get meal "strMealThumb";
  let image := if truthy strMealThumb then "Image: " ++ ToString strMealThumb else "" in
  buildMealInfoText meal ingredientText instructions image.

Definition formatMealData (mealData : list BatchResult) : Result string :=
  if (length mealData =? 0)%nat then Ok ""
  else
    blocks ← mapM (fun result =>
                     match result_meals result with
                     | Some (meal :: meals) =>
                         infos ← mapM formatMealInfo (meal :: meals);
                         Ok (join (nl ++ nl) infos)
                     | _ => Ok "No detailed recipe data available"
                     end) mealData;
    Ok (join (nl ++ nl) blocks).

Definition buildContextString (conversationHistory : list Message) : string :=
  if (0 <? length conversationHistory)%nat
  then nl ++ nl ++ "Conversation context:" ++ nl
       ++ join nl (map describe (slice_from (-4) conversationHistory)) ++ nl
  else "".

Definition buildSynthesisSystemPrompt : string :=
  "You are ChefSue, a friendly cooking assistant.".

Definition buildSynthesisInstructions : string :=
  "Provide a helpful, concise response highlighting:
- Recipe names and brief descriptions
- Key ingredients
- Basic preparation steps
- Cooking tips if relevant

Keep response conversational and under 300 words.
If no recipe data is available, provide general cooking advice related to the user's query.".

Definition createSynthesisPrompt (userMessage : string) (mealData : list BatchResult)
    (conversationHistory : list Message) : Result string :=
  let contextString := buildContextString conversationHistory in
  dataText ← formatMealData mealData;
  let systemPrompt := buildSynthesisSystemPrompt in
  Ok (systemPrompt ++ nl ++ nl
      ++ "User asked: " ++ quoted userMessage ++ contextString ++ nl ++ nl
      ++ "Recipe data available:" ++ nl
      ++ (if dataText =? "" then "No recipe data found" else dataText) ++ nl ++ nl
      ++ buildSynthesisInstructions).

(** ** services/aiService.js *)

(** [JSON.parse(str)] *)
Definition parse_or_throw (str : string) : Result JsVal :=
  match JSON_parse out str with
  | Some v => Ok v
  | None => Throw (mkError "SyntaxError" "Unexpected token in JSON" None None)
  end.

Definition parseAnalysisResponse (response : string) : Result JsVal :=
  let direct := Ok (JObj [("direct_response", JStr response)]) in
  if isValidJSON (JSON_parse out) response then
    parsed ← parse_or_throw response;
    api_calls ← get parsed "api_calls";
    if truthy api_calls && isArray api_calls then Ok parsed else direct
  else direct.

Definition analyzePipeline (userMessage : string) (conversationHistory : list Message)
  : M JsVal :=
  let prompt := createPhase1Prompt userMessage conversationHistory in
  try_catch
    (response ← invokeModel prompt;
     lift (parseAnalysisResponse response))
    (fun error => throw (Error ("Failed to analyze user intent: " ++ err_message error))).

Definition lookupCall (idMeal : JsVal) : JsVal :=
  JObj [("endpoint", JStr "lookup.php"); ("params", JObj [("i", idMeal)])].

(** The inner loop of [createFallbackSelection], over the meals sliced
    from one result; it stops as soon as three calls are collected. *)
Fixpoint fallbackFromMeals (selectedMeals : list JsVal) (fallbackCalls : list JsVal)
  : Result (list JsVal) :=
  match selectedMeals with
  | [] => Ok fallbackCalls
  | meal :: rest =>
      idMeal ← get meal "idMeal";
      let fallbackCalls := (fallbackCalls ++ [lookupCall idMeal])%list in
      if (3 <=? length fallbackCalls)%nat then Ok fallbackCalls
      else fallbackFromMeals rest fallbackCalls
  end.

(** The outer loop of [createFallbackSelection]. *)
Fixpoint fallbackFromResults (filterResults : list BatchResult) (fallbackCalls : list JsVal)
  : Result (list JsVal) :=
  match filterResults with
  | [] => Ok fallbackCalls
  | result :: rest =>
      match result_meals result with
      | Some (meal :: meals) =>
          let selectedMeals := take 3 (meal :: meals) in
          fallbackCalls ← fallbackFromMeals selectedMeals fallbackCalls;
          if (3 <=? length fallbackCalls)%nat then Ok fallbackCalls
          else fallbackFromResults rest fallbackCalls
      | _ => fallbackFromResults rest fallbackCalls
      end
  end.

Definition createFallbackSelection (filterResults : list BatchResult)
  : Result (list JsVal) :=
  fallbackFromResults filterResults [].

Definition createFallbackSelectionResult (filterResults : list BatchResult)
  : Result JsVal :=
  fallbackCalls ← createFallbackSelection filterResults;
  Ok (JObj [("api_calls", JArr fallbackCalls)]).

Definition parseSelectionResponse (response : string) (filterResults : list BatchResult)
  : Result JsVal :=
  if isValidJSON (JSON_parse out) response then
    parsed ← parse_or_throw response;
    api_calls ← get parsed "api_calls";
    if truthy api_calls && isArray api_calls then Ok parsed
    else createFallbackSelectionResult filterResults
  else createFallbackSelectionResult filterResults.

Definition selectRecipes (filterResults : list BatchResult) (userMessage : string)
  : M JsVal :=
  prompt ← lift (createPhase2Prompt userMessage filterResults);
  try_catch
    (response ← invokeModel prompt;
     lift (parseSelectionResponse response filterResults))
    (fun error => lift (createFallbackSelectionResult filterResults)).

(** One round of the loop of [extractMealIngredients]. *)
Definition mealIngredientAt (meal : JsVal) (i : nat) : Result (option string) :=
  ingredient ← get meal ("strIngredient" ++ pretty i);
  if truthy ingredient then
    trimmed ← js_trim ingredient "ingredient";
    if trimmed =? "" then Ok None
    else trimmed' ← js_trim ingredient "ingredient"; Ok (Some trimmed')
  else Ok None.

Definition extractMealIngredients (meal : JsVal) : Result (list string) :=
  found ← mapM (mealIngredientAt meal) (seq 1 6);
  Ok (omap (fun x => x) found).

Definition formatMealForFallback (meal : JsVal) : Result string :=
  strMeal ← get meal "strMeal";
  let mealText := "**" ++ ToString strMeal ++ "**" ++ nl in
  strCategory ← get meal "strCategory";
  let mealText :=
    if truthy strCategory
    then mealText ++ "Category: " ++ ToString strCategory ++ nl
    else mealText in
  ingredients ← extractMealIngredients meal;
  let mealText :=
    if (0 <? length ingredients)%nat
    then mealText ++ "Key ingredients: " ++ join ", " ingredients ++ nl
    else mealText in
  Ok (mealText ++ nl).

(** The inner loop of [extractRecipesFromMealData]. *)
Fixpoint recipesFromMeals (meals : list JsVal) (recipes : list JsVal) : list JsVal :=
  match meals with
  | [] => recipes
  | meal :: rest =>
      if (3 <=? length recipes)%nat then recipes
      else recipesFromMeals rest (recipes ++ [meal])%list
  end.

Fixpoint recipesFromResults (mealData : list BatchResult) (recipes : list JsVal)
  : list JsVal :=
  match mealData with
  | [] => recipes
  | result :: rest =>
      match result_meals result with
      | Some (meal :: meals) =>
          let recipes := recipesFromMeals (meal :: meals) recipes in
          if (3 <=? length recipes)%nat then recipes
          else recipesFromResults rest recipes
      | _ => recipesFromResults rest recipes
      end
  end.

Definition extractRecipesFromMealData (mealData : list BatchResult) : list JsVal :=
  recipesFromResults mealData [].

Definition buildFallbackResponseText (recipes : list JsVal) : Result string :=
  texts ← mapM formatMealForFallback recipes;
  Ok ("Here are some recipes I found for you:" ++ nl ++ nl
      ++ String.concat "" texts
      ++ "Would you like detailed instructions for any of these recipes?").

Definition createFallbackResponse (mealData : list BatchResult) (userMessage : string)
  : Result string :=
  if (length mealData =? 0)%nat
  then Ok "I'm sorry, I couldn't find any recipes matching your request. Could you try asking about a specific dish or ingredient?"
  else
    let recipes := extractRecipesFromMealData mealData in
    if (length recipes =? 0)%nat
    then Ok "I found some results but couldn't extract the recipe details. Please try a different search term."
    else buildFallbackResponseText recipes.

Definition synthesizeResponse (mealData : list BatchResult) (userMessage : string)
    (conversationHistory : list Message) : M string :=
  prompt ← lift (createSynthesisPrompt userMessage mealData conversationHistory);
  try_catch
    (invokeModel prompt)
    (fun error => lift (createFallbackResponse mealData userMessage)).

(** ** services/ragPipeline.js: SessionManager *)

Definition maxConversationLength : Z := env_or (MAX_CONVERSATION_LENGTH cfg) 10.

Definition sessionTimeoutMinutes : Z := env_or (SESSION_TIMEOUT_MINUTES cfg) 30.

(** [createSession(id = null)]; the identifier is [id || uuidv4()]. *)
Definition createSession (id' : option string) : M Session :=
  sessionId ← match id' with
               | Some i => if i =? "" then draw_uuid else mret i
               | None => draw_uuid
               end;
  createdAt ← now;
  lastActivity ← now;
  let session := mkSession sessionId [] None createdAt lastActivity in
  modify_sessions (insert sessionId session);;
  mret session.

Definition getSession (sessionId : option string) : M Session :=
  match sessionId with
  | None => createSession None
  | Some sid =>
      if sid =? "" then createSession None
      else
        ss ← get_sessions;
        match ss !! sid with
        | None => createSession (Some sid)
        | Some session =>
            t ← now;
            let session :=
              mkSession (id session) (history session) (lastMealData session)
                (createdAt session) t in
            modify_sessions (insert sid session);;
            mret session
        end
  end.

Definition addMessage (sessionId : string) (userMessage assistantResponse : JsVal)
  : M unit :=
  ss ← get_sessions;
  match ss !! sessionId with
  | None => mret tt
  | Some session =>
      t1 ← now;
      t2 ← now;
      let pushed :=
        (history session ++ [mkMessage "user" userMessage t1]
                         ++ [mkMessage "assistant" assistantResponse t2])%list in
      let kept :=
        if (maxConversationLength * 2 <? Z.of_nat (length pushed))%Z
        then slice_from (- maxConversationLength * 2) pushed
        else pushed in
      t3 ← now;
      modify_sessions
        (insert sessionId
           (mkSession (id session) kept (lastMealData session) (createdAt session) t3))
  end.

Definition cleanupExpiredSessions : M unit :=
  t ← now;
  let timeoutMs := (sessionTimeoutMinutes * 60 * 1000)%Z in
  modify_sessions
    (filter (fun kv : string * Session => (t - lastActivity kv.2 ≤ timeoutMs)%Z)).

(** ** services/ragPipeline.js: RAGPipeline *)

Record Outcome : Type := mkOutcome {
  message : JsVal;
  sessionId : string;
  processingTime : Z;
  apiCallsMade : nat;
  phasesExecuted : option (list string);
  recipeDataFound : option nat;
  error : bool;
  errorMessage : option string
}.

(** The callback of [hasFilterResults]. *)
Definition filterStyle (result : BatchResult) : Result bool :=
  match result_meals result with
  | Some (_ :: _) => isFilterResult result
  | _ => Ok false
  end.

(** [mealData.some(...)] *)
Fixpoint hasFilterResults (mealData : list BatchResult) : Result bool :=
  match mealData with
  | [] => Ok false
  | result :: rest =>
      found ← filterStyle result;
      if found : bool then Ok true else hasFilterResults rest
  end.

Definition countRecipes (mealData : list BatchResult) : nat :=
  foldl (fun count result =>
           match result_meals result with
           | Some meals => count + length meals
           | None => count
           end) 0 mealData.

Definition createErrorResponse (error : JsError) (userMessage : string) : string :=
  if includes (err_message error) "validation" then
    "I'm sorry, but there seems to be an issue with your request. Could you please rephrase it or try asking about a specific dish or ingredient?"
  else if includes (err_message error) "unavailable" then
    "I'm experiencing some technical difficulties connecting to the recipe database. Please try again in a few moments."
  else if includes (err_message error) "timeout" then
    "The request is taking longer than expected. Please try asking about something more specific."
  else
    "I'm sorry, I encountered an error while processing your request. Could you please try again or ask about something else?".

(** [v.length] of a value that is an array where the pipeline reads it. *)
Definition array_length (v : JsVal) : nat :=
  match v with
  | JArr l => length l
  | JStr s => String.length s
  | _ => 0
  end.

(** Phase 2 of [processRequest]: the selection of recipes from filter
    results. It yields the new values of the variables [detailData],
    [totalApiCalls] and [phase2Executed]. *)
Definition refinementPhase (successfulData : list BatchResult) (userMessage : string)
    (totalApiCalls : nat) : M (list BatchResult * nat * bool) :=
  hasFilter ← lift (hasFilterResults successfulData);
  if (hasFilter : bool) && (0 <? length successfulData)%nat then
    try_catch
      (selectionResponse ← selectRecipes successfulData userMessage;
       api_calls ← lift (get selectionResponse "api_calls");
       if truthy api_calls && (0 <? array_length api_calls)%nat then
         _ ← lift (validateApiCalls cfg api_calls);
         detailData ← executeBatch api_calls;
         mret (detailData, totalApiCalls + array_length api_calls, true)
       else mret ([], totalApiCalls, false))
      (fun error => mret ([], totalApiCalls, false))
  else mret ([], totalApiCalls, false).

(** [session.lastMealData = allMealData]: the session object is the one
    held in the map. *)
Definition storeMealData (session : Session) (allMealData : list BatchResult) : M unit :=
  modify_sessions
    (alter (fun s => mkSession (id s) (history s) (Some allMealData)
                       (createdAt s) (lastActivity s))
       (id session)).

(** The [try] block of [processRequest] after the session is obtained. *)
Definition processRequest_try (session : Session) (userMessage : string) (startTime : Z)
  : M Outcome :=
  aiResponse ← analyzePipeline userMessage (history session);
  direct_response ← lift (get aiResponse "direct_response");
  if truthy direct_response then
    let response := direct_response in
    addMessage (id session) (JStr userMessage) response;;
    t ← now;
    mret (mkOutcome response (id session) (t - startTime) 0
            (Some ["direct_response"]) None false None)
  else
    api_calls ← lift (get aiResponse "api_calls");
    if negb (truthy api_calls) || negb (isArray api_calls)
    then throw (Error "AI service returned invalid response format")
    else
      _ ← lift (validateApiCalls cfg api_calls);
      initialData ← executeBatch api_calls;
      let totalApiCalls := array_length api_calls in
      let successfulData := filter (fun result => result_error result = false) initialData in
      '(detailData, totalApiCalls, phase2Executed) ←
        refinementPhase successfulData userMessage totalApiCalls;
      let allMealData := (successfulData ++ detailData)%list in
      storeMealData session allMealData;;
      finalResponse ← synthesizeResponse allMealData userMessage (history session);
      addMessage (id session) (JStr userMessage) (JStr finalResponse);;
      let phasesExecuted :=
        if phase2Executed : bool
        then ["intent_analysis"; "recipe_selection"; "synthesis"]
        else ["intent_analysis"; "synthesis"] in
      t ← now;
      mret (mkOutcome (JStr finalResponse) (id session) (t - startTime) totalApiCalls
              (Some phasesExecuted) (Some (countRecipes allMealData)) false None).

(** The [catch] block of [processRequest]; [session] is [None] when the
    variable was never assigned. *)
Definition processRequest_catch (session : option Session) (error : JsError)
    (userMessage : string) (startTime : Z) : M Outcome :=
  let errorResponse := createErrorResponse error userMessage in
  match session with
  | Some s => addMessage (id s) (JStr userMessage) (JStr errorResponse)
  | None => mret tt
  end;;
  sid ← match session with
         | Some s => if id s =? "" then draw_uuid else mret (id s)
         | None => draw_uuid
         end;
  t ← now;
  mret (mkOutcome (JStr errorResponse) sid (t - startTime) 0 None None true
          (Some (err_message error))).

Definition processRequest (userMessage : string) (sessionId : option string) : M Outcome :=
  startTime ← now;
  ((fun w =>
      match getSession sessionId w with
      | (Ok session, w1) =>
          try_catch (processRequest_try session userMessage startTime)
            (fun error => processRequest_catch (Some session) error userMessage startTime)
            w1
      | (Throw error, w1) => processRequest_catch None error userMessage startTime w1
      end) : M Outcome).

End Pipeline.

(** ** utils/validators.js: the checks of the request *)

Definition MAX_MESSAGE_LENGTH : nat := 500.

(** The regular expressions of the validators: literal text compared
    without regard to letter case (flag [i]), one character of a class, a
    run of characters of a class ([*]; [+] is one character and a run),
    and sequences of these. *)
Inductive Regex : Type :=
| Text (text : string)
| Class (class : Ascii.ascii → bool)
| Many (class : Ascii.ascii → bool)
| Then (first second : Regex).

(** The rest of [s] after the text [t], if [s] starts with it. *)
Fixpoint skipText (t s : string) : option string :=
  match t with
  | "" => Some s
  | String a t' =>
      match s with
      | "" => None
      | String c s' =>
          if Ascii.eqb (lower_char a) (lower_char c) then skipText t' s' else None
      end
  end.

(** A run of the class, of any length, followed by what [k] accepts. *)
Fixpoint many (class : Ascii.ascii → bool) (k : string → bool) (s : string) : bool :=
  k s ||
  match s with
  | "" => false
  | String c r => class c && many class k r
  end.

(** A match of [r] at the start of [s] whose rest [k] accepts. *)
Fixpoint matchesAt (r : Regex) (s : string) (k : string → bool) : bool :=
  match r with
  | Text t => match skipText t s with Some rest => k rest | None => false end
  | Class class =>
      match s with
      | "" => false
      | String c rest => class c && k rest
      end
  | Many class => many class k s
  | Then first second => matchesAt first s (fun rest => matchesAt second rest k)
  end.

(** [pattern.test(s)] for a pattern written in the function that tests
    it: the search starts at index 0 and tries every position. *)
Fixpoint regex_test (r : Regex) (s : string) : bool :=
  matchesAt r s (fun _ => true) ||
  match s with
  | "" => false
  | String _ rest => regex_test r rest
  end.

Definition is_letter (c : Ascii.ascii) : bool :=
  let n := Ascii.nat_of_ascii (lower_char c) in (97 <=? n)%nat && (n <=? 122)%nat.

(** [\w] *)
Definition is_word (c : Ascii.ascii) : bool :=
  is_letter c || is_digit c || (Ascii.nat_of_ascii c =? 95)%nat.

(** [.]: any character but a line terminator *)
Definition is_dot (c : Ascii.ascii) : bool :=
  let n := Ascii.nat_of_ascii c in negb ((n =? 10)%nat || (n =? 13)%nat).

(** [[^>]] *)
Definition not_gt (c : Ascii.ascii) : bool := negb (Ascii.nat_of_ascii c =? 62)%nat.

(** [/<script[^>]*>.*?<\/script>/gi], [/<iframe[^>]*>.*?<\/iframe>/gi],
    [/javascript:/gi] and [/on\w+\s*=/gi] *)
Definition dangerousPatterns : list Regex :=
  [ Then (Text "<script") (Then (Many not_gt) (Then (Text ">")
      (Then (Many is_dot) (Text "</script>"))));
    Then (Text "<iframe") (Then (Many not_gt) (Then (Text ">")
      (Then (Many is_dot) (Text "</iframe>"))));
    Text "javascript:";
    Then (Text "on") (Then (Class is_word) (Then (Many is_word)
      (Then (Many is_space) (Text "=")))) ].

Definition validateMessageBasics (message : JsVal) : Result unit :=
  if negb (truthy message) || negb (typeof message =? "string")
  then Throw (ValidationError "Message is required and must be a string"
                (Some "INVALID_MESSAGE"))
  else if (MAX_MESSAGE_LENGTH <? String.length (ToString message))%nat
  then Throw (ValidationError
                ("Message too long. Maximum " ++ pretty MAX_MESSAGE_LENGTH ++ " characters")
                (Some "MESSAGE_TOO_LONG"))
  else Ok tt.

Definition validateMessageSecurity (message : JsVal) : Result unit :=
  if existsb (fun pattern => regex_test pattern (ToString message)) dangerousPatterns
  then Throw (ValidationError "Message contains potentially dangerous content"
                (Some "SECURITY_VIOLATION"))
  else Ok tt.

Definition validateUserMessage (message : JsVal) : Result string :=
  _ ← validateMessageBasics message;
  _ ← validateMessageSecurity message;
  js_trim message "message".

Definition validateSessionIdFormat (sessionId : JsVal) : Result unit :=
  if negb (typeof sessionId =? "string")
     || (String.length (ToString sessionId) <? 8)%nat
     || (36 <? String.length (ToString sessionId))%nat
  then Throw (ValidationError "Session ID must be a string between 8-36 characters"
                (Some "INVALID_SESSION_ID"))
  else Ok tt.

(** A character of the class [[a-zA-Z0-9\-_]] *)
Definition is_session_char (c : Ascii.ascii) : bool :=
  is_letter c || is_digit c
  || (Ascii.nat_of_ascii c =? 45)%nat || (Ascii.nat_of_ascii c =? 95)%nat.

Fixpoint all_session_chars (s : string) : bool :=
  match s with
  | "" => true
  | String c r => is_session_char c && all_session_chars r
  end.

(** The regular expression [/^[a-zA-Z0-9\-_]+$/] *)
Definition matches_session_chars (s : string) : bool :=
  match s with
  | "" => false
  | _ => all_session_chars s
  end.

Definition validateSessionIdCharacters (sessionId : JsVal) : Result unit :=
  if negb (matches_session_chars (ToString sessionId))
  then Throw (ValidationError
                "Session ID can only contain letters, numbers, hyphens, and underscores"
                (Some "INVALID_SESSION_ID"))
  else Ok tt.

(** [validateSessionId]: [null] for a missing identifier, the identifier
    itself once it passed both checks. *)
Definition validateSessionId (sessionId : JsVal) : Result JsVal :=
  if negb (truthy sessionId) then Ok JNull
  else
    _ ← validateSessionIdFormat sessionId;
    _ ← validateSessionIdCharacters sessionId;
    Ok sessionId.

(** [s.replace(/[<>]/g, '')] *)
Fixpoint remove_angle_brackets (s : string) : string :=
  match s with
  | "" => ""
  | String c r =>
      let n := Ascii.nat_of_ascii c in
      if (n =? 60)%nat || (n =? 62)%nat then remove_angle_brackets r
      else String c (remove_angle_brackets r)
  end.

(** [s.replace(/javascript:/gi, '')]: the matches are found from left to
    right, each search starting where the last match ended; [skip] counts
    the characters of a match still to be dropped. *)
Fixpoint remove_javascript (skip : nat) (s : string) : string :=
  match s with
  | "" => ""
  | String c r =>
      match skip with
      | S n => remove_javascript n r
      | O =>
          match skipText "javascript:" s with
          | Some _ => remove_javascript 10 r
          | None => String c (remove_javascript 0 r)
          end
      end
  end.

Definition sanitizeInput (input : JsVal) : JsVal :=
  match input with
  | JStr s =>
      JStr (substring0 MAX_MESSAGE_LENGTH
              (remove_javascript 0 (remove_angle_brackets (trim s))))
  | _ => input
  end.

(** ** server.js: the chat route *)

Section Server.

Variable cfg : Config.
Variable out : Outside.

(** The handler of [POST /api/chat], from the body of the request to the
    outcome it answers with; an exception goes to the error handler. The
    validated identifier is [null] or a string. *)
Definition chat (message sessionId : JsVal) : M Outcome :=
  validatedMessage ← lift (validateUserMessage message);
  validatedSessionId ← lift (validateSessionId sessionId);
  processRequest cfg out validatedMessage
    (match validatedSessionId with JStr sid => Some sid | _ => None end).

End Server.

(** * The properties, in the specification's words

    The definitions below are not translated from the source: they name
    what the specification talks about (a valid operation, a rule
    violation, the result expected at a position of a batch, the window of
    a history, a filter-style result), so that the theorems can compare
    the code with it. *)

Open Scope list_scope.
Open Scope nat_scope.

(** The value of property [k] of a value, [undefined] when it cannot be
    read. *)
Definition field (v : JsVal) (k : string) : JsVal :=
  match get v k with Ok x => x | Throw _ => JUndefined end.

Definition is_object (v : JsVal) : bool :=
  match v with JArr _ | JObj _ => true | _ => false end.

(** ** Validator *)

(** A value belongs to a vocabulary when it equals one of its words up
    to letter case. *)
Definition in_vocabulary (vocabulary : list string) (value : string) : Prop :=
  In (toLowerCase value) (map toLowerCase vocabulary).

(** An operation that meets every rule of its kind: a search with a
    non-empty text of at most 100 characters; a filter with exactly one of
    ingredient and category, within its length bound and its vocabulary; a
    lookup with a purely numeric identifier string. A parameter counts as
    present when its value is truthy. *)
Inductive ValidOperation (call : JsVal) : Prop :=
| ValidSearch text :
    is_object call = true → is_object (field call "params") = true →
    field call "endpoint" = JStr "search.php" →
    field (field call "params") "s" = JStr text →
    text ≠ ""%string → String.length text ≤ 100 →
    ValidOperation call
| ValidIngredientFilter ingredient :
    is_object call = true → is_object (field call "params") = true →
    field call "endpoint" = JStr "filter.php" →
    field (field call "params") "i" = JStr ingredient →
    truthy (field (field call "params") "c") = false →
    ingredient ≠ ""%string → String.length ingredient ≤ 50 →
    in_vocabulary COMMON_INGREDIENTS ingredient →
    ValidOperation call
| ValidCategoryFilter category :
    is_object call = true → is_object (field call "params") = true →
    field call "endpoint" = JStr "filter.php" →
    field (field call "params") "c" = JStr category →
    truthy (field (field call "params") "i") = false →
    category ≠ ""%string → String.length category ≤ 30 →
    in_vocabulary MEALDB_CATEGORIES category →
    ValidOperation call
| ValidLookup identifier :
    is_object call = true → is_object (field call "params") = true →
    field call "endpoint" = JStr "lookup.php" →
    field (field call "params") "i" = JStr identifier →
    matches_digits identifier = true →
    ValidOperation call.

(** An operation that breaks one of the rules: a disallowed endpoint,
    both or neither of the filter parameters, a value over its length
    bound, a lookup identifier that is not numeric. *)
Inductive RuleViolation (call : JsVal) : Prop :=
| DisallowedEndpoint :
    includes_str ALLOWED_ENDPOINTS (field call "endpoint") = false →
    RuleViolation call
| FilterWithNeither :
    field call "endpoint" = JStr "filter.php" →
    truthy (field (field call "params") "i") = false →
    truthy (field (field call "params") "c") = false →
    RuleViolation call
| FilterWithBoth :
    field call "endpoint" = JStr "filter.php" →
    truthy (field (field call "params") "i") = true →
    truthy (field (field call "params") "c") = true →
    RuleViolation call
| SearchTooLong text :
    field call "endpoint" = JStr "search.php" →
    field (field call "params") "s" = JStr text →
    100 < String.length text →
    RuleViolation call
| IngredientTooLong ingredient :
    field call "endpoint" = JStr "filter.php" →
    field (field call "params") "i" = JStr ingredient →
    50 < String.length ingredient →
    RuleViolation call
| CategoryTooLong category :
    field call "endpoint" = JStr "filter.php" →
    field (field call "params") "c" = JStr category →
    30 < String.length category →
    RuleViolation call
| LookupNotNumeric :
    field call "endpoint" = JStr "lookup.php" →
    matches_digits (ToString (field (field call "params") "i")) = false →
    RuleViolation call.

(** ** Batch executor *)

(** An operation: an object whose [params] is an object. *)
Definition isOperation (call : JsVal) : bool :=
  match call with
  | JObj _ => match field call "params" with JObj _ => true | _ => false end
  | _ => false
  end.

(** The request [executeCall] sends for an operation. *)
Definition request_of (call : JsVal) : Url :=
  match buildURL (field call "endpoint") (field call "params") with
  | Ok url => url
  | Throw _ => mkUrl "" []
  end.

(** What [processResponse] makes of the data received for a call. *)
Definition upstream_result (data endpoint : JsVal) : BatchResult :=
  match processResponse data endpoint with
  | Ok result => result
  | Throw _ => EmptyResponse ""
  end.

(** The entry expected for an operation, given the answer of the HTTP
    client to its request. *)
Definition settled (call : JsVal) (answer : Result JsVal) : BatchResult :=
  match answer with
  | Ok data => upstream_result data (field call "endpoint")
  | Throw failure =>
      ErrorResult (determineErrorMessage failure) (field call "endpoint")
        (field call "params")
  end.

(** The world after some requests were sent, and after a prompt was. *)
Definition sent (urls : list Url) (w : World) : World :=
  mkWorld (sessions w) (prompts_sent w) (requests_sent w ++ urls)
    (uuids_drawn w) (clock_reads w).

Definition prompted (prompt : string) (w : World) : World :=
  mkWorld (sessions w) (prompts_sent w ++ [prompt]) (requests_sent w)
    (uuids_drawn w) (clock_reads w).

(** ** Session store *)

(** The last [k] elements of a list. *)
Definition last_n {A} (k : nat) (l : list A) : list A := drop (length l - k) l.

(** A history without its timestamps. *)
Definition transcript (h : list Message) : list (string * JsVal) :=
  map (fun m => (role m, content m)) h.

(** A turn is a user message and the assistant's answer. *)
Definition turn_messages (turn : JsVal * JsVal) : list (string * JsVal) :=
  [("user"%string, turn.1); ("assistant"%string, turn.2)].

Fixpoint appendTurns (cfg : Config) (out : Outside) (sessionId : string)
    (turns : list (JsVal * JsVal)) : M unit :=
  match turns with
  | [] => mret tt
  | (userMessage, assistantResponse) :: rest =>
      addMessage cfg out sessionId userMessage assistantResponse;;
      appendTurns cfg out sessionId rest
  end.

Definition maxTurns (cfg : Config) : nat := Z.to_nat (maxConversationLength cfg).

(** Every stored history fits the window. *)
Definition bounded (cfg : Config) (w : World) : Prop :=
  ∀ sessionId session,
    sessions w !! sessionId = Some session →
    length (history session) ≤ 2 * maxTurns cfg.

(** The calls a client of the session manager can make. *)
Inductive ManagerCall : Type :=
| CallGetSession (sessionId : option string)
| CallAddMessage (sessionId : string) (userMessage assistantResponse : JsVal)
| CallCleanup
| CallStoreMealData (session : Session) (allMealData : list BatchResult).

Definition runCall (cfg : Config) (out : Outside) (call : ManagerCall) : M unit :=
  match call with
  | CallGetSession sessionId => getSession out sessionId;; mret tt
  | CallAddMessage sessionId userMessage assistantResponse =>
      addMessage cfg out sessionId userMessage assistantResponse
  | CallCleanup => cleanupExpiredSessions cfg out
  | CallStoreMealData session allMealData => storeMealData session allMealData
  end.

Fixpoint runCalls (cfg : Config) (out : Outside) (calls : list ManagerCall) (w : World)
  : World :=
  match calls with
  | [] => w
  | call :: rest => runCalls cfg out rest (runCall cfg out call w).2
  end.

(** The session an identifier names, if any: an empty identifier counts
    as none given. *)
Definition named_session (sessionId : option string) (w : World) : option Session :=
  match sessionId with
  | Some sid => if (sid =? "")%string then None else sessions w !! sid
  | None => None
  end.

(** ** Fallback selection and refinement *)

(** A record of a result: an object. *)
Definition isRecord (meal : JsVal) : bool :=
  match meal with JObj _ => true | _ => false end.

(** The records of a list of results, in order. *)
Definition records (results : list BatchResult) : list JsVal :=
  flat_map (fun result => default [] (result_meals result)) results.

(** The fallback selection: a lookup of each of the first three
    records. *)
Definition first_three (results : list BatchResult) : list JsVal :=
  map (fun meal => lookupCall (field meal "idMeal")) (take 3 (records results)).

(** A generated text the selection step can use: JSON with an
    [api_calls] array. *)
Definition usable (out : Outside) (response : string) : bool :=
  match JSON_parse out response with
  | Some parsed =>
      match get parsed "api_calls" with
      | Ok (JArr _) => true
      | _ => false
      end
  | None => false
  end.

(** A result is lookup-style when its first record carries the
    instructions field, filter-style when its first record lacks it. *)
Definition lookupStyle (result : BatchResult) : Prop :=
  ∃ first rest, result_meals result = Some (first :: rest) ∧
                truthy (field first "strInstructions") = true.

Definition filterStyleResult (result : BatchResult) : Prop :=
  ∃ first rest, result_meals result = Some (first :: rest) ∧
                truthy (field first "strInstructions") = false.

Definition noRecords (result : BatchResult) : Prop :=
  result_meals result = None ∨ result_meals result = Some [].

(** ** Error boundary *)

(** The kinds of failure told apart by the error text. *)
Inductive ErrorCategory : Type :=
| ValidationLike
| UnavailabilityLike
| TimeoutLike
| GenericFailure.

Definition classify (text : string) : ErrorCategory :=
  if includes text "validation" then ValidationLike
  else if includes text "unavailable" then UnavailabilityLike
  else if includes text "timeout" then TimeoutLike
  else GenericFailure.

Definition apology (category : ErrorCategory) : string :=
  match category with
  | ValidationLike =>
      "I'm sorry, but there seems to be an issue with your request. Could you please rephrase it or try asking about a specific dish or ingredient?"
  | UnavailabilityLike =>
      "I'm experiencing some technical difficulties connecting to the recipe database. Please try again in a few moments."
  | TimeoutLike =>
      "The request is taking longer than expected. Please try asking about something more specific."
  | GenericFailure =>
      "I'm sorry, I encountered an error while processing your request. Could you please try again or ask about something else?"
  end.

(** ** Requests and generation calls of a run *)

(** A request that goes to one of the allowed endpoints. *)
Definition allowed_request (url : Url) : Prop := In (url_endpoint url) ALLOWED_ENDPOINTS.

(** The largest batch the validator accepts. *)
Definition most (cfg : Config) : nat := Z.to_nat (MAX_API_CALLS cfg).

(** A computation that, whatever it returns, sends at most [n] prompts to
    the generation backend and at most [k] requests to MealDB, all of them
    to allowed endpoints, and changes no earlier entry of either log. *)
Definition Sends {A} (n k : nat) (m : M A) : Prop :=
  ∀ w, ∃ prompts urls,
    prompts_sent (m w).2 = prompts_sent w ++ prompts ∧
    requests_sent (m w).2 = requests_sent w ++ urls ∧
    length prompts ≤ n ∧ length urls ≤ k ∧ Forall allowed_request urls.

(** ** The session store across a run *)

(** [m] leaves every world in relation [R] with the world it started
    from, whatever it returns. *)
Definition Respects {A} (R : World → World → Prop) (m : M A) : Prop :=
  ∀ w, R w (m w).2.

(** The store is the same. *)
Definition same_store (w w' : World) : Prop := sessions w' = sessions w.

(** The store differs at most in the session [sid], which keeps its
    identifier and its history. *)
Definition Keeps (sid : string) (w w' : World) : Prop :=
  (∀ k, k ≠ sid → sessions w' !! k = sessions w !! k) ∧
  (∀ s, sessions w !! sid = Some s →
     ∃ s', sessions w' !! sid = Some s' ∧ id s' = id s ∧ history s' = history s).

(** Every session is stored under its own identifier. *)
Definition keyed (w : World) : Prop :=
  ∀ k s, sessions w !! k = Some s → id s = k.

(** The identifier [getSession] gives the session of a request. *)
Definition session_key (out : Outside) (sessionId : option string) (w : World) : string :=
  match sessionId with
  | Some sid => if (sid =? "")%string then uuidv4 out (uuids_drawn w) else sid
  | None => uuidv4 out (uuids_drawn w)
  end.

(** A step that preserves a property of the world. *)
Definition preserves (Inv : World → Prop) (w w' : World) : Prop := Inv w → Inv w'.

(** A step that keeps every session under its identifier. *)
Definition keeps_keyed (w w' : World) : Prop := keyed w → keyed w'.

(** A call whose [params] is missing or [null]. *)
Definition no_params (call : JsVal) : bool :=
  match field call "params" with
  | JNull | JUndefined => true
  | _ => false
  end.

(** The characters of a string. *)
Definition chars (s : string) : list Ascii.ascii := String.list_ascii_of_string s.

(** [<] or [>] *)
Definition angle_bracket (c : Ascii.ascii) : bool :=
  (Ascii.nat_of_ascii c =? 60)%nat || (Ascii.nat_of_ascii c =? 62)%nat.

(** * Example scenarios

    Concrete collaborators, operations and records on which the theorems
    below are instantiated. *)

(** An operation as the generation backend is asked to write it. *)
Definition operation (endpoint : string) (params : list (string * JsVal)) : JsVal :=
  JObj [("endpoint"%string, JStr endpoint); ("params"%string, JObj params)].

(** A record of [filter.php]: identifier, name and thumbnail only. *)
Definition summary (idMeal : string) : JsVal :=
  JObj [("idMeal"%string, JStr idMeal);
        ("strMeal"%string, JStr ("Meal " ++ idMeal)%string);
        ("strMealThumb"%string, JStr "thumb.jpg")].

(** A record of [lookup.php], with instructions and a first ingredient. *)
Definition detail (idMeal : string) (ingredient : JsVal) : JsVal :=
  JObj [("idMeal"%string, JStr idMeal);
        ("strMeal"%string, JStr ("Meal " ++ idMeal)%string);
        ("strInstructions"%string, JStr "Cook slowly.");
        ("strIngredient1"%string, ingredient)].

Definition beef_filter_text : string :=
  with_quotes "{@api_calls@:[{@endpoint@:@filter.php@,@params@:{@c@:@Beef@}}]}".

(** [JSON.parse] on the three texts of the scenarios; every other text
    is taken not to be JSON. *)
Definition example_parse (text : string) : option JsVal :=
  if (text =? "null")%string then Some JNull
  else if (text =? beef_filter_text)%string
  then Some (JObj [("api_calls"%string, JArr [operation "filter.php" [("c"%string, JStr "Beef")]])])
  else None.

Definition five_summaries : list JsVal :=
  [summary "1"; summary "2"; summary "3"; summary "4"; summary "5"].

(** The generation backend answers the analysis with a category filter,
    times out on the selection and writes a text afterwards; MealDB
    answers the filter with five summaries, the first lookup with a
    detail record, fails on the second, and answers the third with a
    record whose first ingredient is a number. *)
Definition example_outside : Outside :=
  mkOutside
    (fun k _ =>
       match k with
       | 0 => Ok beef_filter_text
       | 1 => Throw (Error "Request timeout")
       | _ => Ok "Here are three beef recipes."%string
       end)
    (fun k _ =>
       match k with
       | 0 => Ok (JObj [("meals"%string, JArr five_summaries)])
       | 1 => Ok (JObj [("meals"%string, JArr [detail "1" (JStr " salt ")])])
       | 2 => Throw (mkError "AxiosError" "getaddrinfo ENOTFOUND" (Some "ENOTFOUND"%string) None)
       | _ => Ok (JObj [("meals"%string, JArr [detail "3" (JNum "5")])])
       end)
    (fun k => ("uuid-" ++ pretty k)%string)
    (fun k => (Z.of_nat k * 10)%Z)
    example_parse.

(** The same collaborators, with a generation backend that answers
    [null] first. *)
Definition null_outside : Outside :=
  mkOutside
    (fun k _ => match k with 0 => Ok "null"%string | _ => Ok "text"%string end)
    (axios_get example_outside) (uuidv4 example_outside) (Date_now example_outside)
    example_parse.

(** A configuration that keeps two turns. *)
Definition small_config : Config := mkConfig None (Some 2%Z) None.

Definition example_batch : list JsVal :=
  [operation "search.php" [("s"%string, JStr "chicken")];
   operation "filter.php" [("c"%string, JStr "seafood")];
   operation "lookup.php" [("i"%string, JStr "52772")]].

Definition three_turns : list (JsVal * JsVal) :=
  [(JStr "first", JStr "one"); (JStr "second", JStr "two"); (JStr "third", JStr "three")].

Definition filter_results : list BatchResult :=
  [ErrorResult "Recipe service is currently unavailable" (JStr "search.php")
     (JObj [("s"%string, JStr "beef")]);
   ValidResponse five_summaries].

Definition lookup_results : list BatchResult :=
  [ValidResponse [detail "1" (JStr " salt ")]; EmptyResponse "No meals found"].

Definition unicorn_filter : list (string * JsVal) := [("i"%string, JStr "unicorn")].

Definition seafood_filter : list (string * JsVal) := [("c"%string, JStr "seafood")].

Definition example_run : Result Outcome * World :=
  processRequest default_config example_outside "beef please" None initial_world.

Definition null_run : Result Outcome * World :=
  processRequest default_config null_outside "beef please" None initial_world.

(** MealDB answers every lookup with a detail record, so that a request
    runs to its end. *)
Definition good_outside : Outside :=
  mkOutside (bedrock example_outside)
    (fun k _ =>
       match k with
       | 0 => Ok (JObj [("meals"%string, JArr five_summaries)])
       | _ => Ok (JObj [("meals"%string, JArr [detail "1" (JStr " salt ")])])
       end)
    (uuidv4 example_outside) (Date_now example_outside) example_parse.

Definition good_run : Result Outcome * World :=
  processRequest default_config good_outside "beef please" None initial_world.

(** A generation backend that answers every prompt with a greeting. *)
Definition greeting_outside : Outside :=
  mkOutside (fun _ _ => Ok "Hello! I'm ChefSue."%string)
    (axios_get example_outside) (uuidv4 example_outside) (Date_now example_outside)
    example_parse.

(** A generation backend that fails on every prompt. *)
Definition failing_outside : Outside :=
  mkOutside (fun _ _ => Throw (Error "Request timeout"))
    (axios_get example_outside) (uuidv4 example_outside) (Date_now example_outside)
    example_parse.

(** A clock that advances by 2000 seconds at each reading. *)
Definition slow_outside : Outside :=
  mkOutside (bedrock example_outside) (axios_get example_outside)
    (uuidv4 example_outside) (fun k => (Z.of_nat k * 2000000)%Z) example_parse.

(** The world after a session was created under [abcdefgh], by either
    clock. *)
Definition one_session (out : Outside) : World :=
  (getSession out (Some "abcdefgh"%string) initial_world).2.

Definition example_synthesis_prompt : string :=
  match createSynthesisPrompt "beef please" lookup_results [] with
  | Ok prompt => prompt
  | Throw _ => "beef please"%string
  end.

(** A call without [params]. *)
Definition bare_call : JsVal := JObj [("endpoint"%string, JStr "search.php")].

(** * Theorems *)

(** ** The validator *)

Section ValidatorFacts.

Local Open Scope string_scope.

Lemma validateApiCallStructure_eq call :
  validateApiCallStructure call =
  if is_object call then Ok tt
  else Throw (ValidationError "API call must be an object" (Some "INVALID_API_CALL")).
Proof.
  unfold validateApiCallStructure.
  destruct call as [| |[]|r|s|l|props]; try reflexivity.
  - cbn. by rewrite orb_true_r.
  - cbn. by rewrite orb_true_r.
Qed.

Lemma validateParams_eq params :
  validateParams params =
  if is_object params then Ok tt
  else Throw (ValidationError "Params are required and must be an object"
                (Some "INVALID_PARAMS")).
Proof.
  unfold validateParams.
  destruct params as [| |[]|r|s|l|props]; try reflexivity.
  - cbn. by rewrite orb_true_r.
  - cbn. by rewrite orb_true_r.
Qed.

Lemma get_object v k : is_object v = true → get v k = Ok (field v k).
Proof. unfold field. by destruct v. Qed.

Lemma includes_str_allowed endpoint :
  includes_str ALLOWED_ENDPOINTS endpoint = true ↔
  endpoint = JStr "search.php" ∨ endpoint = JStr "filter.php" ∨ endpoint = JStr "lookup.php".
Proof.
  split.
  - destruct endpoint; try discriminate. cbn.
    rewrite !orb_true_iff, !String.eqb_eq. intuition congruence.
  - intros [-> | [-> | ->]]; reflexivity.
Qed.

Lemma validateEndpoint_ok endpoint :
  is_ok (validateEndpoint endpoint) = includes_str ALLOWED_ENDPOINTS endpoint.
Proof.
  unfold validateEndpoint.
  destruct endpoint as [| |[]|r|s|l|props]; try reflexivity.
  - cbn. by rewrite orb_true_r.
  - destruct (decide (s = "")) as [->|Hs]; [reflexivity|].
    assert (truthy (JStr s) = true) as ->.
    { cbn. by apply negb_true_iff, String.eqb_neq. }
    cbn [negb typeof orb]. change ("string" =? "string") with true. cbn [negb].
    by destruct (includes_str _ _).
Qed.

Lemma is_zero_number n : is_zero (js_number n) = bool_decide (n = 0).
Proof.
  unfold is_zero, js_number. case_bool_decide as Hn.
  - by subst.
  - apply String.eqb_neq. intros E. apply Hn.
    change "0" with (pretty 0) in E. by apply (inj pretty) in E.
Qed.

Lemma string_nonempty_length s : s ≠ "" ↔ String.length s ≠ 0.
Proof. destruct s; cbn; split; congruence. Qed.

Lemma truthy_get v k : truthy v = true → ∃ x, get v k = Ok x.
Proof. destruct v; cbn; try discriminate; eauto. Qed.

Lemma truthy_JStr t : truthy (JStr t) = negb (bool_decide (t = "")).
Proof.
  cbn. case_bool_decide as H.
  - by subst.
  - by apply negb_true_iff, String.eqb_neq.
Qed.

Lemma validateParamBasics_nonstring name v rule :
  rule_required rule = true → rule_type rule = "string" →
  (∀ t, v ≠ JStr t) →
  is_ok (validateParamBasics name v rule) = false.
Proof.
  intros Hreq Htype Hv. unfold validateParamBasics. rewrite Hreq, Htype.
  assert ((typeof v =? "string") = false) as ->.
  { destruct v as [| |b|r|s|l|props]; try reflexivity. by destruct (Hv s). }
  destruct (truthy v) eqn:Ht; [|done].
  destruct (truthy_get v "length" Ht) as [x ->]. cbn.
  by destruct (is_zero x).
Qed.

Lemma validateParamBasics_string name t rule :
  rule_required rule = true → rule_type rule = "string" → rule_maxLength rule ≠ 0 →
  validateParamBasics name (JStr t) rule =
  if bool_decide (t = "") then
    Throw (ValidationError ("Parameter " ++ quoted name ++ " is required")
             (Some "MISSING_REQUIRED_PARAM"))
  else if bool_decide (String.length t ≤ rule_maxLength rule)%nat then Ok tt
  else Throw (ValidationError
                ("Parameter " ++ quoted name ++ " too long. Maximum "
                 ++ pretty (rule_maxLength rule) ++ " characters")
                (Some "PARAM_TOO_LONG")).
Proof.
  intros Hreq Htype Hmax. unfold validateParamBasics. rewrite Hreq, Htype.
  rewrite truthy_JStr.
  case_bool_decide as Ht; [reflexivity|].
  change (get (JStr t) "length") with (Ok (js_number (String.length t))).
  cbn -[String.length Nat.ltb js_number is_zero]. rewrite is_zero_number.
  rewrite bool_decide_eq_false_2 by by apply string_nonempty_length.
  destruct (rule_maxLength rule =? 0)%nat eqn:E0; [by apply Nat.eqb_eq in E0|].
  cbn -[String.length Nat.ltb].
  case_bool_decide as Hlen.
  - by rewrite (proj2 (Nat.ltb_ge _ _)) by lia.
  - by rewrite (proj2 (Nat.ltb_lt _ _)) by lia.
Qed.

Lemma validateParam_nonstring name v :
  (∀ t, v ≠ JStr t) → is_ok (validateParam name v) = false.
Proof.
  intros Hv. unfold validateParam.
  destruct (PARAM_RULES name) as [rule|] eqn:Hrule; [|reflexivity].
  assert (rule_required rule = true ∧ rule_type rule = "string") as [Hreq Htype].
  { unfold PARAM_RULES in Hrule.
    repeat (destruct (_ =? _) in Hrule; [by injection Hrule as <-|]). discriminate. }
  pose proof (validateParamBasics_nonstring name v rule Hreq Htype Hv) as Hb.
  by destruct (validateParamBasics name v rule).
Qed.

Lemma validateParam_s t :
  is_ok (validateParam "s" (JStr t)) = true ↔ t ≠ "" ∧ (String.length t ≤ 100)%nat.
Proof.
  unfold validateParam. change (PARAM_RULES "s") with (Some (mkRule "string" 100 true None)).
  cbv beta iota. rewrite validateParamBasics_string by done.
  cbn [rule_maxLength]. repeat case_bool_decide; cbn; intuition congruence.
Qed.

Lemma validateParam_i t :
  is_ok (validateParam "i" (JStr t)) = true ↔ t ≠ "" ∧ (String.length t ≤ 50)%nat.
Proof.
  unfold validateParam.
  change (PARAM_RULES "i")
    with (Some (mkRule "string" 50 true (Some (map toLowerCase COMMON_INGREDIENTS)))).
  cbv beta iota. rewrite validateParamBasics_string by done.
  cbn [rule_maxLength]. repeat case_bool_decide; cbn; intuition congruence.
Qed.

Lemma existsb_eqb_In (x : string) (l : list string) :
  existsb (String.eqb x) l = true ↔ In x l.
Proof.
  rewrite existsb_exists. split.
  - intros (y & Hy & E). by apply String.eqb_eq in E as ->.
  - intros H. exists x. split; [done|]. apply String.eqb_refl.
Qed.

Lemma validateParam_c t :
  is_ok (validateParam "c" (JStr t)) = true ↔
  t ≠ "" ∧ (String.length t ≤ 30)%nat ∧ In (toLowerCase t) (map toLowerCase MEALDB_CATEGORIES).
Proof.
  unfold validateParam.
  change (PARAM_RULES "c")
    with (Some (mkRule "string" 30 true (Some (map toLowerCase MEALDB_CATEGORIES)))).
  cbv beta iota. rewrite validateParamBasics_string by done.
  cbn [rule_maxLength].
  case_bool_decide as Ht; [cbn; intuition congruence|].
  case_bool_decide as Hl; [|cbn; intuition congruence].
  change (Ok () ≫= ?f) with (f tt). cbv beta.
  unfold validateParamEnum. cbn [rule_enum].
  change (negb ("c" =? "i")) with true. cbv iota.
  destruct (existsb _ _) eqn:E.
  - apply existsb_eqb_In in E. cbn. intuition.
  - cbn [negb]. cbv iota. cbn [is_ok]. split; [discriminate|].
    intros (_ & _ & Hin). apply existsb_eqb_In in Hin. congruence.
Qed.

Lemma bind_is_ok {A B} (m : Result A) (f : A → Result B) :
  is_ok (m ≫= f) = true ↔ ∃ a, m = Ok a ∧ is_ok (f a) = true.
Proof.
  destruct m as [a|e]; cbn.
  - split; [eauto|]. by intros (? & [= <-] & ?).
  - split; [discriminate|]. by intros (? & ? & ?).
Qed.

Lemma is_ok_unit (r : Result unit) : is_ok r = true ↔ r = Ok tt.
Proof. destruct r as [[]|]; cbn; split; congruence. Qed.

Lemma validateParam_is_string name v :
  is_ok (validateParam name v) = true → ∃ t, v = JStr t.
Proof.
  intros H. destruct v as [| |b|r|t|l|props]; eauto.
  all: by rewrite validateParam_nonstring in H.
Qed.

Lemma validateSearchParams_ok params :
  is_object params = true →
  is_ok (validateSearchParams params) = true ↔
  ∃ t, field params "s" = JStr t ∧ t ≠ "" ∧ (String.length t ≤ 100)%nat.
Proof.
  intros Hobj. unfold validateSearchParams. rewrite (get_object _ _ Hobj).
  change (Ok ?x ≫= ?f) with (f x). cbv beta.
  destruct (truthy (field params "s")) eqn:Ht; cbn [negb]; cbv iota.
  - split.
    + intros H. destruct (validateParam_is_string _ _ H) as [t Hs].
      rewrite Hs in H. apply validateParam_s in H. eauto.
    + intros (t & -> & H). by apply validateParam_s.
  - cbn. split; [discriminate|]. intros (t & Hs & Hne & _).
    rewrite Hs, truthy_JStr, bool_decide_eq_false_2 in Ht; done.
Qed.

Lemma validateFilterParams_ok params :
  is_object params = true →
  let i := field params "i" in
  let c := field params "c" in
  is_ok (validateFilterParams params) = true ↔
  xorb (truthy i) (truthy c) = true ∧
  (truthy i = true → ∃ v, i = JStr v ∧ (String.length v ≤ 50)%nat) ∧
  (truthy c = true →
     ∃ v, c = JStr v ∧ (String.length v ≤ 30)%nat ∧
          In (toLowerCase v) (map toLowerCase MEALDB_CATEGORIES)).
Proof.
  intros Hobj i c. unfold validateFilterParams.
  rewrite !(get_object _ _ Hobj). fold i c.
  change (Ok ?x ≫= ?f) with (f x). cbv beta.
  change (Ok ?x ≫= ?f) with (f x). cbv beta.
  unfold validateFilterParamPresence, validateFilterParamValues.
  rewrite !(get_object _ _ Hobj). fold i c.
  destruct (truthy i) eqn:Hi, (truthy c) eqn:Hc; cbn [negb andb xorb]; cbv iota.
  - cbn. split; [discriminate|]. by intros [? _].
  - change (Ok ?x ≫= ?f) with (f x). cbv beta.
    change (Ok ?x ≫= ?f) with (f x). cbv beta.
    split.
    + intros H. apply bind_is_ok in H as ([] & H & _).
      assert (is_ok (validateParam "i" i) = true) as Hok by by rewrite H.
      destruct (validateParam_is_string _ _ Hok) as [v Hv].
      rewrite Hv in Hok. apply validateParam_i in Hok as [_ Hlen].
      split; [done|]. split; [eauto | discriminate].
    + intros (_ & H & _). destruct (H eq_refl) as (v & Hv & Hlen).
      assert (is_ok (validateParam "i" i) = true) as Hok.
      { rewrite Hv. apply validateParam_i. split; [|done].
        intros ->. by rewrite Hv in Hi. }
      apply is_ok_unit in Hok. by rewrite Hok.
  - change (Ok ?x ≫= ?f) with (f x). cbv beta.
    change (Ok ?x ≫= ?f) with (f x). cbv beta.
    change (Ok ?x ≫= ?f) with (f x). cbv beta.
    split.
    + intros Hok.
      destruct (validateParam_is_string _ _ Hok) as [v Hv].
      rewrite Hv in Hok. apply validateParam_c in Hok as (_ & Hlen & Hin).
      split; [done|]. split; [discriminate | eauto].
    + intros (_ & _ & H). destruct (H eq_refl) as (v & Hv & Hlen & Hin).
      rewrite Hv. apply validateParam_c. split; [|done].
      intros ->. by rewrite Hv in Hc.
  - cbn. split; [discriminate|]. by intros [? _].
Qed.

Lemma validateLookupParams_ok params :
  is_object params = true →
  is_ok (validateLookupParams params) = true ↔
  truthy (field params "i") = true ∧ matches_digits (ToString (field params "i")) = true.
Proof.
  intros Hobj. unfold validateLookupParams. rewrite (get_object _ _ Hobj).
  change (Ok ?x ≫= ?f) with (f x). cbv beta.
  destruct (truthy _); cbn [negb]; cbv iota; [|cbn; intuition congruence].
  destruct (matches_digits _); cbn; intuition congruence.
Qed.

(** What a call must satisfy for [validateApiCall] to accept it. *)
Lemma validateApiCall_ok call :
  is_ok (validateApiCall call) = true ↔
  is_object call = true ∧ is_object (field call "params") = true ∧
  ( (field call "endpoint" = JStr "search.php" ∧
     is_ok (validateSearchParams (field call "params")) = true) ∨
    (field call "endpoint" = JStr "filter.php" ∧
     is_ok (validateFilterParams (field call "params")) = true) ∨
    (field call "endpoint" = JStr "lookup.php" ∧
     is_ok (validateLookupParams (field call "params")) = true) ).
Proof.
  unfold validateApiCall. rewrite validateApiCallStructure_eq.
  destruct (is_object call) eqn:Hobj; [|cbn; intuition congruence].
  change (Ok ?x ≫= ?f) with (f x). cbv beta.
  rewrite !(get_object _ _ Hobj).
  change (Ok ?x ≫= ?f) with (f x). cbv beta.
  change (Ok ?x ≫= ?f) with (f x). cbv beta.
  set (endpoint := field call "endpoint"). set (params := field call "params").
  rewrite bind_is_ok. split.
  - intros ([] & He & H).
    assert (includes_str ALLOWED_ENDPOINTS endpoint = true) as Hin.
    { rewrite <- validateEndpoint_ok. by rewrite He. }
    rewrite validateParams_eq in H.
    destruct (is_object params) eqn:Hp; [|discriminate].
    change (Ok ?x ≫= ?f) with (f x) in H. cbv beta in H.
    apply bind_is_ok in H as ([] & H & _).
    apply is_ok_unit in H.
    split; [done|]. split; [done|].
    apply includes_str_allowed in Hin as [E | [E | E]]; rewrite E in H |- *;
      cbn in H; eauto.
  - intros (_ & Hp & H).
    assert (includes_str ALLOWED_ENDPOINTS endpoint = true) as Hin.
    { apply includes_str_allowed. destruct H as [[E _] | [[E _] | [E _]]]; auto. }
    rewrite <- validateEndpoint_ok in Hin. apply is_ok_unit in Hin.
    exists tt. split; [done|]. rewrite validateParams_eq, Hp.
    change (Ok ?x ≫= ?f) with (f x). cbv beta.
    destruct H as [[E H] | [[E H] | [E H]]]; rewrite E; cbn;
      apply is_ok_unit in H; by rewrite H.
Qed.

Lemma validateApiCall_true call :
  is_ok (validateApiCall call) = true → validateApiCall call = Ok true.
Proof.
  unfold validateApiCall.
  destruct (validateApiCallStructure call) as [?|?]; [|discriminate].
  change (Ok ?x ≫= ?f) with (f x). cbv beta.
  destruct (get call "endpoint") as [endpoint|?]; [|discriminate].
  change (Ok ?x ≫= ?f) with (f x). cbv beta.
  destruct (get call "params") as [params|?]; [|discriminate].
  change (Ok ?x ≫= ?f) with (f x). cbv beta.
  destruct (validateEndpoint endpoint) as [?|?]; [|discriminate].
  change (Ok ?x ≫= ?f) with (f x). cbv beta.
  destruct (validateParams params) as [?|?]; [|discriminate].
  change (Ok ?x ≫= ?f) with (f x). cbv beta.
  destruct (validateEndpointSpecificParams endpoint params) as [?|?]; [|discriminate].
  done.
Qed.

Lemma validateEach_ok calls index :
  is_ok (validateEach index calls) = forallb (fun call => is_ok (validateApiCall call)) calls.
Proof.
  revert index. induction calls as [|call calls IH]; intros index; [reflexivity|].
  cbn [validateEach forallb]. destruct (validateApiCall call); cbn; [apply IH | reflexivity].
Qed.

Lemma validateEach_throw calls index e :
  validateEach index calls = Throw e →
  err_name e = "ValidationError" ∧ is_Some (err_code e).
Proof.
  revert index. induction calls as [|call calls IH]; intros index; [discriminate|].
  cbn [validateEach]. destruct (validateApiCall call); [apply IH|].
  intros [= <-]. cbn. eauto.
Qed.

(** Every rejection by [validateApiCalls] is a [ValidationError] with a
    reason code. *)
Lemma validateApiCalls_throw cfg apiCalls e :
  validateApiCalls cfg apiCalls = Throw e →
  err_name e = "ValidationError" ∧ is_Some (err_code e).
Proof.
  unfold validateApiCalls. destruct apiCalls as [| |b|r|s|calls|props];
    try (intros [= <-]; cbn; eauto).
  destruct (length calls =? 0)%nat; [intros [= <-]; cbn; eauto|].
  destruct (_ <? _)%Z; [intros [= <-]; cbn; eauto|].
  destruct (validateEach 0 calls) eqn:E; [discriminate|].
  intros [= <-]. by apply validateEach_throw in E.
Qed.

Lemma forallb_Forall_true {A} (f : A → bool) (l : list A) :
  forallb f l = true ↔ Forall (fun x => f x = true) l.
Proof.
  induction l as [|x l IH]; cbn.
  - split; [constructor | done].
  - rewrite andb_true_iff, IH, Forall_cons. done.
Qed.

Lemma validateApiCalls_ok cfg calls :
  validateApiCalls cfg (JArr calls) = Ok true ↔
  calls ≠ [] ∧ (Z.of_nat (length calls) ≤ MAX_API_CALLS cfg)%Z ∧
  Forall (fun call => is_ok (validateApiCall call) = true) calls.
Proof.
  unfold validateApiCalls.
  destruct calls as [|call calls]; [cbn; intuition congruence|].
  change (length (call :: calls) =? 0)%nat with false. cbv iota.
  destruct (_ <? _)%Z eqn:Hmax.
  - apply Z.ltb_lt in Hmax. split; [discriminate|]. intros (_ & ? & _). lia.
  - apply Z.ltb_ge in Hmax.
    pose proof (validateEach_ok (call :: calls) 0) as Hall.
    rewrite <- forallb_Forall_true, <- Hall.
    destruct (validateEach 0 (call :: calls)) as [[]|]; cbn; intuition congruence.
Qed.

Lemma truthy_digits identifier :
  matches_digits identifier = true → truthy (JStr identifier) = true.
Proof. by destruct identifier. Qed.

Lemma ValidOperation_accepted call :
  ValidOperation call → is_ok (validateApiCall call) = true.
Proof.
  intros H. apply validateApiCall_ok.
  destruct H as [text Ho Hp He Hs Hne Hlen
                | ingredient Ho Hp He Hi Hc Hne Hlen Hin
                | category Ho Hp He Hc Hi Hne Hlen Hin
                | identifier Ho Hp He Hi Hd].
  - split; [done|]. split; [done|]. left. split; [done|].
    apply validateSearchParams_ok; eauto.
  - split; [done|]. split; [done|]. right; left. split; [done|].
    apply validateFilterParams_ok; [done|].
    assert (truthy (field (field call "params") "i") = true) as Ht.
    { rewrite Hi, truthy_JStr. by rewrite bool_decide_eq_false_2. }
    rewrite Ht, Hc. split; [done|]. split; [eauto | discriminate].
  - split; [done|]. split; [done|]. right; left. split; [done|].
    apply validateFilterParams_ok; [done|].
    assert (truthy (field (field call "params") "c") = true) as Ht.
    { rewrite Hc, truthy_JStr. by rewrite bool_decide_eq_false_2. }
    rewrite Ht, Hi. split; [done|]. split; [discriminate | eauto].
  - split; [done|]. split; [done|]. right; right. split; [done|].
    apply validateLookupParams_ok; [done|]. rewrite Hi.
    split; [by apply truthy_digits | done].
Qed.

Lemma truthy_long_string text n :
  (n < String.length text)%nat → truthy (JStr text) = true.
Proof. destruct text; cbn; [lia | done]. Qed.

Lemma RuleViolation_rejected call :
  RuleViolation call → is_ok (validateApiCall call) = false.
Proof.
  intros H. apply not_true_is_false. intros Hok.
  apply validateApiCall_ok in Hok as (Ho & Hp & Hok).
  destruct H as [Hbad | He Hi Hc | He Hi Hc | text He Hs Hlen
                | ingredient He Hi Hlen | category He Hc Hlen | He Hd].
  - assert (includes_str ALLOWED_ENDPOINTS (field call "endpoint") = true); [|congruence].
    apply includes_str_allowed. destruct Hok as [[E _] | [[E _] | [E _]]]; auto.
  - destruct Hok as [[E _] | [[_ H] | [E _]]]; [congruence| |congruence].
    apply validateFilterParams_ok in H as [H _]; [|done].
    by rewrite Hi, Hc in H.
  - destruct Hok as [[E _] | [[_ H] | [E _]]]; [congruence| |congruence].
    apply validateFilterParams_ok in H as [H _]; [|done].
    by rewrite Hi, Hc in H.
  - destruct Hok as [[_ H] | [[E _] | [E _]]]; [|congruence|congruence].
    apply validateSearchParams_ok in H as (t & Ht & _ & Hle); [|done].
    rewrite Hs in Ht. injection Ht as <-. lia.
  - destruct Hok as [[E _] | [[_ H] | [E _]]]; [congruence| |congruence].
    apply validateFilterParams_ok in H as (_ & H & _); [|done].
    destruct H as (v & Hv & Hle).
    { rewrite Hi. by apply (truthy_long_string _ 50). }
    rewrite Hi in Hv. injection Hv as <-. lia.
  - destruct Hok as [[E _] | [[_ H] | [E _]]]; [congruence| |congruence].
    apply validateFilterParams_ok in H as (_ & _ & H); [|done].
    destruct H as (v & Hv & Hle & _).
    { rewrite Hc. by apply (truthy_long_string _ 30). }
    rewrite Hc in Hv. injection Hv as <-. lia.
  - destruct Hok as [[E _] | [[E _] | [_ H]]]; [congruence|congruence|].
    apply validateLookupParams_ok in H as [_ H]; [|done]. congruence.
Qed.

(** C3. Every batch that breaks a rule of the validator (it is empty,
    it is larger than the configured maximum, which is 5 by default, or
    one of its operations has a disallowed endpoint, both or neither of
    the filter parameters, a value over its length bound or a lookup
    identifier that is not numeric) is rejected with a [ValidationError]
    that carries a reason code; every batch whose size is within bounds
    and whose operations are all valid is accepted. *)
Theorem validateApiCalls_enforces_rules (cfg : Config) (calls : list JsVal) :
  MAX_API_CALLS default_config = 5%Z ∧
  ((calls = [] ∨ (MAX_API_CALLS cfg < Z.of_nat (length calls))%Z ∨ Exists RuleViolation calls) →
   ∃ e, validateApiCalls cfg (JArr calls) = Throw e ∧
        err_name e = "ValidationError" ∧ is_Some (err_code e)) ∧
  (calls ≠ [] → (Z.of_nat (length calls) ≤ MAX_API_CALLS cfg)%Z →
   Forall ValidOperation calls →
   validateApiCalls cfg (JArr calls) = Ok true).
Proof.
  split; [reflexivity|]. split.
  - intros Hbad.
    destruct (validateApiCalls cfg (JArr calls)) as [b|e] eqn:E.
    + exfalso. assert (b = true) as ->.
      { revert E. unfold validateApiCalls.
        repeat (destruct (_ : bool); [discriminate|]).
        destruct (validateEach 0 calls); [by intros [= <-] | discriminate]. }
      apply validateApiCalls_ok in E as (Hne & Hmax & Hall).
      destruct Hbad as [-> | [Hbig | Hviol]]; [done | lia |].
      apply Exists_exists in Hviol as (call & Hin & Hviol).
      rewrite Forall_forall in Hall. specialize (Hall call Hin).
      apply RuleViolation_rejected in Hviol. congruence.
    + exists e. split; [done|]. by apply validateApiCalls_throw in E.
  - intros Hne Hmax Hall. apply validateApiCalls_ok.
    split; [done|]. split; [done|].
    eapply Forall_impl; [exact Hall|]. apply ValidOperation_accepted.
Qed.



End ValidatorFacts.

(** ** The session manager *)

Section SessionFacts.

Variable cfg : Config.
Variable out : Outside.

Lemma last_n_length {A} k (l : list A) : length (last_n k l) = min k (length l).
Proof. unfold last_n. rewrite length_drop. lia. Qed.

Lemma last_n_all {A} k (l : list A) : length l ≤ k → last_n k l = l.
Proof. intros H. unfold last_n. by replace (length l - k) with 0 by lia. Qed.

Lemma last_n_app {A} k (l1 l2 : list A) :
  last_n k (last_n k l1 ++ l2) = last_n k (l1 ++ l2).
Proof.
  destruct (decide (length l1 ≤ k)) as [Hle|Hgt].
  - by rewrite (last_n_all k l1).
  - unfold last_n. rewrite !length_app, length_drop.
    rewrite !drop_app, drop_drop, length_drop.
    f_equal; f_equal; lia.
Qed.

Lemma last_n_map {A B} (f : A → B) k (l : list A) :
  last_n k (map f l) = map f (last_n k l).
Proof. unfold last_n. by rewrite length_map, <- (fmap_drop f). Qed.

Lemma last_n_flat_map {A B} (f : A → list B) c k (l : list A) :
  (∀ x, length (f x) = c) →
  last_n (c * k) (flat_map f l) = flat_map f (last_n k l).
Proof.
  intros Hc. unfold last_n.
  assert (∀ l, length (flat_map f l) = c * length l) as Hlen.
  { induction l0 as [|x l0 IH]; cbn; [lia|]. rewrite length_app, Hc, IH. lia. }
  rewrite Hlen, <- Nat.mul_sub_distr_l.
  generalize (length l - k) as n. clear Hlen. intros n. revert l.
  induction n as [|n IH]; intros l.
  - by rewrite Nat.mul_0_r.
  - destruct l as [|x l]; [cbn; by rewrite drop_nil|]. cbn [flat_map drop].
    replace (c * S n) with (length (f x) + c * n) by (rewrite Hc; lia).
    rewrite drop_app_add. apply IH.
Qed.

(** The history kept by [addMessage]. *)
Lemma window_last_n (pushed : list Message) :
  (0 < maxConversationLength cfg)%Z →
  (if (maxConversationLength cfg * 2 <? Z.of_nat (length pushed))%Z
   then slice_from (- maxConversationLength cfg * 2) pushed
   else pushed) = last_n (2 * maxTurns cfg) pushed.
Proof.
  intros Hpos. unfold maxTurns.
  destruct (_ <? _)%Z eqn:E.
  - apply Z.ltb_lt in E. unfold slice_from, last_n.
    rewrite (proj2 (Z.ltb_lt _ _)) by lia. f_equal. lia.
  - apply Z.ltb_ge in E. rewrite last_n_all; [done | lia].
Qed.

Lemma addMessage_known sessionId userMessage assistantResponse w session :
  sessions w !! sessionId = Some session →
  (0 < maxConversationLength cfg)%Z →
  ∃ kept t,
    addMessage cfg out sessionId userMessage assistantResponse w =
      (Ok tt, mkWorld
                (<[sessionId := mkSession (id session) kept (lastMealData session)
                                  (createdAt session) t]> (sessions w))
                (prompts_sent w) (requests_sent w) (uuids_drawn w)
                (S (S (S (clock_reads w))))) ∧
    transcript kept =
      last_n (2 * maxTurns cfg)
        (transcript (history session)
           ++ turn_messages (userMessage, assistantResponse)).
Proof.
  intros Hs Hpos. unfold addMessage, get_sessions.
  unfold mbind, M_bind. rewrite Hs. unfold now, modify_sessions, set_sessions.
  cbn -[slice_from Z.mul Z.ltb].
  eexists _, _. split; [reflexivity|].
  rewrite window_last_n by done. unfold transcript.
  rewrite <- last_n_map. f_equal. by rewrite !map_app.
Qed.

Lemma addMessage_unknown sessionId userMessage assistantResponse w :
  sessions w !! sessionId = None →
  addMessage cfg out sessionId userMessage assistantResponse w = (Ok tt, w).
Proof.
  intros Hs. unfold addMessage, get_sessions. unfold mbind, M_bind. by rewrite Hs.
Qed.

Lemma appendTurns_known sessionId turns w session :
  sessions w !! sessionId = Some session →
  (0 < maxConversationLength cfg)%Z →
  length (history session) ≤ 2 * maxTurns cfg →
  ∃ w' session',
    appendTurns cfg out sessionId turns w = (Ok tt, w') ∧
    sessions w' !! sessionId = Some session' ∧
    transcript (history session') =
      last_n (2 * maxTurns cfg)
        (transcript (history session) ++ flat_map turn_messages turns).
Proof.
  intros Hs Hpos. revert w session Hs.
  induction turns as [|[u a] turns IH]; intros w session Hs Hlen.
  - exists w, session. split; [done|]. split; [done|].
    rewrite app_nil_r, last_n_all; [done|]. unfold transcript. by rewrite length_map.
  - destruct (addMessage_known sessionId u a w session Hs Hpos) as (kept & t & Hadd & Hkept).
    cbn [appendTurns]. unfold mbind, M_bind. rewrite Hadd.
    match goal with |- context [appendTurns _ _ _ _ ?w1] => set (w1' := w1) end.
    destruct (IH w1' (mkSession (id session) kept (lastMealData session)
                        (createdAt session) t)) as (w' & session' & Hrun & Hs' & Htr).
    { apply lookup_insert_eq. }
    { cbn. apply (f_equal length) in Hkept.
      unfold transcript in Hkept at 1. rewrite length_map, last_n_length in Hkept. lia. }
    exists w', session'. split; [done|]. split; [done|].
    rewrite Htr. cbn [history]. rewrite Hkept.
    rewrite last_n_app. cbn [flat_map]. by rewrite <- app_assoc.
Qed.


Lemma last_n_app_r {A} k (l1 l2 : list A) :
  k ≤ length l2 → last_n k (l1 ++ l2) = last_n k l2.
Proof.
  intros H. unfold last_n. rewrite length_app, drop_app.
  replace (length l1 + length l2 - k - length l1) with (length l2 - k) by lia.
  rewrite drop_ge by lia. done.
Qed.

Lemma bounded_insert w sessionId session w' :
  bounded cfg w → length (history session) ≤ 2 * maxTurns cfg →
  sessions w' = <[sessionId := session]> (sessions w) →
  bounded cfg w'.
Proof.
  intros Hb Hlen Hw' sid s. rewrite Hw', lookup_insert.
  case_decide; [by intros [= <-] | apply Hb].
Qed.

Lemma createSession_eq id' w :
  ∃ session w',
    createSession out id' w = (Ok session, w') ∧
    history session = [] ∧ lastMealData session = None ∧
    id session = match id' with
                 | Some i => if (i =? "")%string then uuidv4 out (uuids_drawn w) else i
                 | None => uuidv4 out (uuids_drawn w)
                 end ∧
    sessions w' = <[id session := session]> (sessions w).
Proof.
  unfold createSession.
  destruct id' as [i|]; [destruct (i =? "")%string|];
    unfold mbind, M_bind; cbn; eexists _, _; (split; [reflexivity|]); done.
Qed.

Lemma getSession_known sid w existing :
  sid ≠ "" → sessions w !! sid = Some existing →
  ∃ t w',
    getSession out (Some sid) w =
      (Ok (mkSession (id existing) (history existing) (lastMealData existing)
             (createdAt existing) t), w') ∧
    sessions w' =
      <[sid := mkSession (id existing) (history existing) (lastMealData existing)
                 (createdAt existing) t]> (sessions w).
Proof.
  intros Hne Hs. unfold getSession.
  rewrite (proj2 (String.eqb_neq _ _) Hne).
  unfold mbind, M_bind, get_sessions. rewrite Hs. cbn.
  eexists _, _. split; reflexivity.
Qed.

Lemma getSession_new sessionId w :
  match sessionId with
  | Some sid => sid = "" ∨ sessions w !! sid = None
  | None => True
  end →
  getSession out sessionId w =
  createSession out (match sessionId with
                     | Some sid => if (sid =? "")%string then None else Some sid
                     | None => None
                     end) w.
Proof.
  unfold getSession. destruct sessionId as [sid|]; [|done].
  destruct (sid =? "")%string eqn:E; [done|].
  intros [-> | Hs]; [done|].
  unfold mbind, M_bind, get_sessions. by rewrite Hs.
Qed.

Lemma runCall_bounded call w :
  (0 < maxConversationLength cfg)%Z → bounded cfg w → bounded cfg (runCall cfg out call w).2.
Proof.
  intros Hpos Hb. destruct call as [sessionId|sessionId u a| |session data]; cbn [runCall].
  - assert (∃ session w', getSession out sessionId w = (Ok session, w') ∧
              ∃ key, length (history session) ≤ 2 * maxTurns cfg ∧
                     sessions w' = <[key := session]> (sessions w))
      as (session & w' & Hget & key & Hlen & Hw').
    { destruct sessionId as [sid|].
      - destruct (decide (sid = "")) as [->|Hne].
        + destruct (createSession_eq None w) as (s & w' & H & Hh & _ & _ & Hw').
          exists s, w'. split; [done|]. exists (id s). rewrite Hh. split; [cbn; lia | done].
        + destruct (sessions w !! sid) as [existing|] eqn:Hs.
          * destruct (getSession_known sid w existing Hne Hs) as (t & w' & H & Hw').
            eexists _, w'. split; [exact H|]. exists sid. split; [|done].
            cbn. by apply (Hb sid).
          * rewrite getSession_new by auto.
            destruct (createSession_eq (if (sid =? "")%string then None else Some sid) w)
              as (s & w' & H & Hh & _ & _ & Hw').
            exists s, w'. split; [done|]. exists (id s). rewrite Hh.
            split; [cbn; lia | done].
      - destruct (createSession_eq None w) as (s & w' & H & Hh & _ & _ & Hw').
        exists s, w'. split; [done|]. exists (id s). rewrite Hh. split; [cbn; lia | done]. }
    unfold mbind, M_bind. rewrite Hget. cbn. by eapply bounded_insert.
  - destruct (sessions w !! sessionId) as [session|] eqn:Hs.
    + destruct (addMessage_known sessionId u a w session Hs Hpos) as (kept & t & -> & Hk).
      cbn. eapply bounded_insert; [done| |reflexivity].
      cbn. apply (f_equal length) in Hk. unfold transcript in Hk at 1.
      rewrite length_map, last_n_length in Hk. lia.
    + by rewrite addMessage_unknown.
  - unfold cleanupExpiredSessions, mbind, M_bind, modify_sessions, set_sessions.
    cbn [now snd sessions]. intros sid s Hs. apply map_lookup_filter_Some in Hs as [Hs _]. by apply (Hb sid).
  - unfold storeMealData, modify_sessions, set_sessions. cbn [snd].
    intros sid s. cbn [sessions]. rewrite lookup_alter_Some.
    intros [(_ & s0 & Hs0 & ->) | [_ Hs]]; [|by apply (Hb sid)].
    cbn. by apply (Hb sid).
Qed.

Lemma runCalls_bounded calls w :
  (0 < maxConversationLength cfg)%Z → bounded cfg w → bounded cfg (runCalls cfg out calls w).
Proof.
  intros Hpos. revert w. induction calls as [|call calls IH]; intros w Hb; [done|].
  cbn. apply IH. by apply runCall_bounded.
Qed.

(** C5. With a positive [maxConversationLength], every history the
    session manager stores has at most twice that many messages, whatever
    calls were made on it; and appending turns to a session leaves the
    last [2 * maxConversationLength] messages of the old history followed
    by the new turns, in their order: once at least [maxConversationLength]
    turns were appended, exactly the most recent [maxConversationLength]
    of them. *)
Theorem history_is_a_sliding_window (calls : list ManagerCall) (sessionId : string)
    (turns : list (JsVal * JsVal)) :
  (0 < maxConversationLength cfg)%Z →
  let w := runCalls cfg out calls initial_world in
  bounded cfg w ∧
  ∀ session,
    sessions w !! sessionId = Some session →
    ∃ w' session',
      appendTurns cfg out sessionId turns w = (Ok tt, w') ∧
      sessions w' !! sessionId = Some session' ∧
      length (history session') ≤ 2 * maxTurns cfg ∧
      transcript (history session') =
        last_n (2 * maxTurns cfg)
          (transcript (history session) ++ flat_map turn_messages turns) ∧
      (maxTurns cfg ≤ length turns →
       transcript (history session') = flat_map turn_messages (last_n (maxTurns cfg) turns)).
Proof.
  intros Hpos w.
  assert (bounded cfg w) as Hb.
  { apply runCalls_bounded; [done|]. intros sid s. unfold initial_world. cbn [sessions]. by rewrite lookup_empty. }
  split; [done|]. intros session Hs.
  destruct (appendTurns_known sessionId turns w session Hs Hpos (Hb _ _ Hs))
    as (w' & session' & Hrun & Hs' & Htr).
  exists w', session'. split; [done|]. split; [done|].
  assert (∀ l, length (flat_map turn_messages l) = 2 * length l) as Hflat.
  { induction l as [|x l IH]; cbn; [done|]. rewrite IH. lia. }
  split; [|split; [done|]].
  - apply (f_equal length) in Htr. unfold transcript in Htr at 1.
    rewrite length_map, last_n_length in Htr. lia.
  - intros Hmany. rewrite Htr, last_n_app_r by (rewrite Hflat; lia).
    by apply last_n_flat_map.
Qed.

(** C9. [getSession] returns the session the identifier names, with its
    last activity refreshed; when no identifier is given or it names no
    session, it stores and returns a new session with an empty history and
    no meal data, whose identifier named no session before (the given
    identifier, or the next uuid, which is assumed unused). *)
Theorem getSession_existing_or_new (sessionId : option string) (w : World) :
  sessions w !! uuidv4 out (uuids_drawn w) = None →
  ∃ session w',
    getSession out sessionId w = (Ok session, w') ∧
    match named_session sessionId w with
    | Some existing =>
        id session = id existing ∧ history session = history existing ∧
        lastMealData session = lastMealData existing ∧
        createdAt session = createdAt existing ∧
        ∃ sid, sessionId = Some sid ∧ sessions w' = <[sid := session]> (sessions w)
    | None =>
        sessions w !! id session = None ∧
        history session = [] ∧ lastMealData session = None ∧
        sessions w' = <[id session := session]> (sessions w)
    end.
Proof.
  intros Hfresh. unfold named_session.
  destruct sessionId as [sid|].
  - destruct (sid =? "")%string eqn:Hsid.
    + apply String.eqb_eq in Hsid as ->.
      destruct (createSession_eq None w) as (s & w' & H & Hh & Hm & Hid & Hw').
      exists s, w'. split; [done|]. rewrite Hid. split; [done|]. by rewrite <- Hid.
    + destruct (sessions w !! sid) as [existing|] eqn:Hs.
      * apply String.eqb_neq in Hsid.
        destruct (getSession_known sid w existing Hsid Hs) as (t & w' & H & Hw').
        eexists _, w'. split; [exact H|]. cbn. eauto 10.
      * rewrite getSession_new by auto. rewrite Hsid.
        destruct (createSession_eq (Some sid) w) as (s & w' & H & Hh & Hm & Hid & Hw').
        rewrite Hsid in Hid.
        exists s, w'. split; [done|]. rewrite Hid. split; [done|]. by rewrite <- Hid.
  - destruct (createSession_eq None w) as (s & w' & H & Hh & Hm & Hid & Hw').
    exists s, w'. split; [done|]. rewrite Hid. split; [done|]. by rewrite <- Hid.
Qed.

End SessionFacts.

(** ** The batch executor *)

Section BatchFacts.

Variable out : Outside.

Lemma processResponse_total data endpoint :
  processResponse data endpoint = Ok (upstream_result data endpoint) ∧
  result_error (upstream_result data endpoint) = false.
Proof.
  unfold upstream_result, processResponse.
  destruct (truthy data) eqn:Ht; cbn [negb]; cbv iota; [|done].
  destruct data as [| |b|r|s|l|props]; try discriminate; try done.
  cbn [get]. change (Ok ?x ≫= ?f) with (f x). cbv beta.
  by destruct (default JUndefined (assoc "meals" props)).
Qed.

Lemma batchPromise_operation call w :
  isOperation call = true →
  batchPromise out call w =
    (Fulfilled (settled call (axios_get out (length (requests_sent w)) (request_of call))),
     sent [request_of call] w).
Proof.
  intros Hop. unfold batchPromise, request_of, settled.
  destruct call as [| |b|r|s|l|props]; try discriminate.
  cbn [isOperation] in Hop.
  destruct (field (JObj props) "params") as [| |b|r|s|l|ps] eqn:Hp; try discriminate.
  assert (get (JObj props) "params" = Ok (JObj ps)) as Hgp.
  { unfold field in Hp. cbn [get] in Hp |- *. by rewrite Hp. }
  assert (get (JObj props) "endpoint" = Ok (field (JObj props) "endpoint")) as Hge by done.
  unfold try_catch, mbind, M_bind, lift, executeCall, try_catch, mbind, M_bind, lift.
  rewrite Hge, Hgp.
  set (endpoint := field (JObj props) "endpoint").
  change (buildURL endpoint (JObj ps))
    with (Ok (mkUrl (ToString endpoint)
                (omap (fun kv : string * JsVal =>
                         match kv.2 with
                         | JNull | JUndefined => None
                         | value => Some (kv.1, ToString value)
                         end) ps))).
  cbv beta iota. unfold client_get.
  destruct (axios_get out _ _) as [data|error].
  - destruct (processResponse_total data endpoint) as [-> _]. done.
  - unfold logAndThrowError, throw, createBatchErrorResult.
    rewrite Hge, Hgp. done.
Qed.

Lemma sent_sent urls1 urls2 w : sent urls2 (sent urls1 w) = sent (urls1 ++ urls2) w.
Proof. unfold sent. cbn. by rewrite app_assoc. Qed.

Lemma createBatchPromises_operations calls w :
  Forall (fun call => isOperation call = true) calls →
  createBatchPromises out calls w =
    (imap (fun i call =>
             Fulfilled (settled call (axios_get out (length (requests_sent w) + i)
                                        (request_of call)))) calls,
     sent (map request_of calls) w).
Proof.
  intros Hops. revert w. induction Hops as [|call calls Hop Hops IH]; intros w.
  - cbn. unfold sent. rewrite app_nil_r. by destruct w.
  - cbn [createBatchPromises]. rewrite (batchPromise_operation _ _ Hop).
    rewrite IH. cbn [imap map]. rewrite sent_sent. cbn [app].
    rewrite Nat.add_0_r. f_equal. f_equal.
    apply imap_ext. intros i c _. cbn.
    rewrite length_app. cbn. do 3 f_equal. lia.
Qed.

Lemma processBatchResults_fulfilled (values : list BatchResult) calls :
  processBatchResults (map Fulfilled values) calls = Ok values.
Proof.
  revert calls. induction values as [|value values IH]; intros calls; [done|].
  cbn [map processBatchResults].
  change (Ok ?x ≫= ?f) with (f x). cbv beta. by rewrite IH.
Qed.

Lemma failures_counted (answer : nat → JsVal → Result JsVal) (calls : list JsVal) :
  length (filter (fun result => result_error result = true)
            (imap (fun i call => settled call (answer i call)) calls)) =
  length (filter (fun b => b = false) (imap (fun i call => is_ok (answer i call)) calls)).
Proof.
  revert answer. induction calls as [|call calls IH]; intros answer; [done|].
  cbn [imap]. rewrite !filter_cons.
  specialize (IH (fun i => answer (S i))).
  destruct (answer 0 call) as [data|error]; cbn [settled is_ok].
  - destruct (processResponse_total data (field call "endpoint")) as [_ He].
    rewrite He. rewrite !decide_False by done. exact IH.
  - cbn [result_error]. rewrite !decide_True by done. cbn [length]. f_equal. exact IH.
Qed.


End BatchFacts.

(** ** The fallback selection *)

Section GenerationFacts.

Variable out : Outside.

Lemma get_record meal k : isRecord meal = true → get meal k = Ok (field meal k).
Proof. by destruct meal. Qed.

Lemma mapM_Ok {A B} (f : A → Result B) (g : A → B) (l : list A) :
  Forall (fun x => f x = Ok (g x)) l → mapM f l = Ok (map g l).
Proof.
  induction 1 as [|x l Hx _ IH]; [done|].
  cbn [mapM map]. rewrite Hx.
  change (Ok ?x ≫= ?f) with (f x). cbv beta. rewrite IH. done.
Qed.

Lemma mapM_total {A B} (f : A → Result B) (l : list A) :
  Forall (fun x => ∃ y, f x = Ok y) l → ∃ ys, mapM f l = Ok ys.
Proof.
  induction 1 as [|x l [y Hx] _ [ys IH]]; [by exists []|].
  exists (y :: ys). cbn [mapM]. rewrite Hx.
  change (Ok ?x ≫= ?f) with (f x). cbv beta. by rewrite IH.
Qed.

Lemma records_cons result results :
  records (result :: results) = default [] (result_meals result) ++ records results.
Proof. done. Qed.

Lemma fallbackFromMeals_eq meals acc :
  Forall (fun meal => isRecord meal = true) meals → length acc < 3 →
  fallbackFromMeals meals acc =
    Ok (acc ++ map (fun meal => lookupCall (field meal "idMeal")) (take (3 - length acc) meals)).
Proof.
  intros Hrec. revert acc. induction Hrec as [|meal meals Hm _ IH]; intros acc Hlen.
  - cbn. by rewrite take_nil, app_nil_r.
  - cbn [fallbackFromMeals]. rewrite (get_record _ _ Hm).
    change (Ok ?x ≫= ?f) with (f x). cbv beta zeta.
    replace (3 - length acc) with (S (3 - length acc - 1)) by lia.
    cbn [take map].
    destruct (3 <=? _) eqn:E.
    + apply Nat.leb_le in E. rewrite length_app in E. cbn in E.
      replace (3 - length acc - 1) with 0 by lia. by rewrite take_0.
    + apply Nat.leb_gt in E. rewrite length_app in E. cbn in E.
      rewrite IH by (rewrite length_app; cbn; lia).
      rewrite length_app. cbn [length]. rewrite <- app_assoc. cbn [app].
      by replace (3 - (length acc + 1)) with (3 - length acc - 1) by lia.
Qed.

Lemma fallbackFromResults_eq results acc :
  Forall (fun meal => isRecord meal = true) (records results) → length acc < 3 →
  fallbackFromResults results acc =
    Ok (acc ++ map (fun meal => lookupCall (field meal "idMeal"))
                 (take (3 - length acc) (records results))).
Proof.
  revert acc. induction results as [|result results IH]; intros acc Hrec Hlen.
  - cbn. by rewrite take_nil, app_nil_r.
  - rewrite records_cons in Hrec |- *. apply Forall_app in Hrec as [Hrec1 Hrec2].
    cbn [fallbackFromResults].
    destruct (result_meals result) as [[|meal meals]|].
    + by apply IH.
    + change (default [] (Some (meal :: meals))) with (meal :: meals) in *.
      set (ms := meal :: meals) in *. clearbody ms.
      rewrite fallbackFromMeals_eq; [|by apply Forall_take|done].
      change (Ok ?x ≫= ?f) with (f x). cbv beta.
      rewrite take_take. replace (min (3 - length acc) 3) with (3 - length acc) by lia.
      destruct (3 <=? _) eqn:E.
      * apply Nat.leb_le in E. rewrite length_app, length_map, length_take in E.
        rewrite take_app_le by lia. done.
      * apply Nat.leb_gt in E. rewrite length_app, length_map, length_take in E.
        rewrite take_ge by lia.
        rewrite IH; [|done|rewrite length_app, length_map; lia].
        rewrite length_app, length_map, <- app_assoc, <- map_app. do 3 f_equal.
        rewrite take_app_ge by lia. by rewrite Nat.sub_add_distr.
    + by apply IH.
Qed.

Lemma createFallbackSelection_eq results :
  Forall (fun meal => isRecord meal = true) (records results) →
  createFallbackSelection results = Ok (first_three results).
Proof.
  intros Hrec. unfold createFallbackSelection.
  rewrite fallbackFromResults_eq; [done | done | cbn; lia].
Qed.

Lemma formatFilterResults_total results :
  Forall (fun meal => isRecord meal = true) (records results) →
  ∃ text, formatFilterResults results = Ok text.
Proof.
  intros Hrec. unfold formatFilterResults.
  match goal with |- context [mapM ?f results] =>
    destruct (mapM_total f results) as [lines ->] end.
  - induction results as [|result results IH]; [done|].
    rewrite records_cons in Hrec. apply Forall_app in Hrec as [Hrec1 Hrec2].
    constructor; [|by apply IH].
    destruct (result_meals result) as [[|meal meals]|]; eauto.
    change (default [] (Some (meal :: meals))) with (meal :: meals) in Hrec1.
    destruct (mapM_total formatFilterMeal (meal :: meals)) as [ls ->]; [|eauto].
    eapply Forall_impl; [exact Hrec1|]. intros m Hm. unfold formatFilterMeal.
    rewrite !(get_record _ _ Hm). eauto.
  - eauto.
Qed.

Lemma createPhase2Prompt_total userMessage results :
  Forall (fun meal => isRecord meal = true) (records results) →
  ∃ prompt, createPhase2Prompt userMessage results = Ok prompt.
Proof.
  intros Hrec. unfold createPhase2Prompt.
  destruct (formatFilterResults_total results Hrec) as [text ->]. eauto.
Qed.

Lemma parseSelectionResponse_unusable response results :
  usable out response = false →
  Forall (fun meal => isRecord meal = true) (records results) →
  parseSelectionResponse out response results = Ok (JObj [("api_calls", JArr (first_three results))])
  ∨ ∃ e, parseSelectionResponse out response results = Throw e.
Proof.
  intros Hun Hrec. unfold parseSelectionResponse, isValidJSON, parse_or_throw.
  unfold usable in Hun. unfold createFallbackSelectionResult.
  rewrite (createFallbackSelection_eq _ Hrec).
  destruct (JSON_parse out response) as [parsed|]; [|by left].
  change (Ok ?x ≫= ?f) with (f x). cbv beta.
  destruct (get parsed "api_calls") as [api_calls|e]; [|right; eauto].
  change (Ok ?x ≫= ?f) with (f x). cbv beta.
  destruct api_calls; try discriminate; try (by left).
  all: by destruct (truthy _); left.
Qed.


End GenerationFacts.

(** ** The pipeline *)

Lemma sent_nil w : sent [] w = w.
Proof. unfold sent. rewrite app_nil_r. by destruct w. Qed.

Lemma bind_Ok_inv {A B} (m : M A) (f : A → M B) w b w' :
  (m ≫= f) w = (Ok b, w') → ∃ a w1, m w = (Ok a, w1) ∧ f a w1 = (Ok b, w').
Proof.
  unfold mbind, M_bind. destruct (m w) as [[a|e] w1]; [eauto | discriminate].
Qed.

Lemma lift_inv {A} (r : Result A) w a w' : lift r w = (Ok a, w') → r = Ok a ∧ w' = w.
Proof. unfold lift. by intros [= -> ->]. Qed.

Lemma mret_inv {A} (a b : A) (w w' : World) :
  (mret a : M A) w = (Ok b, w') → b = a ∧ w' = w.
Proof. unfold mret, M_ret. by intros [= -> ->]. Qed.

Section PipelineFacts.

Variable cfg : Config.
Variable out : Outside.

Lemma hasFilterResults_false data :
  Forall (fun meal => isRecord meal = true) (records data) →
  Forall (fun result => lookupStyle result ∨ noRecords result) data →
  hasFilterResults data = Ok false.
Proof.
  induction data as [|result data IH]; intros Hrec Hall; [done|].
  rewrite records_cons in Hrec. apply Forall_app in Hrec as [Hrec1 Hrec2].
  apply Forall_cons in Hall as [Hr Hall].
  cbn [hasFilterResults]. unfold filterStyle, isFilterResult, hasResults.
  destruct Hr as [(first & rest & Hm & Ht) | [Hm | Hm]]; rewrite Hm.
  - rewrite Hm in Hrec1. apply Forall_cons in Hrec1 as [Hf _].
    destruct result; try discriminate. cbn.
    rewrite (get_record _ _ Hf). cbn. rewrite Ht. cbn. by apply IH.
  - cbn. by apply IH.
  - cbn. by apply IH.
Qed.

Lemma hasFilterResults_true data :
  Forall (fun meal => isRecord meal = true) (records data) →
  Exists filterStyleResult data →
  hasFilterResults data = Ok true.
Proof.
  induction data as [|result data IH]; intros Hrec Hex; [by apply Exists_nil in Hex|].
  rewrite records_cons in Hrec. apply Forall_app in Hrec as [Hrec1 Hrec2].
  cbn [hasFilterResults]. unfold filterStyle, isFilterResult, hasResults.
  destruct (result_meals result) as [[|first rest]|] eqn:Hm.
  - cbn. apply IH; [done|]. apply Exists_cons in Hex as [(f & r & Hm' & _) | Hex]; [|done].
    congruence.
  - apply Forall_cons in Hrec1 as [Hf _].
    destruct result; try discriminate. cbn.
    rewrite (get_record _ _ Hf). cbn.
    destruct (truthy (field first "strInstructions")) eqn:Ht; cbn; [|done].
    apply IH; [done|]. apply Exists_cons in Hex as [(f & r & Hm' & Ht') | Hex]; [|done].
    rewrite Hm in Hm'. injection Hm' as <- <-. congruence.
  - cbn. apply IH; [done|]. apply Exists_cons in Hex as [(f & r & Hm' & _) | Hex]; [|done].
    congruence.
Qed.

(** Running a batch changes nothing but the list of requests sent. *)
Lemma executeCall_world endpoint params w :
  ∃ urls, (executeCall out endpoint params w).2 = sent urls w.
Proof.
  unfold executeCall, try_catch, mbind, M_bind, lift, logAndThrowError, throw, client_get.
  destruct (buildURL endpoint params) as [url|e]; [|exists []; by rewrite sent_nil].
  exists [url]. destruct (axios_get out _ url) as [data|e]; [|done].
  by destruct (processResponse data endpoint).
Qed.

Lemma batchPromise_world call w :
  ∃ urls, (batchPromise out call w).2 = sent urls w.
Proof.
  unfold batchPromise, try_catch, mbind, M_bind, lift.
  destruct (get call "endpoint") as [endpoint|e].
  - destruct (get call "params") as [params|e].
    + destruct (executeCall_world endpoint params w) as [urls Hw].
      exists urls. destruct (executeCall out endpoint params w) as [[r|e] w1]; cbn in Hw; subst.
      * done.
      * by destruct (createBatchErrorResult e call).
    + exists []. rewrite sent_nil. by destruct (createBatchErrorResult e call).
  - exists []. rewrite sent_nil. by destruct (createBatchErrorResult e call).
Qed.

Lemma createBatchPromises_world calls w :
  ∃ urls, (createBatchPromises out calls w).2 = sent urls w.
Proof.
  revert w. induction calls as [|call calls IH]; intros w.
  - exists []. by rewrite sent_nil.
  - cbn [createBatchPromises].
    destruct (batchPromise_world call w) as [urls1 H1].
    destruct (batchPromise out call w) as [r w1]. cbn in H1. subst w1.
    destruct (IH (sent urls1 w)) as [urls2 H2].
    destruct (createBatchPromises out calls (sent urls1 w)) as [rs w2]. cbn in H2 |- *.
    subst w2. exists (urls1 ++ urls2). by rewrite sent_sent.
Qed.

Lemma executeBatch_world apiCalls w :
  ∃ urls, (executeBatch out apiCalls w).2 = sent urls w.
Proof.
  unfold executeBatch.
  destruct apiCalls as [| |b|r|s|calls|props]; try (exists []; by rewrite sent_nil).
  destruct (length calls =? 0); [exists []; by rewrite sent_nil|].
  destruct (createBatchPromises_world calls w) as [urls H].
  exists urls. by destruct (createBatchPromises out calls w).
Qed.

Lemma selectRecipes_world results userMessage prompt w :
  createPhase2Prompt userMessage results = Ok prompt →
  (selectRecipes out results userMessage w).2 = prompted prompt w.
Proof.
  intros Hp. unfold selectRecipes, mbind, M_bind, lift, try_catch. rewrite Hp.
  unfold mbind, M_bind, invokeModel.
  destruct (bedrock out _ prompt) as [response|e]; [|done].
  by destruct (parseSelectionResponse out response results).
Qed.



Lemma createErrorResponse_classified failure userMessage :
  createErrorResponse failure userMessage = apology (classify (err_message failure)).
Proof.
  unfold createErrorResponse, classify.
  by repeat destruct (includes _ _).
Qed.

Lemma addMessage_total sessionId userMessage assistantResponse w :
  ∃ w', addMessage cfg out sessionId userMessage assistantResponse w = (Ok tt, w').
Proof.
  unfold addMessage, mbind, M_bind, get_sessions.
  destruct (sessions w !! sessionId); cbn; eauto.
Qed.

Lemma getSession_total sessionId w :
  ∃ session w', getSession out sessionId w = (Ok session, w').
Proof.
  unfold getSession, createSession.
  destruct sessionId as [sid|]; [destruct (sid =? "")%string eqn:E|].
  - unfold mbind, M_bind. cbn. eauto.
  - unfold mbind, M_bind, get_sessions.
    destruct (sessions w !! sid); cbn; eauto.
  - unfold mbind, M_bind. cbn. eauto.
Qed.

(** The [catch] block always returns, with an outcome flagged as an
    error that reports no API call. *)
Lemma processRequest_catch_total session failure userMessage startTime w :
  ∃ outcome w',
    processRequest_catch cfg out session failure userMessage startTime w = (Ok outcome, w') ∧
    message outcome = JStr (apology (classify (err_message failure))) ∧
    error outcome = true ∧
    errorMessage outcome = Some (err_message failure) ∧
    apiCallsMade outcome = 0 ∧
    phasesExecuted outcome = None ∧
    (session = None →
     sessionId outcome = uuidv4 out (uuids_drawn w) ∧ sessions w' = sessions w).
Proof.
  unfold processRequest_catch. rewrite createErrorResponse_classified.
  destruct session as [s|].
  - destruct (addMessage_total (id s) (JStr userMessage)
                (JStr (apology (classify (err_message failure)))) w) as [w1 Hadd].
    unfold mbind, M_bind. rewrite Hadd.
    destruct (id s =? "")%string; cbn; eexists _, _; (split; [reflexivity|]); done.
  - unfold mbind, M_bind. cbn. eexists _, _. split; [reflexivity|]. done.
Qed.

(** An outcome returned by the [try] block is not flagged as an error. *)
Lemma processRequest_try_no_error session userMessage startTime w outcome w' :
  processRequest_try cfg out session userMessage startTime w = (Ok outcome, w') →
  error outcome = false.
Proof.
  unfold processRequest_try. intros H.
  apply bind_Ok_inv in H as (aiResponse & w1 & _ & H).
  apply bind_Ok_inv in H as (direct & w2 & _ & H).
  destruct (truthy direct).
  - apply bind_Ok_inv in H as (? & w3 & _ & H).
    apply bind_Ok_inv in H as (t & w4 & _ & H).
    apply mret_inv in H as [-> _]. done.
  - apply bind_Ok_inv in H as (api_calls & w3 & _ & H).
    destruct (_ || _); [discriminate|].
    apply bind_Ok_inv in H as (? & w4 & _ & H).
    apply bind_Ok_inv in H as (initialData & w5 & _ & H).
    apply bind_Ok_inv in H as ([[detailData total] executed] & w6 & _ & H).
    apply bind_Ok_inv in H as (? & w7 & _ & H).
    apply bind_Ok_inv in H as (finalResponse & w8 & _ & H).
    apply bind_Ok_inv in H as (? & w9 & _ & H).
    apply bind_Ok_inv in H as (t & w10 & _ & H).
    apply mret_inv in H as [-> _]. done.
Qed.

(** [processRequest], step by step: the clock is read, the session is
    obtained, and the [try] block either returns or hands its error to the
    [catch] block, which returns. *)
Lemma processRequest_run userMessage sessionId w :
  ∃ startTime w0 session w1,
    now out w = (Ok startTime, w0) ∧
    getSession out sessionId w0 = (Ok session, w1) ∧
    match processRequest_try cfg out session userMessage startTime w1 with
    | (Ok outcome, w2) =>
        processRequest cfg out userMessage sessionId w = (Ok outcome, w2)
    | (Throw failure, w2) =>
        ∃ outcome w3,
          processRequest cfg out userMessage sessionId w = (Ok outcome, w3) ∧
          message outcome = JStr (apology (classify (err_message failure))) ∧
          error outcome = true ∧
          errorMessage outcome = Some (err_message failure) ∧
          apiCallsMade outcome = 0
    end.
Proof.
  destruct (getSession_total sessionId
              (mkWorld (sessions w) (prompts_sent w) (requests_sent w) (uuids_drawn w)
                 (S (clock_reads w)))) as (session & w1 & Hget).
  eexists _, _, session, w1. split; [reflexivity|]. split; [exact Hget|].
  unfold processRequest, mbind, M_bind. cbn [now]. cbv beta iota. rewrite Hget.
  unfold try_catch.
  destruct (processRequest_try cfg out session userMessage _ w1) as [[outcome|failure] w2];
    [done|].
  destruct (processRequest_catch_total (Some session) failure userMessage
              (Date_now out (clock_reads w)) w2)
    as (outcome & w3 & Hc & Hm & He & Hem & Hcalls & _).
  by exists outcome, w3.
Qed.

(** C1. [processRequest] returns an outcome for every message, session
    identifier and state of the world, whatever the collaborators answer.
    When the [try] block returns, its outcome is returned; when it throws,
    the error is caught and the outcome carries the apology chosen from
    the error text (validation-like, unavailability-like, timeout-like,
    or generic), the error flag and the error text. *)
Theorem processRequest_never_throws (userMessage : string) (sessionId : option string)
    (w : World) :
  (∃ outcome w', processRequest cfg out userMessage sessionId w = (Ok outcome, w')) ∧
  ∃ startTime w0 session w1,
    now out w = (Ok startTime, w0) ∧
    getSession out sessionId w0 = (Ok session, w1) ∧
    match processRequest_try cfg out session userMessage startTime w1 with
    | (Ok outcome, w2) =>
        processRequest cfg out userMessage sessionId w = (Ok outcome, w2)
    | (Throw failure, w2) =>
        ∃ outcome w3,
          processRequest cfg out userMessage sessionId w = (Ok outcome, w3) ∧
          message outcome = JStr (apology (classify (err_message failure))) ∧
          error outcome = true ∧
          errorMessage outcome = Some (err_message failure)
    end.
Proof.
  destruct (processRequest_run userMessage sessionId w)
    as (startTime & w0 & session & w1 & Hnow & Hget & H).
  split.
  - destruct (processRequest_try cfg out session userMessage startTime w1)
      as [[outcome|failure] w2]; [eauto|].
    destruct H as (outcome & w3 & H & _). eauto.
  - exists startTime, w0, session, w1. split; [done|]. split; [done|].
    destruct (processRequest_try cfg out session userMessage startTime w1)
      as [[outcome|failure] w2]; [done|].
    destruct H as (outcome & w3 & H & Hm & He & Hem & _). eauto 10.
Qed.

(** C10. An outcome that [processRequest] flags as an error reports no
    API call, whatever was requested before the failure; and the [catch]
    block, reached with no session, returns the next uuid as session
    identifier without storing a session, so that the identifier names no
    session as long as the uuid is unused. *)
Theorem error_outcome_reports_no_calls (userMessage : string) :
  (∀ sessionId w outcome w',
     processRequest cfg out userMessage sessionId w = (Ok outcome, w') →
     error outcome = true →
     apiCallsMade outcome = 0) ∧
  (∀ failure startTime w,
     sessions w !! uuidv4 out (uuids_drawn w) = None →
     ∃ outcome w',
       processRequest_catch cfg out None failure userMessage startTime w = (Ok outcome, w') ∧
       apiCallsMade outcome = 0 ∧
       sessionId outcome = uuidv4 out (uuids_drawn w) ∧
       sessions w' = sessions w ∧
       sessions w' !! sessionId outcome = None).
Proof.
  split.
  - intros sid w outcome w' Hrun Herr.
    destruct (processRequest_run userMessage sid w)
      as (startTime & w0 & session & w1 & _ & _ & H).
    destruct (processRequest_try cfg out session userMessage startTime w1)
      as [[outcome'|failure] w2] eqn:Htry.
    + rewrite Hrun in H. injection H as -> ->.
      apply processRequest_try_no_error in Htry. congruence.
    + destruct H as (outcome' & w3 & H & _ & _ & _ & Hcalls).
      rewrite Hrun in H. by injection H as <- <-.
  - intros failure startTime w Hfresh.
    destruct (processRequest_catch_total None failure userMessage startTime w)
      as (outcome & w' & Hc & _ & _ & _ & Hcalls & _ & Hnone).
    destruct (Hnone eq_refl) as [Hid Hs].
    exists outcome, w'. rewrite Hid, Hs. done.
Qed.

(** C8 at its failing input. When the generated text is [null], which
    is valid JSON, [parseAnalysisResponse] throws instead of returning a
    direct response, and [analyzePipeline] fails; and when the generated
    text is empty, the direct response it is wrapped in is refused by
    [processRequest]. *)
Theorem parseAnalysisResponse_fails_on_null (userMessage : string) (session : Session)
    (startTime : Z) (w : World) :
  let prompt := createPhase1Prompt userMessage (history session) in
  (JSON_parse out "null" = Some JNull →
   parseAnalysisResponse out "null" =
     Throw (TypeError "Cannot read properties of null (reading 'api_calls')") ∧
   (bedrock out (length (prompts_sent w)) prompt = Ok "null"%string →
    analyzePipeline out userMessage (history session) w =
      (Throw (Error "Failed to analyze user intent: Cannot read properties of null (reading 'api_calls')"),
       prompted prompt w))) ∧
  (JSON_parse out "" = None →
   parseAnalysisResponse out "" = Ok (JObj [("direct_response"%string, JStr "")]) ∧
   (bedrock out (length (prompts_sent w)) prompt = Ok ""%string →
    processRequest_try cfg out session userMessage startTime w =
      (Throw (Error "AI service returned invalid response format"), prompted prompt w))).
Proof.
  intros prompt. split.
  - intros Hnull.
    assert (parseAnalysisResponse out "null" =
              Throw (TypeError "Cannot read properties of null (reading 'api_calls')")) as Hp.
    { unfold parseAnalysisResponse, isValidJSON, parse_or_throw. by rewrite Hnull. }
    split; [done|]. intros Hreply.
    unfold analyzePipeline, try_catch, mbind, M_bind, invokeModel, lift, throw.
    fold prompt. by rewrite Hreply, Hp.
  - intros Hempty.
    assert (parseAnalysisResponse out "" = Ok (JObj [("direct_response"%string, JStr "")]))
      as Hp.
    { unfold parseAnalysisResponse, isValidJSON. by rewrite Hempty. }
    split; [done|]. intros Hreply.
    unfold processRequest_try, mbind, M_bind.
    unfold analyzePipeline, try_catch, mbind, M_bind, invokeModel, lift, throw.
    fold prompt. by rewrite Hreply, Hp.
Qed.

End PipelineFacts.

(** * Further properties of the code *)

(** ** A validated batch, executed *)

Section ValidatedBatch.

Variable cfg : Config.
Variable out : Outside.

Lemma field_array l k : k ≠ "length"%string → field (JArr l) k = JUndefined.
Proof.
  intros Hk. unfold field. cbn [get].
  by rewrite (proj2 (String.eqb_neq k "length") Hk).
Qed.

(** A call the validator accepts is an operation, and its request goes
    to an allowed endpoint. *)
Lemma validated_is_operation call :
  is_ok (validateApiCall call) = true →
  isOperation call = true ∧ allowed_request (request_of call).
Proof.
  intros H. apply validateApiCall_ok in H as (Hobj & Hp & H).
  destruct call as [| |b|r|s|l|props]; try discriminate.
  destruct (field (JObj props) "params") as [| |b|r|s|l|ps] eqn:Hparams; try discriminate.
  { exfalso. destruct H as [[_ H] | [[_ H] | [_ H]]].
    - apply validateSearchParams_ok in H as (t & Ht & _); [|done].
      rewrite field_array in Ht by discriminate. discriminate.
    - apply validateFilterParams_ok in H as (Hx & _); [|done].
      rewrite !field_array in Hx by discriminate. discriminate.
    - apply validateLookupParams_ok in H as (Ht & _); [|done].
      rewrite field_array in Ht by discriminate. discriminate. }
  split.
  - cbn [isOperation]. by rewrite Hparams.
  - unfold allowed_request, request_of. rewrite Hparams.
    destruct H as [[E _] | [[E _] | [E _]]]; rewrite E; cbn; tauto.
Qed.

Lemma executeBatch_operations calls w :
  Forall (fun call => isOperation call = true) calls →
  ∃ results,
    executeBatch out (JArr calls) w = (Ok results, sent (map request_of calls) w) ∧
    length results = length calls.
Proof.
  intros Hops. unfold executeBatch. destruct calls as [|call calls].
  - exists []. cbn. unfold sent. rewrite app_nil_r. by destruct w.
  - change (length (call :: calls) =? 0) with false. cbv beta iota.
    rewrite (createBatchPromises_operations out _ _ Hops).
    set (values := imap (fun i c =>
                     settled c (axios_get out (length (requests_sent w) + i) (request_of c)))
                     (call :: calls)).
    exists values. split; [|unfold values; by rewrite length_imap].
    f_equal. rewrite <- (processBatchResults_fulfilled values (call :: calls)).
    f_equal. unfold values. symmetry. apply (fmap_imap _ Fulfilled).
Qed.


End ValidatedBatch.

(** ** The traffic of a request *)

Lemma Sends_weaken {A} n k n' k' (m : M A) :
  n ≤ n' → k ≤ k' → Sends n k m → Sends n' k' m.
Proof.
  intros Hn Hk H w. destruct (H w) as (ps & urls & Hp & Hu & Hlp & Hlu & Hall).
  exists ps, urls. repeat split; try done; lia.
Qed.

Lemma Sends_quiet {A} (m : M A) :
  (∀ w, prompts_sent (m w).2 = prompts_sent w ∧ requests_sent (m w).2 = requests_sent w) →
  Sends 0 0 m.
Proof.
  intros H w. destruct (H w) as [Hp Hu]. exists [], [].
  rewrite Hp, Hu, !app_nil_r. repeat split; try done; constructor.
Qed.

Lemma Sends_ret {A} (a : A) : Sends 0 0 (mret a : M A).
Proof. by apply Sends_quiet. Qed.

Lemma Sends_lift {A} (r : Result A) : Sends 0 0 (lift r).
Proof. by apply Sends_quiet. Qed.

Lemma Sends_throw {A} (e : JsError) : Sends 0 0 (throw e : M A).
Proof. by apply Sends_quiet. Qed.

Lemma Sends_bind {A B} n1 k1 n2 k2 (m : M A) (f : A → M B) :
  Sends n1 k1 m → (∀ a, Sends n2 k2 (f a)) → Sends (n1 + n2) (k1 + k2) (m ≫= f).
Proof.
  intros Hm Hf w. destruct (Hm w) as (ps & urls & Hp & Hu & Hlp & Hlu & Hall).
  unfold mbind, M_bind. destruct (m w) as [[a|e] w1]; cbn [snd] in *.
  - destruct (Hf a w1) as (ps' & urls' & Hp' & Hu' & Hlp' & Hlu' & Hall').
    exists (ps ++ ps'), (urls ++ urls').
    rewrite Hp', Hu', Hp, Hu, !app_assoc, !length_app.
    repeat split; try done; try lia. by apply Forall_app.
  - exists ps, urls. repeat split; try done; lia.
Qed.

Lemma Sends_lift_bind {A B} n k (r : Result A) (f : A → M B) :
  (∀ a, r = Ok a → Sends n k (f a)) → Sends n k (lift r ≫= f).
Proof.
  intros Hf. destruct r as [a|e].
  - exact (Hf a eq_refl).
  - apply (Sends_weaken 0 0); [lia | lia |]. by apply Sends_quiet.
Qed.

Lemma Sends_try_catch {A} n1 k1 n2 k2 (body : M A) (handler : JsError → M A) :
  Sends n1 k1 body → (∀ e, Sends n2 k2 (handler e)) →
  Sends (n1 + n2) (k1 + k2) (try_catch body handler).
Proof.
  intros Hm Hf w. destruct (Hm w) as (ps & urls & Hp & Hu & Hlp & Hlu & Hall).
  unfold try_catch. destruct (body w) as [[a|e] w1]; cbn [snd] in *.
  - exists ps, urls. repeat split; try done; lia.
  - destruct (Hf e w1) as (ps' & urls' & Hp' & Hu' & Hlp' & Hlu' & Hall').
    exists (ps ++ ps'), (urls ++ urls').
    rewrite Hp', Hu', Hp, Hu, !app_assoc, !length_app.
    repeat split; try done; try lia. by apply Forall_app.
Qed.

Ltac sends_bind n1 k1 n2 k2 :=
  apply (Sends_weaken (n1 + n2) (k1 + k2)); [lia | lia | apply (Sends_bind n1 k1 n2 k2)].

Ltac sends_try n1 k1 n2 k2 :=
  apply (Sends_weaken (n1 + n2) (k1 + k2));
  [lia | lia | apply (Sends_try_catch n1 k1 n2 k2)].

Ltac sends_none := apply (Sends_weaken 0 0); [lia | lia |].

Section Traffic.

Variable cfg : Config.
Variable out : Outside.

Lemma Sends_now : Sends 0 0 (now out).
Proof. by apply Sends_quiet. Qed.

Lemma Sends_invokeModel prompt : Sends 1 0 (invokeModel out prompt).
Proof.
  intros w. exists [prompt], []. unfold invokeModel. cbn [snd prompts_sent requests_sent].
  rewrite app_nil_r. repeat split; try done; try (cbn; lia); constructor.
Qed.

Lemma Sends_addMessage sessionId userMessage assistantResponse :
  Sends 0 0 (addMessage cfg out sessionId userMessage assistantResponse).
Proof.
  apply Sends_quiet. intros w. unfold addMessage, mbind, M_bind, get_sessions.
  by destruct (sessions w !! sessionId).
Qed.

Lemma Sends_storeMealData session allMealData :
  Sends 0 0 (storeMealData session allMealData).
Proof. by apply Sends_quiet. Qed.

Lemma Sends_getSession sessionId : Sends 0 0 (getSession out sessionId).
Proof.
  apply Sends_quiet. intros w. unfold getSession, createSession.
  destruct sessionId as [sid|]; [destruct (sid =? "")%string|].
  - done.
  - unfold mbind, M_bind, get_sessions. by destruct (sessions w !! sid).
  - done.
Qed.

Lemma Sends_analyzePipeline userMessage conversationHistory :
  Sends 1 0 (analyzePipeline out userMessage conversationHistory).
Proof.
  unfold analyzePipeline.
  sends_try 1 0 0 0; [|intros e; apply Sends_throw].
  sends_bind 1 0 0 0; [apply Sends_invokeModel | intros a; apply Sends_lift].
Qed.

Lemma Sends_selectRecipes filterResults userMessage :
  Sends 1 0 (selectRecipes out filterResults userMessage).
Proof.
  unfold selectRecipes.
  sends_bind 0 0 1 0; [apply Sends_lift|]. intros prompt.
  sends_try 1 0 0 0; [|intros e; apply Sends_lift].
  sends_bind 1 0 0 0; [apply Sends_invokeModel | intros a; apply Sends_lift].
Qed.

Lemma Sends_synthesizeResponse mealData userMessage conversationHistory :
  Sends 1 0 (synthesizeResponse out mealData userMessage conversationHistory).
Proof.
  unfold synthesizeResponse.
  sends_bind 0 0 1 0; [apply Sends_lift|]. intros prompt.
  sends_try 1 0 0 0; [apply Sends_invokeModel | intros e; apply Sends_lift].
Qed.

Lemma validateApiCalls_Ok_inv apiCalls a :
  validateApiCalls cfg apiCalls = Ok a →
  ∃ calls, apiCalls = JArr calls ∧ validateApiCalls cfg (JArr calls) = Ok true.
Proof.
  intros H. destruct apiCalls as [| |b|r|s|calls|props]; try discriminate.
  exists calls. split; [done|]. revert H. unfold validateApiCalls.
  destruct (length calls =? 0); [discriminate|].
  destruct (_ <? _)%Z; [discriminate|].
  by destruct (validateEach 0 calls) as [[]|].
Qed.

Lemma Sends_executeBatch_validated calls :
  validateApiCalls cfg (JArr calls) = Ok true →
  Sends 0 (most cfg) (executeBatch out (JArr calls)).
Proof.
  intros Hvalid w.
  apply validateApiCalls_ok in Hvalid as (_ & Hmax & Hall).
  destruct (executeBatch_operations out calls w) as (results & Hrun & _).
  { eapply Forall_impl; [exact Hall|]. intros call H. by apply validated_is_operation. }
  exists [], (map request_of calls). rewrite Hrun. cbn [snd sent prompts_sent requests_sent].
  rewrite app_nil_r, length_map. repeat split; try done; [unfold most; lia|].
  apply Forall_map. eapply Forall_impl; [exact Hall|].
  intros call H. by apply validated_is_operation.
Qed.

(** A batch is executed only after it was validated. *)
Lemma Sends_validated {B} n k (apiCalls : JsVal) (f : list BatchResult → M B) :
  (∀ results, Sends n k (f results)) →
  Sends n ((most cfg) + k)
    (lift (validateApiCalls cfg apiCalls) ≫= λ _, executeBatch out apiCalls ≫= f).
Proof.
  intros Hf. apply Sends_lift_bind. intros a Hvalid.
  apply validateApiCalls_Ok_inv in Hvalid as (calls & -> & Hvalid).
  sends_bind 0 (most cfg) n k; [by apply Sends_executeBatch_validated | exact Hf].
Qed.

Lemma Sends_refinementPhase successfulData userMessage totalApiCalls :
  Sends 1 (most cfg) (refinementPhase cfg out successfulData userMessage totalApiCalls).
Proof.
  unfold refinementPhase. apply Sends_lift_bind. intros hasFilter _.
  destruct (hasFilter && _);
    [|sends_none; apply Sends_ret].
  sends_try 1 (most cfg) 0 0; [|intros e; apply Sends_ret].
  sends_bind 1 0 0 (most cfg); [apply Sends_selectRecipes|]. intros selectionResponse.
  apply Sends_lift_bind. intros api_calls _.
  destruct (truthy api_calls && _);
    [|sends_none; apply Sends_ret].
  apply (Sends_weaken 0 ((most cfg) + 0)); [lia | lia |].
  apply Sends_validated. intros detailData. apply Sends_ret.
Qed.

Lemma Sends_processRequest_try session userMessage startTime :
  Sends 3 (2 * (most cfg)) (processRequest_try cfg out session userMessage startTime).
Proof.
  unfold processRequest_try.
  sends_bind 1 0 2 (2 * (most cfg)); [apply Sends_analyzePipeline|]. intros aiResponse.
  apply Sends_lift_bind. intros direct_response _.
  destruct (truthy direct_response).
  { sends_none.
    sends_bind 0 0 0 0; [apply Sends_addMessage|]. intros _.
    sends_bind 0 0 0 0; [apply Sends_now | intros t; apply Sends_ret]. }
  apply Sends_lift_bind. intros api_calls _.
  destruct (_ || _); [sends_none; apply Sends_throw|].
  apply (Sends_weaken 2 ((most cfg) + (most cfg))); [lia | lia |].
  apply Sends_validated. intros initialData.
  sends_bind 1 (most cfg) 1 0; [apply Sends_refinementPhase|].
  intros [[detailData totalApiCalls] phase2Executed].
  sends_bind 0 0 1 0; [apply Sends_storeMealData|]. intros _.
  sends_bind 1 0 0 0; [apply Sends_synthesizeResponse|]. intros finalResponse.
  sends_bind 0 0 0 0; [apply Sends_addMessage|]. intros _.
  sends_bind 0 0 0 0; [apply Sends_now | intros t; apply Sends_ret].
Qed.

Lemma Sends_processRequest_catch session failure userMessage startTime :
  Sends 0 0 (processRequest_catch cfg out session failure userMessage startTime).
Proof.
  unfold processRequest_catch.
  sends_bind 0 0 0 0.
  { destruct session; [apply Sends_addMessage | apply Sends_ret]. }
  intros _. sends_bind 0 0 0 0.
  { destruct session as [s|]; [destruct (id s =? "")%string|];
      try apply Sends_ret; by apply Sends_quiet. }
  intros sid. sends_bind 0 0 0 0; [apply Sends_now | intros t; apply Sends_ret].
Qed.

(** X2. Whatever the generation backend writes and whatever MealDB
    answers, one run of [processRequest] sends at most three prompts and at
    most twice the configured maximum of requests, every one of them to
    [search.php], [filter.php] or [lookup.php]; what was sent before
    stays in the logs. *)
Theorem processRequest_traffic (userMessage : string) (sessionId : option string)
    (w : World) :
  ∃ prompts urls,
    prompts_sent (processRequest cfg out userMessage sessionId w).2 =
      prompts_sent w ++ prompts ∧
    requests_sent (processRequest cfg out userMessage sessionId w).2 =
      requests_sent w ++ urls ∧
    length prompts ≤ 3 ∧
    length urls ≤ 2 * Z.to_nat (MAX_API_CALLS cfg) ∧
    Forall allowed_request urls.
Proof.
  assert (Sends 3 (2 * (most cfg)) (processRequest cfg out userMessage sessionId)) as H;
    [|exact (H w)].
  unfold processRequest.
  sends_bind 0 0 3 (2 * (most cfg)); [apply Sends_now|]. intros startTime.
  assert (∀ session,
            Sends 3 (2 * (most cfg))
              (try_catch (processRequest_try cfg out session userMessage startTime)
                 (fun failure =>
                    processRequest_catch cfg out (Some session) failure userMessage
                      startTime))) as Htry.
  { intros session. apply (Sends_weaken (3 + 0) (2 * (most cfg) + 0)); [lia | lia |].
    apply Sends_try_catch; [apply Sends_processRequest_try|].
    intros e. apply Sends_processRequest_catch. }
  assert (∀ failure,
            Sends 3 (2 * (most cfg))
              (processRequest_catch cfg out None failure userMessage startTime)) as Hcatch.
  { intros failure.
    sends_none; apply Sends_processRequest_catch. }
  intros w0.
  destruct (Sends_getSession sessionId w0) as (ps & urls & Hp & Hu & Hlp & Hlu & _).
  destruct ps; [|cbn in Hlp; lia]. destruct urls; [|cbn in Hlu; lia].
  rewrite app_nil_r in Hp, Hu. cbv beta.
  destruct (getSession out sessionId w0) as [[session|failure] w1]; cbn [snd] in Hp, Hu;
    rewrite <- Hp, <- Hu.
  - exact (Htry session w1).
  - exact (Hcatch failure w1).
Qed.

End Traffic.

(** ** The session store across a request *)

Lemma bind_run {A B} (m : M A) (f : A → M B) w :
  (m ≫= f) w = match m w with
               | (Ok a, w1) => f a w1
               | (Throw e, w1) => (Throw e, w1)
               end.
Proof. reflexivity. Qed.

#[local] Instance same_store_preorder : PreOrder same_store.
Proof.
  split; [by intros w | intros w1 w2 w3 H1 H2]. unfold same_store in *. congruence.
Qed.

#[local] Instance Keeps_preorder sid : PreOrder (Keeps sid).
Proof.
  split.
  - intros w. split; [done|]. intros s Hs. by exists s.
  - intros w1 w2 w3 [Ho1 Hs1] [Ho2 Hs2]. split.
    + intros k Hk. by rewrite Ho2, Ho1.
    + intros s Hs. destruct (Hs1 s Hs) as (s' & Hs' & Hid & Hh).
      destruct (Hs2 s' Hs') as (s'' & Hs'' & Hid' & Hh').
      exists s''. split; [done|]. split; congruence.
Qed.

Lemma Keeps_same sid w w' : same_store w w' → Keeps sid w w'.
Proof.
  unfold same_store. intros H. split; intros; rewrite H; [done|]. by eexists.
Qed.

Section Respect.

Context (R : World → World → Prop) `{!PreOrder R}.

Lemma Respects_ret {A} (a : A) : Respects R (mret a : M A).
Proof. intros w. reflexivity. Qed.

Lemma Respects_lift {A} (r : Result A) : Respects R (lift r).
Proof. intros w. reflexivity. Qed.

Lemma Respects_throw {A} (e : JsError) : Respects R (throw e : M A).
Proof. intros w. reflexivity. Qed.

Lemma Respects_bind {A B} (m : M A) (f : A → M B) :
  Respects R m → (∀ a, Respects R (f a)) → Respects R (m ≫= f).
Proof.
  intros Hm Hf w. specialize (Hm w). rewrite bind_run.
  destruct (m w) as [[a|e] w1]; cbn [snd] in *; [|done].
  etransitivity; [exact Hm | apply Hf].
Qed.

Lemma Respects_try_catch {A} (body : M A) (handler : JsError → M A) :
  Respects R body → (∀ e, Respects R (handler e)) → Respects R (try_catch body handler).
Proof.
  intros Hm Hf w. specialize (Hm w). unfold try_catch.
  destruct (body w) as [[a|e] w1]; cbn [snd] in *; [done|].
  etransitivity; [exact Hm | apply Hf].
Qed.

End Respect.

Section Store.

Variable cfg : Config.
Variable out : Outside.

Lemma same_now : Respects same_store (now out).
Proof. by intros w. Qed.

Lemma same_invokeModel prompt : Respects same_store (invokeModel out prompt).
Proof. by intros w. Qed.

Lemma same_analyzePipeline userMessage conversationHistory :
  Respects same_store (analyzePipeline out userMessage conversationHistory).
Proof.
  unfold analyzePipeline. apply Respects_try_catch; [apply _ | |intros e; apply Respects_throw, _].
  apply Respects_bind; [apply _ | apply same_invokeModel | intros a; apply Respects_lift, _].
Qed.

Lemma same_selectRecipes filterResults userMessage :
  Respects same_store (selectRecipes out filterResults userMessage).
Proof.
  unfold selectRecipes. apply Respects_bind; [apply _ | apply Respects_lift, _ |].
  intros prompt. apply Respects_try_catch; [apply _ | |intros e; apply Respects_lift, _].
  apply Respects_bind; [apply _ | apply same_invokeModel | intros a; apply Respects_lift, _].
Qed.

Lemma same_synthesizeResponse mealData userMessage conversationHistory :
  Respects same_store (synthesizeResponse out mealData userMessage conversationHistory).
Proof.
  unfold synthesizeResponse. apply Respects_bind; [apply _ | apply Respects_lift, _ |].
  intros prompt.
  apply Respects_try_catch; [apply _ | apply same_invokeModel | intros e; apply Respects_lift, _].
Qed.

Lemma same_executeBatch apiCalls : Respects same_store (executeBatch out apiCalls).
Proof.
  intros w. destruct (executeBatch_world out apiCalls w) as [urls ->]. done.
Qed.

Lemma same_refinementPhase successfulData userMessage totalApiCalls :
  Respects same_store (refinementPhase cfg out successfulData userMessage totalApiCalls).
Proof.
  unfold refinementPhase. apply Respects_bind; [apply _ | apply Respects_lift, _ |].
  intros hasFilter. destruct (hasFilter && _); [|apply Respects_ret, _].
  apply Respects_try_catch; [apply _ | |intros e; apply Respects_ret, _].
  apply Respects_bind; [apply _ | apply same_selectRecipes |]. intros selectionResponse.
  apply Respects_bind; [apply _ | apply Respects_lift, _ |]. intros api_calls.
  destruct (truthy api_calls && _); [|apply Respects_ret, _].
  apply Respects_bind; [apply _ | apply Respects_lift, _ |]. intros _.
  apply Respects_bind; [apply _ | apply same_executeBatch |]. intros detailData.
  apply Respects_ret, _.
Qed.

Lemma sessions_modified f w : sessions (modify_sessions f w).2 = f (sessions w).
Proof. reflexivity. Qed.

Lemma Keeps_storeMealData session allMealData w :
  Keeps (id session) w (storeMealData session allMealData w).2.
Proof.
  unfold storeMealData. split; rewrite sessions_modified.
  - intros k Hk. by rewrite lookup_alter_ne.
  - intros s Hs. rewrite lookup_alter_eq, Hs. cbn. by eexists.
Qed.

Lemma addMessage_returns sessionId userMessage assistantResponse w :
  (addMessage cfg out sessionId userMessage assistantResponse w).1 = Ok tt.
Proof.
  unfold addMessage, mbind, M_bind, get_sessions.
  by destruct (sessions w !! sessionId).
Qed.

(** The [try] block, seen from the store: until the exchange is added to
    the history, only the meal data of the session change. *)
Lemma processRequest_try_store session userMessage startTime w :
  match processRequest_try cfg out session userMessage startTime w with
  | (Ok outcome, w') =>
      sessionId outcome = id session ∧
      ∃ w1 w2,
        Keeps (id session) w w1 ∧
        addMessage cfg out (id session) (JStr userMessage) (message outcome) w1 = (Ok tt, w2) ∧
        sessions w' = sessions w2
  | (Throw _, w') => Keeps (id session) w w'
  end.
Proof.
  unfold processRequest_try. rewrite bind_run.
  pose proof (same_analyzePipeline userMessage (history session) w) as K1.
  destruct (analyzePipeline out userMessage (history session) w) as [[aiResponse|e] w1];
    cbn [snd] in K1; [|by apply Keeps_same].
  rewrite bind_run. unfold lift at 1.
  destruct (get aiResponse "direct_response") as [direct|e]; [|by apply Keeps_same].
  destruct (truthy direct).
  { rewrite bind_run.
    pose proof (addMessage_returns (id session) (JStr userMessage) direct w1) as Hadd.
    destruct (addMessage cfg out (id session) (JStr userMessage) direct w1)
      as [[[]|e] w2] eqn:Hrun; [|discriminate].
    split; [done|]. exists w1, w2. split; [by apply Keeps_same|]. by split. }
  rewrite bind_run. unfold lift at 1.
  destruct (get aiResponse "api_calls") as [api_calls|e]; [|by apply Keeps_same].
  destruct (_ || _); [by apply Keeps_same|].
  rewrite bind_run. unfold lift at 1.
  destruct (validateApiCalls cfg api_calls) as [valid|e]; [|by apply Keeps_same].
  rewrite bind_run.
  pose proof (same_executeBatch api_calls w1) as K2.
  destruct (executeBatch out api_calls w1) as [[initialData|e] w2]; cbn [snd] in K2;
    [|apply Keeps_same; by etransitivity].
  rewrite bind_run.
  set (successfulData := filter (fun result => result_error result = false) initialData).
  pose proof (same_refinementPhase successfulData userMessage (array_length api_calls) w2)
    as K3.
  destruct (refinementPhase cfg out successfulData userMessage (array_length api_calls) w2)
    as [[[[detailData totalApiCalls] phase2Executed]|e] w3]; cbn [snd] in K3;
    [|apply Keeps_same; etransitivity; [exact K1|]; by etransitivity].
  rewrite bind_run.
  pose proof (Keeps_storeMealData session (successfulData ++ detailData) w3) as K4.
  destruct (storeMealData session (successfulData ++ detailData) w3) as [[[]|e] w4] eqn:Hst;
    [|discriminate]. cbn [snd] in K4.
  assert (Keeps (id session) w w4) as K.
  { etransitivity; [|exact K4]. apply Keeps_same.
    etransitivity; [exact K1|]. by etransitivity. }
  rewrite bind_run.
  pose proof (same_synthesizeResponse (successfulData ++ detailData) userMessage
                (history session) w4) as K5.
  destruct (synthesizeResponse out (successfulData ++ detailData) userMessage
              (history session) w4) as [[finalResponse|e] w5]; cbn [snd] in K5;
    [|etransitivity; [exact K|]; by apply Keeps_same].
  rewrite bind_run.
  pose proof (addMessage_returns (id session) (JStr userMessage) (JStr finalResponse) w5)
    as Hadd.
  destruct (addMessage cfg out (id session) (JStr userMessage) (JStr finalResponse) w5)
    as [[[]|e] w6] eqn:Hrun; [|discriminate].
  split; [done|]. exists w5, w6.
  split; [etransitivity; [exact K|]; by apply Keeps_same|]. by split.
Qed.

(** What [getSession] returns and stores, in a store where every session
    sits under its identifier. *)
Lemma getSession_store sessionId w :
  keyed w → uuidv4 out (uuids_drawn w) ≠ ""%string →
  ∃ session wg,
    getSession out sessionId w = (Ok session, wg) ∧
    id session = session_key out sessionId w ∧ id session ≠ ""%string ∧
    history session = from_option history [] (named_session sessionId w) ∧
    sessions wg = <[id session := session]> (sessions w).
Proof.
  intros Hkeyed Huuid. unfold session_key, named_session.
  destruct sessionId as [sid|]; [destruct (sid =? "")%string eqn:Hsid|].
  - apply String.eqb_eq in Hsid as ->.
    destruct (createSession_eq out None w) as (s & wg & H & Hh & _ & Hid & Hw).
    exists s, wg. rewrite Hid, Hh. split; [exact H|]. split; [done|]. split; [done|].
    split; [done|]. by rewrite <- Hid.
  - apply String.eqb_neq in Hsid.
    destruct (sessions w !! sid) as [existing|] eqn:Hs.
    + destruct (getSession_known out sid w existing Hsid Hs) as (t & wg & H & Hw).
      eexists _, wg. split; [exact H|]. cbn [id history from_option].
      rewrite Hw, (Hkeyed _ _ Hs). by repeat split.
    + rewrite (getSession_new out (Some sid) w) by auto.
      rewrite (proj2 (String.eqb_neq _ _) Hsid).
      destruct (createSession_eq out (Some sid) w) as (s & wg & H & Hh & _ & Hid & Hw).
      rewrite (proj2 (String.eqb_neq _ _) Hsid) in Hid.
      exists s, wg. rewrite Hid, Hh. split; [exact H|]. split; [done|]. split; [done|].
      split; [done|]. by rewrite <- Hid.
  - destruct (createSession_eq out None w) as (s & wg & H & Hh & _ & Hid & Hw).
    exists s, wg. rewrite Hid, Hh. split; [exact H|]. split; [done|]. split; [done|].
    split; [done|]. by rewrite <- Hid.
Qed.

(** [processRequest], seen from the store: the session is obtained, its
    history is kept until the exchange is added, and the outcome carries
    the identifier of the session. *)
Lemma processRequest_store userMessage requested w :
  keyed w → uuidv4 out (uuids_drawn w) ≠ ""%string →
  ∃ session wg w1 w2 outcome w',
    processRequest cfg out userMessage requested w = (Ok outcome, w') ∧
    id session = session_key out requested w ∧
    history session = from_option history [] (named_session requested w) ∧
    sessions wg = <[id session := session]> (sessions w) ∧
    Keeps (id session) wg w1 ∧
    addMessage cfg out (id session) (JStr userMessage) (message outcome) w1 = (Ok tt, w2) ∧
    sessions w' = sessions w2 ∧
    sessionId outcome = id session.
Proof.
  intros Hkeyed Huuid.
  set (w0 := mkWorld (sessions w) (prompts_sent w) (requests_sent w) (uuids_drawn w)
               (S (clock_reads w))).
  destruct (getSession_store requested w0 Hkeyed Huuid)
    as (session & wg & Hget & Hid & Hne & Hh & Hw).
  exists session, wg.
  unfold processRequest. rewrite bind_run. cbn [now]. fold w0. cbv beta. rewrite Hget.
  unfold try_catch.
  pose proof (processRequest_try_store session userMessage (Date_now out (clock_reads w)) wg)
    as Htry.
  destruct (processRequest_try cfg out session userMessage (Date_now out (clock_reads w)) wg)
    as [[outcome|failure] wt].
  - destruct Htry as (Hsid & w1 & w2 & K & Hadd & Hs).
    exists w1, w2, outcome, wt. split; [reflexivity|]. split; [exact Hid|].
    split; [exact Hh|]. split; [exact Hw|]. split; [exact K|]. split; [exact Hadd|].
    split; [exact Hs | exact Hsid].
  - unfold processRequest_catch. rewrite bind_run.
    pose proof (addMessage_returns (id session) (JStr userMessage)
                  (JStr (createErrorResponse failure userMessage)) wt) as Hret.
    destruct (addMessage cfg out (id session) (JStr userMessage)
                (JStr (createErrorResponse failure userMessage)) wt)
      as [[[]|e] w2] eqn:Hadd; [|discriminate].
    rewrite (proj2 (String.eqb_neq _ _) Hne).
    eexists wt, w2, _, _. split; [reflexivity|]. split; [exact Hid|].
    split; [exact Hh|]. split; [exact Hw|]. split; [exact Htry|]. split; [exact Hadd|].
    split; reflexivity.
Qed.

Lemma addMessage_elsewhere sessionId userMessage assistantResponse w k :
  k ≠ sessionId →
  sessions (addMessage cfg out sessionId userMessage assistantResponse w).2 !! k =
    sessions w !! k.
Proof.
  intros Hk. unfold addMessage, mbind, M_bind, get_sessions.
  destruct (sessions w !! sessionId); [|done].
  cbn [now modify_sessions set_sessions snd sessions]. by rewrite lookup_insert_ne.
Qed.

(** X3. Every exchange is recorded, whether it succeeded or failed: after
    [processRequest] returns, the session named by the outcome is in the
    store, and its history is the former history of that session (empty
    for a new one) followed by the user message and the message of the
    outcome, cut to the last [2 * maxConversationLength] messages. *)
Theorem exchange_is_recorded (userMessage : string) (requested : option string)
    (w w' : World) (outcome : Outcome) :
  keyed w → uuidv4 out (uuids_drawn w) ≠ ""%string →
  (0 < maxConversationLength cfg)%Z →
  processRequest cfg out userMessage requested w = (Ok outcome, w') →
  ∃ stored,
    sessions w' !! sessionId outcome = Some stored ∧
    id stored = sessionId outcome ∧
    transcript (history stored) =
      last_n (2 * maxTurns cfg)
        (transcript (from_option history [] (named_session requested w))
           ++ turn_messages (JStr userMessage, message outcome)).
Proof.
  intros Hkeyed Huuid Hpos Hrun.
  destruct (processRequest_store userMessage requested w Hkeyed Huuid)
    as (session & wg & w1 & w2 & outcome' & w'' & Hrun' & Hid & Hh & Hw & K & Hadd & Hs & Hsid).
  rewrite Hrun in Hrun'. injection Hrun' as <- <-.
  destruct K as [_ K]. destruct (K session) as (s1 & Hs1 & Hid1 & Hh1).
  { rewrite Hw. apply lookup_insert_eq. }
  destruct (addMessage_known cfg out (id session) (JStr userMessage) (message outcome)
              w1 s1 Hs1 Hpos) as (kept & t & Hadd' & Hkept).
  rewrite Hadd in Hadd'. injection Hadd' as ->.
  eexists. rewrite Hs, Hsid. cbn [sessions]. split; [apply lookup_insert_eq|].
  cbn [id history]. split; [done|]. by rewrite Hkept, Hh1, Hh.
Qed.

(** X4. A request touches one session only, the one named by its
    outcome: that is the session of the identifier supplied, or of the
    next uuid when none is supplied; every other session of the store is
    left as it was. *)
Theorem other_sessions_untouched (userMessage : string) (requested : option string)
    (w w' : World) (outcome : Outcome) :
  keyed w → uuidv4 out (uuids_drawn w) ≠ ""%string →
  processRequest cfg out userMessage requested w = (Ok outcome, w') →
  sessionId outcome = session_key out requested w ∧
  ∀ sid, sid ≠ sessionId outcome → sessions w' !! sid = sessions w !! sid.
Proof.
  intros Hkeyed Huuid Hrun.
  destruct (processRequest_store userMessage requested w Hkeyed Huuid)
    as (session & wg & w1 & w2 & outcome' & w'' & Hrun' & Hid & Hh & Hw & K & Hadd & Hs & Hsid).
  rewrite Hrun in Hrun'. injection Hrun' as <- <-.
  split; [congruence|]. intros sid Hne. rewrite Hsid in Hne.
  pose proof (addMessage_elsewhere (id session) (JStr userMessage) (message outcome)
                w1 sid Hne) as Hother.
  rewrite Hadd in Hother. cbn [snd] in Hother.
  rewrite Hs, Hother. destruct K as [K _]. rewrite (K sid Hne), Hw.
  by rewrite lookup_insert_ne.
Qed.

End Store.

(** ** Sessions stay under their identifiers *)

#[local] Instance keeps_keyed_preorder : PreOrder keeps_keyed.
Proof. split; [intros w H; exact H | intros w1 w2 w3 H1 H2 H; by apply H2, H1]. Qed.

Lemma Respects_weaken {A} (R R' : World → World → Prop) (m : M A) :
  (∀ w w', R w w' → R' w w') → Respects R m → Respects R' m.
Proof. intros HR Hm w. apply HR, Hm. Qed.

Lemma keeps_keyed_same w w' : same_store w w' → keeps_keyed w w'.
Proof. unfold same_store, keeps_keyed, keyed. intros H Hk k s. rewrite H. apply Hk. Qed.

Lemma keyed_insert w w' k s :
  keyed w → id s = k → sessions w' = <[k := s]> (sessions w) → keyed w'.
Proof.
  intros Hk Hid Hw k' s'. rewrite Hw, lookup_insert.
  case_decide; [intros [= <-]; congruence | apply Hk].
Qed.

Lemma keyed_initial : keyed initial_world.
Proof. intros k s. unfold initial_world. cbn [sessions]. by rewrite lookup_empty. Qed.

Lemma bounded_initial cfg : bounded cfg initial_world.
Proof. intros k s. unfold initial_world. cbn [sessions]. by rewrite lookup_empty. Qed.

Section Keyed.

Variable cfg : Config.
Variable out : Outside.

Lemma keyed_createSession id' : Respects keeps_keyed (createSession out id').
Proof.
  intros w Hk.
  destruct (createSession_eq out id' w) as (s & w' & H & _ & _ & _ & Hw).
  rewrite H. by eapply keyed_insert.
Qed.

Lemma keyed_getSession sessionId : Respects keeps_keyed (getSession out sessionId).
Proof.
  intros w Hk. unfold getSession.
  destruct sessionId as [sid|]; [destruct (sid =? "")%string|];
    try by apply keyed_createSession.
  unfold mbind, M_bind, get_sessions.
  destruct (sessions w !! sid) as [existing|] eqn:Hs; [|by apply keyed_createSession].
  cbn [now modify_sessions snd]. eapply keyed_insert; [exact Hk | | reflexivity].
  cbn [id]. by apply Hk.
Qed.

Lemma keyed_addMessage sessionId userMessage assistantResponse :
  Respects keeps_keyed (addMessage cfg out sessionId userMessage assistantResponse).
Proof.
  intros w Hk. unfold addMessage, mbind, M_bind, get_sessions.
  destruct (sessions w !! sessionId) as [session|] eqn:Hs; [|done].
  cbn [now modify_sessions snd]. eapply keyed_insert; [exact Hk | | reflexivity].
  cbn [id]. by apply Hk.
Qed.

Lemma keyed_storeMealData session allMealData :
  Respects keeps_keyed (storeMealData session allMealData).
Proof.
  intros w Hk k s. unfold storeMealData. rewrite sessions_modified.
  rewrite lookup_alter. case_decide as Hcase.
  - subst k. destruct (sessions w !! id session) as [s0|] eqn:Hs; [|discriminate].
    intros [= <-]. cbn [id]. by apply Hk.
  - apply Hk.
Qed.

Lemma keyed_cleanupExpiredSessions : Respects keeps_keyed (cleanupExpiredSessions cfg out).
Proof.
  intros w Hk k s. unfold cleanupExpiredSessions. rewrite bind_run. cbn [now].
  rewrite sessions_modified. cbn [sessions].
  intros Hs. apply map_lookup_filter_Some in Hs as [Hs _]. by apply Hk.
Qed.

End Keyed.

(** A property of the store that the operations of the session manager
    preserve is preserved by a request. *)
Section StoreInvariant.

Variable cfg : Config.
Variable out : Outside.
Variable Inv : World → Prop.

Hypothesis Inv_store : ∀ w w', same_store w w' → Inv w → Inv w'.
Hypothesis Inv_getSession : ∀ sessionId w, Inv w → Inv (getSession out sessionId w).2.
Hypothesis Inv_addMessage :
  ∀ sessionId userMessage assistantResponse w,
    Inv w → Inv (addMessage cfg out sessionId userMessage assistantResponse w).2.
Hypothesis Inv_storeMealData :
  ∀ session allMealData w, Inv w → Inv (storeMealData session allMealData w).2.

#[local] Instance preserves_preorder : PreOrder (preserves Inv).
Proof. split; [intros w H; exact H | intros w1 w2 w3 H1 H2 H; by apply H2, H1]. Qed.

Lemma keeps_same {A} (m : M A) : Respects same_store m → Respects (preserves Inv) m.
Proof. apply Respects_weaken. exact Inv_store. Qed.

Lemma Inv_processRequest_try session userMessage startTime :
  Respects (preserves Inv) (processRequest_try cfg out session userMessage startTime).
Proof.
  unfold processRequest_try.
  apply Respects_bind; [apply _ | apply keeps_same, same_analyzePipeline |].
  intros aiResponse.
  apply Respects_bind; [apply _ | apply Respects_lift, _ |]. intros direct_response.
  destruct (truthy direct_response).
  { apply Respects_bind; [apply _ | intros w; exact (Inv_addMessage _ _ _ w) |]. intros _.
    apply Respects_bind; [apply _ | apply keeps_same, same_now |]. intros t.
    apply Respects_ret, _. }
  apply Respects_bind; [apply _ | apply Respects_lift, _ |]. intros api_calls.
  destruct (_ || _); [apply Respects_throw, _|].
  apply Respects_bind; [apply _ | apply Respects_lift, _ |]. intros _.
  apply Respects_bind; [apply _ | apply keeps_same, same_executeBatch |].
  intros initialData.
  apply Respects_bind; [apply _ | apply keeps_same, same_refinementPhase |].
  intros [[detailData totalApiCalls] phase2Executed].
  apply Respects_bind; [apply _ | intros w; exact (Inv_storeMealData _ _ w) |]. intros _.
  apply Respects_bind; [apply _ | apply keeps_same, same_synthesizeResponse |].
  intros finalResponse.
  apply Respects_bind; [apply _ | intros w; exact (Inv_addMessage _ _ _ w) |]. intros _.
  apply Respects_bind; [apply _ | apply keeps_same, same_now |]. intros t.
  apply Respects_ret, _.
Qed.

Lemma Inv_processRequest_catch session failure userMessage startTime :
  Respects (preserves Inv) (processRequest_catch cfg out session failure userMessage startTime).
Proof.
  unfold processRequest_catch.
  apply Respects_bind; [apply _ | |].
  { destruct session; [intros w; exact (Inv_addMessage _ _ _ w) | apply Respects_ret, _]. }
  intros _. apply Respects_bind; [apply _ | |].
  { destruct session as [s|]; [destruct (id s =? "")%string|];
      try apply Respects_ret, _; apply keeps_same; by intros w. }
  intros sid. apply Respects_bind; [apply _ | apply keeps_same, same_now |]. intros t.
  apply Respects_ret, _.
Qed.

Lemma Inv_processRequest userMessage requested w :
  Inv w → Inv (processRequest cfg out userMessage requested w).2.
Proof.
  revert w. change (Respects (preserves Inv) (processRequest cfg out userMessage requested)).
  unfold processRequest.
  apply Respects_bind; [apply _ | apply keeps_same, same_now |].
  intros startTime w0. cbv beta.
  pose proof (Inv_getSession requested w0) as Hg.
  destruct (getSession out requested w0) as [[session|failure] w1]; cbn [snd] in Hg.
  - etransitivity; [exact Hg|].
    apply (Respects_try_catch (preserves Inv)); [apply Inv_processRequest_try|].
    intros e. apply Inv_processRequest_catch.
  - etransitivity; [exact Hg|]. apply Inv_processRequest_catch.
Qed.

End StoreInvariant.

Section KeyedStore.

Variable cfg : Config.
Variable out : Outside.

Lemma keyed_processRequest userMessage requested w :
  keyed w → keyed (processRequest cfg out userMessage requested w).2.
Proof.
  apply (Inv_processRequest cfg out keyed).
  - intros w1 w2. apply keeps_keyed_same.
  - intros sessionId w1. apply keyed_getSession.
  - intros sessionId u a w1. apply keyed_addMessage.
  - intros session data w1. apply keyed_storeMealData.
Qed.


(** X5. The store keeps every session under its own identifier: this
    holds of the empty store, and [getSession], [addMessage],
    [cleanupExpiredSessions] and [processRequest] preserve it, whatever
    they return. *)
Theorem store_stays_keyed (w : World) :
  keyed initial_world ∧
  (keyed w →
   (∀ sessionId, keyed (getSession out sessionId w).2) ∧
   (∀ sessionId userMessage assistantResponse,
      keyed (addMessage cfg out sessionId userMessage assistantResponse w).2) ∧
   keyed (cleanupExpiredSessions cfg out w).2 ∧
   (∀ userMessage requested, keyed (processRequest cfg out userMessage requested w).2)).
Proof.
  split; [exact keyed_initial|].
  intros Hk. split; [|split; [|split]].
  - intros sessionId. by apply keyed_getSession.
  - intros sessionId userMessage assistantResponse. by apply keyed_addMessage.
  - by apply keyed_cleanupExpiredSessions.
  - intros userMessage requested. by apply keyed_processRequest.
Qed.

(** X21. With a positive [maxConversationLength], a request keeps every
    history of the store within the window of [2 * maxConversationLength]
    messages. *)
Theorem processRequest_keeps_window (userMessage : string) (requested : option string)
    (w : World) :
  (0 < maxConversationLength cfg)%Z →
  bounded cfg w → bounded cfg (processRequest cfg out userMessage requested w).2.
Proof.
  intros Hpos. apply (Inv_processRequest cfg out (bounded cfg)).
  - unfold same_store, bounded. intros w1 w2 H Hb sid s. rewrite H. apply Hb.
  - intros sessionId w1 Hb.
    pose proof (runCall_bounded cfg out (CallGetSession sessionId) w1 Hpos Hb) as H.
    cbn [runCall] in H. rewrite bind_run in H.
    by destruct (getSession out sessionId w1) as [[s|e] w2].
  - intros sessionId u a w1 Hb.
    exact (runCall_bounded cfg out (CallAddMessage sessionId u a) w1 Hpos Hb).
  - intros session data w1 Hb.
    exact (runCall_bounded cfg out (CallStoreMealData session data) w1 Hpos Hb).
Qed.

End KeyedStore.

(** ** Requests counted, and answers without a request *)

Lemma Sends_no_request {A} n (m : M A) w :
  Sends n 0 m → requests_sent (m w).2 = requests_sent w.
Proof.
  intros H. destruct (H w) as (ps & urls & _ & Hu & _ & Hlen & _).
  destruct urls; [|cbn in Hlen; lia]. by rewrite Hu, app_nil_r.
Qed.

Lemma Sends_no_prompt {A} k (m : M A) w :
  Sends 0 k m → prompts_sent (m w).2 = prompts_sent w.
Proof.
  intros H. destruct (H w) as (ps & urls & Hp & _ & Hlen & _).
  destruct ps; [|cbn in Hlen; lia]. by rewrite Hp, app_nil_r.
Qed.

Lemma run_no_request {A} n (m : M A) w r w' :
  Sends n 0 m → m w = (r, w') → requests_sent w' = requests_sent w.
Proof. intros H Hrun. rewrite <- (Sends_no_request n m w H). by rewrite Hrun. Qed.

Lemma run_no_prompt {A} k (m : M A) w r w' :
  Sends 0 k m → m w = (r, w') → prompts_sent w' = prompts_sent w.
Proof. intros H Hrun. rewrite <- (Sends_no_prompt k m w H). by rewrite Hrun. Qed.

Section Counting.

Variable cfg : Config.
Variable out : Outside.

(** The requests of the selection phase are those of the batch it
    executes, and they are added to the count of API calls. *)
Lemma refinementPhase_count successfulData userMessage total w r w' :
  refinementPhase cfg out successfulData userMessage total w = (r, w') →
  ∃ urls,
    requests_sent w' = requests_sent w ++ urls ∧
    match r with
    | Ok (detailData, total', executed) =>
        total' = total + length urls ∧ length detailData = length urls
    | Throw _ => True
    end.
Proof.
  assert (∀ w1, requests_sent w1 = requests_sent w →
            ∃ urls, requests_sent w1 = requests_sent w ++ urls ∧
                    total = total + length urls ∧ @length BatchResult [] = length urls)
    as Hnone.
  { intros w1 Hw1. exists []. rewrite app_nil_r. cbn. split; [done|]. lia. }
  unfold refinementPhase. rewrite bind_run. unfold lift at 1.
  destruct (hasFilterResults successfulData) as [hasFilter|e];
    [|intros [= <- <-]; exists []; by rewrite app_nil_r].
  destruct (hasFilter && _); [|intros [= <- <-]; by apply Hnone].
  unfold try_catch. rewrite bind_run.
  pose proof (Sends_no_request 1 _ w (Sends_selectRecipes out successfulData userMessage))
    as Hsel.
  destruct (selectRecipes out successfulData userMessage w) as [[selection|e] w1];
    cbn [snd] in Hsel; [|intros [= <- <-]; by apply Hnone].
  rewrite bind_run. unfold lift at 1.
  destruct (get selection "api_calls") as [api_calls|e];
    [|intros [= <- <-]; by apply Hnone].
  destruct (truthy api_calls && _); [|intros [= <- <-]; by apply Hnone].
  rewrite bind_run. unfold lift at 1.
  destruct (validateApiCalls cfg api_calls) as [valid|e] eqn:Hvalid;
    [|intros [= <- <-]; by apply Hnone].
  apply validateApiCalls_Ok_inv in Hvalid as (calls & -> & Hvalid).
  apply validateApiCalls_ok in Hvalid as (_ & _ & Hall).
  destruct (executeBatch_operations out calls w1) as (results & Hrun & Hlen).
  { eapply Forall_impl; [exact Hall|]. intros call H. by apply validated_is_operation. }
  rewrite bind_run, Hrun. intros [= <- <-]. exists (map request_of calls).
  cbn [sent requests_sent array_length]. rewrite Hsel, length_map. done.
Qed.

Lemma processRequest_try_count session userMessage startTime w outcome w' :
  processRequest_try cfg out session userMessage startTime w = (Ok outcome, w') →
  ∃ urls, requests_sent w' = requests_sent w ++ urls ∧ apiCallsMade outcome = length urls.
Proof.
  unfold processRequest_try. intros H.
  apply bind_Ok_inv in H as (aiResponse & w1 & H1 & H).
  pose proof (run_no_request _ _ _ _ _ (Sends_analyzePipeline out _ _) H1) as R1.
  apply bind_Ok_inv in H as (direct & w2 & H2 & H). apply lift_inv in H2 as [_ ->].
  destruct (truthy direct).
  - apply bind_Ok_inv in H as (? & w3 & H3 & H).
    apply bind_Ok_inv in H as (t & w4 & H4 & H). apply mret_inv in H as [-> ->].
    exists []. rewrite app_nil_r. split; [|done].
    injection H4 as _ <-. cbn [requests_sent]. rewrite <- R1.
    exact (run_no_request _ _ _ _ _ (Sends_addMessage cfg out _ _ _) H3).
  - apply bind_Ok_inv in H as (api_calls & w3 & H3 & H). apply lift_inv in H3 as [_ ->].
    destruct (_ || _); [discriminate|].
    apply bind_Ok_inv in H as (valid & w4 & H4 & H). apply lift_inv in H4 as [Hvalid ->].
    apply validateApiCalls_Ok_inv in Hvalid as (calls & -> & Hvalid).
    apply validateApiCalls_ok in Hvalid as (_ & _ & Hall).
    destruct (executeBatch_operations out calls w1) as (results & Hrun & Hlen).
    { eapply Forall_impl; [exact Hall|]. intros call Hc. by apply validated_is_operation. }
    apply bind_Ok_inv in H as (initialData & w5 & H5 & H).
    rewrite Hrun in H5. injection H5 as <- <-.
    apply bind_Ok_inv in H as ([[detailData total'] executed] & w6 & H6 & H).
    destruct (refinementPhase_count _ _ _ _ _ _ H6) as (urls & Hreq & -> & _).
    apply bind_Ok_inv in H as (? & w7 & H7 & H). injection H7 as _ <-.
    apply bind_Ok_inv in H as (finalResponse & w8 & H8 & H).
    apply bind_Ok_inv in H as (? & w9 & H9 & H).
    apply bind_Ok_inv in H as (t & w10 & H10 & H). apply mret_inv in H as [-> ->].
    injection H10 as _ <-. cbn [requests_sent apiCallsMade].
    exists (map request_of calls ++ urls).
    rewrite (run_no_request _ _ _ _ _ (Sends_addMessage cfg out _ _ _) H9).
    rewrite (run_no_request _ _ _ _ _ (Sends_synthesizeResponse out _ _ _) H8).
    cbn [set_sessions requests_sent]. rewrite Hreq. cbn [sent requests_sent].
    rewrite R1, app_assoc, length_app, length_map. done.
Qed.



End Counting.

(** ** Expiry of sessions *)

Section Expiry.

Variable cfg : Config.
Variable out : Outside.

(** X8. [cleanupExpiredSessions] compares the age of a session, from its
    last activity to the time of the cleanup, with the timeout: a session
    not older than the timeout is kept as it is; an older one is deleted,
    and its identifier, supplied again, gets a new session with an empty
    history and no meal data. *)
Theorem cleanup_removes_expired (w : World) (sid : string) (s : Session) :
  sessions w !! sid = Some s →
  let age := (Date_now out (clock_reads w) - lastActivity s)%Z in
  let timeoutMs := (sessionTimeoutMinutes cfg * 60 * 1000)%Z in
  let w1 := (cleanupExpiredSessions cfg out w).2 in
  (cleanupExpiredSessions cfg out w).1 = Ok tt ∧
  ((age ≤ timeoutMs)%Z → sessions w1 !! sid = Some s) ∧
  ((timeoutMs < age)%Z →
   sessions w1 !! sid = None ∧
   (sid ≠ ""%string →
    ∃ session w2,
      getSession out (Some sid) w1 = (Ok session, w2) ∧
      id session = sid ∧ history session = [] ∧ lastMealData session = None ∧
      sessions w2 !! sid = Some session)).
Proof.
  intros Hs age timeoutMs w1. split; [done|].
  assert (sessions w1 =
          filter (fun kv : string * Session =>
                    (Date_now out (clock_reads w) - lastActivity kv.2 ≤ timeoutMs)%Z)
            (sessions w)) as Hw1.
  { unfold w1, cleanupExpiredSessions. rewrite bind_run. cbn [now].
    by rewrite sessions_modified. }
  split.
  - intros Hage. rewrite Hw1. by apply map_lookup_filter_Some.
  - intros Hage.
    assert (sessions w1 !! sid = None) as Hgone.
    { rewrite Hw1. apply map_lookup_filter_None. right. intros s' Hs'.
      rewrite Hs in Hs'. injection Hs' as <-. cbn [snd]. fold age. lia. }
    split; [done|]. intros Hne.
    rewrite (getSession_new out (Some sid) w1) by auto.
    rewrite (proj2 (String.eqb_neq _ _) Hne).
    destruct (createSession_eq out (Some sid) w1) as (session & w2 & H & Hh & Hm & Hid & Hw).
    rewrite (proj2 (String.eqb_neq _ _) Hne) in Hid.
    exists session, w2. split; [done|]. split; [done|]. split; [done|]. split; [done|].
    rewrite Hw, Hid. apply lookup_insert_eq.
Qed.

End Expiry.

(** ** The selection step always selects *)

Section Selection.

Variable out : Outside.


End Selection.

(** ** What the prompts show of the data *)

Lemma slice_from_last_n {A} (k : nat) (l : list A) :
  0 < k → slice_from (- Z.of_nat k) l = last_n k l.
Proof.
  intros Hk. unfold slice_from, last_n.
  rewrite (proj2 (Z.ltb_lt _ _)) by lia. f_equal. lia.
Qed.

Lemma last_n_last_n {A} (k : nat) (l : list A) : last_n k (last_n k l) = last_n k l.
Proof. apply last_n_all. rewrite last_n_length. lia. Qed.


Lemma countRecipes_from (mealData : list BatchResult) (count : nat) :
  foldl (fun count result =>
           match result_meals result with
           | Some meals => count + length meals
           | None => count
           end) count mealData = count + length (records mealData).
Proof.
  revert count. induction mealData as [|result mealData IH]; intros count; cbn [foldl].
  - cbn. lia.
  - rewrite IH, records_cons, length_app.
    destruct (result_meals result); cbn -[records]; lia.
Qed.

(** X11. [countRecipes] is the number of records of all results taken
    together: failures and empty results count for nothing, and the count
    of two lists of results is the sum of their counts. *)
Theorem countRecipes_counts_records (mealData moreData : list BatchResult) :
  countRecipes mealData = length (records mealData) ∧
  countRecipes (mealData ++ moreData) = countRecipes mealData + countRecipes moreData ∧
  (Forall (fun result => result_meals result = None) mealData → countRecipes mealData = 0).
Proof.
  assert (∀ data, countRecipes data = length (records data)) as Hcount.
  { intros data. unfold countRecipes. by rewrite countRecipes_from. }
  split; [apply Hcount|]. split.
  - rewrite !Hcount. unfold records. by rewrite flat_map_app, length_app.
  - intros Hnone. rewrite Hcount. induction Hnone as [|result data Hr _ IH]; [done|].
    rewrite records_cons, Hr. exact IH.
Qed.

(** ** The checks of the request *)

Section RequestChecks.

Local Open Scope string_scope.

Lemma skipText_prefix t s :
  match skipText t s with Some _ => true | None => false end =
  String.prefix (toLowerCase t) (toLowerCase s).
Proof.
  revert s. induction t as [|a t IH]; intros s; [by destruct s|].
  destruct s as [|c s]; [reflexivity|]. cbn [skipText toLowerCase String.prefix].
  destruct (Ascii.eqb_spec (lower_char a) (lower_char c)) as [E|E];
    destruct (Ascii.ascii_dec (lower_char a) (lower_char c)); try done.
Qed.

(** A literal pattern is found exactly when the text, in lower case,
    occurs in the string in lower case. *)
Lemma regex_test_text t s :
  regex_test (Text t) s = includes (toLowerCase s) (toLowerCase t).
Proof.
  induction s as [|c s IH].
  - cbn [regex_test matchesAt includes toLowerCase]. by rewrite skipText_prefix.
  - cbn [regex_test matchesAt includes toLowerCase]. rewrite skipText_prefix.
    cbn [toLowerCase]. by rewrite IH.
Qed.

(** A pattern that begins with a character is not found in a string
    without that character. *)
Lemma regex_test_no_start (a : Ascii.ascii) (t : string) (r : Regex) (s : string) :
  r = Text (String a t) ∨ (∃ r2, r = Then (Text (String a t)) r2) →
  Forall (fun c => Ascii.eqb (lower_char a) (lower_char c) = false)
    (String.list_ascii_of_string s) →
  regex_test r s = false.
Proof.
  intros Hr Hs.
  assert (∀ s' k, Forall (fun c => Ascii.eqb (lower_char a) (lower_char c) = false)
                    (String.list_ascii_of_string s') →
                  matchesAt r s' k = false) as Hat.
  { intros s' k Hs'. destruct Hr as [-> | [r2 ->]]; cbn [matchesAt];
      (destruct s' as [|c s']; [done|]); cbn [skipText];
      apply Forall_cons in Hs' as [-> _]; done. }
  induction s as [|c s IH]; cbn [regex_test].
  - by rewrite Hat.
  - rewrite Hat by done. apply IH. by apply Forall_cons in Hs as [_ Hs].
Qed.

Lemma space_starts_no_pattern c :
  is_space c = true →
  Ascii.eqb (lower_char (Ascii.ascii_of_nat 60)) (lower_char c) = false ∧
  Ascii.eqb (lower_char (Ascii.ascii_of_nat 106)) (lower_char c) = false ∧
  Ascii.eqb (lower_char (Ascii.ascii_of_nat 111)) (lower_char c) = false.
Proof.
  destruct c as [[] [] [] [] [] [] [] []]; vm_compute; intros H;
    try discriminate H; done.
Qed.

Lemma trimStart_blank s :
  Forall (fun c => is_space c = true) (String.list_ascii_of_string s) → trimStart s = "".
Proof.
  induction s as [|c s IH]; [done|]. cbn [String.list_ascii_of_string trimStart].
  intros [-> Hs]%Forall_cons. by apply IH.
Qed.

Lemma validateMessageBasics_ok message :
  validateMessageBasics message = Ok tt ↔
  ∃ s, message = JStr s ∧ s ≠ "" ∧ (String.length s ≤ 500)%nat.
Proof.
  unfold validateMessageBasics, MAX_MESSAGE_LENGTH.
  destruct message as [| |b|r|s|l|props];
    try (cbn; rewrite ?orb_true_r; split; [discriminate | by intros (? & ? & _)]).
  cbn [truthy typeof ToString]. change ("string" =? "string") with true.
  cbn [negb orb]. rewrite orb_false_r.
  destruct (String.eqb_spec s "") as [->|Hne]; cbn [negb].
  - split; [discriminate|]. by intros (? & [= <-] & ? & _).
  - destruct (Nat.ltb_spec 500 (String.length s)).
    + split; [discriminate|]. intros (? & [= <-] & _ & ?). lia.
    + split; [|done]. intros _. exists s. repeat split; [done | lia].
Qed.

Lemma validateMessageBasics_throw message e :
  validateMessageBasics message = Throw e →
  err_name e = "ValidationError" ∧
  (err_code e = Some "INVALID_MESSAGE" ∨ err_code e = Some "MESSAGE_TOO_LONG").
Proof.
  unfold validateMessageBasics.
  destruct (_ || _); [intros [= <-]; cbn; auto|].
  destruct (_ <? _)%nat; [intros [= <-]; cbn; auto | discriminate].
Qed.

(** What [validateUserMessage] accepts, and what it answers then. *)
Lemma validateUserMessage_ok message text :
  validateUserMessage message = Ok text →
  ∃ s, message = JStr s ∧ s ≠ "" ∧ (String.length s ≤ 500)%nat ∧ text = trim s ∧
       includes (toLowerCase s) "javascript:" = false.
Proof.
  unfold validateUserMessage.
  destruct (validateMessageBasics message) as [[]|e] eqn:Hbasics; [|discriminate].
  apply validateMessageBasics_ok in Hbasics as (s & -> & Hne & Hlen).
  change (Ok tt ≫= ?f) with (f tt). cbv beta.
  unfold validateMessageSecurity. cbn [ToString].
  destruct (existsb _ dangerousPatterns) eqn:Hdanger; [discriminate|].
  change (Ok tt ≫= ?f) with (f tt). cbv beta. cbn [js_trim]. intros [= <-].
  exists s. repeat split; try done.
  cbn [existsb dangerousPatterns] in Hdanger.
  apply orb_false_elim in Hdanger as [_ Hdanger].
  apply orb_false_elim in Hdanger as [_ Hdanger].
  apply orb_false_elim in Hdanger as [Hdanger _].
  by rewrite regex_test_text in Hdanger.
Qed.

Lemma validateUserMessage_throw message e :
  validateUserMessage message = Throw e →
  err_name e = "ValidationError" ∧
  (err_code e = Some "INVALID_MESSAGE" ∨ err_code e = Some "MESSAGE_TOO_LONG" ∨
   err_code e = Some "SECURITY_VIOLATION").
Proof.
  unfold validateUserMessage.
  destruct (validateMessageBasics message) as [[]|e'] eqn:Hbasics.
  - apply validateMessageBasics_ok in Hbasics as (s & -> & Hne & Hlen).
    change (Ok tt ≫= ?f) with (f tt). cbv beta.
    unfold validateMessageSecurity.
    destruct (existsb _ dangerousPatterns); [intros [= <-]; cbn; auto|].
    change (Ok tt ≫= ?f) with (f tt). cbv beta. discriminate.
  - intros [= <-]. apply validateMessageBasics_throw in Hbasics. intuition.
Qed.

(** X12. [validateUserMessage] accepts a message only if it is a
    non-empty string of at most 500 characters that does not contain
    [javascript:] in any letter case, and answers the message trimmed;
    every rejection is a [ValidationError] whose code is
    [INVALID_MESSAGE], [MESSAGE_TOO_LONG] or [SECURITY_VIOLATION]. *)
Theorem validateUserMessage_checks (message : JsVal) :
  match validateUserMessage message with
  | Ok text =>
      ∃ s, message = JStr s ∧ s ≠ "" ∧ (String.length s ≤ 500)%nat ∧ text = trim s ∧
           includes (toLowerCase s) "javascript:" = false
  | Throw e =>
      err_name e = "ValidationError" ∧
      (err_code e = Some "INVALID_MESSAGE" ∨ err_code e = Some "MESSAGE_TOO_LONG" ∨
       err_code e = Some "SECURITY_VIOLATION")
  end.
Proof.
  destruct (validateUserMessage message) as [text|e] eqn:H.
  - exact (validateUserMessage_ok _ _ H).
  - exact (validateUserMessage_throw _ _ H).
Qed.

(** X13. A message made of white space only is accepted, and the text
    handed to the pipeline is then the empty string. *)
Theorem blank_message_is_accepted (s : string) :
  s ≠ "" → (String.length s ≤ 500)%nat →
  Forall (fun c => is_space c = true) (String.list_ascii_of_string s) →
  validateUserMessage (JStr s) = Ok "".
Proof.
  intros Hne Hlen Hblank. unfold validateUserMessage.
  assert (validateMessageBasics (JStr s) = Ok tt) as ->.
  { apply (proj2 (validateMessageBasics_ok (JStr s))). by exists s. }
  change (Ok tt ≫= ?f) with (f tt). cbv beta.
  assert (∀ a t r, r = Text (String a t) ∨ (∃ r2, r = Then (Text (String a t)) r2) →
                   (∀ c, is_space c = true →
                         Ascii.eqb (lower_char a) (lower_char c) = false) →
                   regex_test r s = false) as Hnone.
  { intros a t r Hr Ha. apply (regex_test_no_start a t); [done|].
    eapply Forall_impl; [exact Hblank|]. exact Ha. }
  unfold validateMessageSecurity. cbn [ToString existsb dangerousPatterns].
  rewrite (Hnone (Ascii.ascii_of_nat 60) "script"); [|right; eauto|intros c Hc; by apply space_starts_no_pattern].
  rewrite (Hnone (Ascii.ascii_of_nat 60) "iframe"); [|right; eauto|intros c Hc; by apply space_starts_no_pattern].
  rewrite (Hnone (Ascii.ascii_of_nat 106) "avascript:"); [|left; eauto|intros c Hc; by apply space_starts_no_pattern].
  rewrite (Hnone (Ascii.ascii_of_nat 111) "n"); [|right; eauto|intros c Hc; by apply space_starts_no_pattern].
  cbn [orb]. change (Ok tt ≫= ?f) with (f tt). cbv beta. cbn [js_trim].
  unfold trim. by rewrite trimStart_blank.
Qed.

Lemma all_session_chars_Forall s :
  all_session_chars s = true ↔
  Forall (fun c => is_session_char c = true) (String.list_ascii_of_string s).
Proof.
  induction s as [|c s IH]; cbn [all_session_chars String.list_ascii_of_string].
  - split; [constructor | done].
  - rewrite andb_true_iff, IH, Forall_cons. done.
Qed.

Lemma validateSessionId_ok sessionId validated :
  validateSessionId sessionId = Ok validated →
  (truthy sessionId = false ∧ validated = JNull) ∨
  (∃ sid, sessionId = JStr sid ∧ validated = JStr sid ∧
          (8 ≤ String.length sid ≤ 36)%nat ∧
          Forall (fun c => is_session_char c = true) (String.list_ascii_of_string sid)).
Proof.
  unfold validateSessionId.
  destruct (truthy sessionId) eqn:Ht; cbn [negb]; [|intros [= <-]; by left].
  unfold validateSessionIdFormat.
  destruct sessionId as [| |b|r|sid|l|props]; try discriminate.
  cbn [typeof ToString]. change ("string" =? "string") with true. cbn [negb orb].
  destruct (Nat.ltb_spec (String.length sid) 8); [discriminate|].
  destruct (Nat.ltb_spec 36 (String.length sid)); [discriminate|]. cbn [orb].
  change (Ok tt ≫= ?f) with (f tt). cbv beta.
  unfold validateSessionIdCharacters. cbn [ToString].
  destruct (matches_session_chars sid) eqn:Hchars; cbn [negb]; [|discriminate].
  change (Ok tt ≫= ?f) with (f tt). cbv beta. intros [= <-]. right.
  exists sid. repeat split; try done; try lia.
  apply all_session_chars_Forall. by destruct sid.
Qed.

Lemma validateSessionId_throw sessionId e :
  validateSessionId sessionId = Throw e →
  err_name e = "ValidationError" ∧ err_code e = Some "INVALID_SESSION_ID" ∧
  truthy sessionId = true.
Proof.
  unfold validateSessionId.
  destruct (truthy sessionId); cbn [negb]; [|discriminate].
  unfold validateSessionIdFormat.
  destruct (_ || _); [by intros [= <-]|].
  change (Ok tt ≫= ?f) with (f tt). cbv beta.
  unfold validateSessionIdCharacters.
  destruct (negb _); [by intros [= <-]|].
  change (Ok tt ≫= ?f) with (f tt). cbv beta. discriminate.
Qed.

Lemma validateSessionId_accepted sid :
  (8 ≤ String.length sid ≤ 36)%nat →
  Forall (fun c => is_session_char c = true) (String.list_ascii_of_string sid) →
  validateSessionId (JStr sid) = Ok (JStr sid).
Proof.
  intros [Hmin Hmax] Hchars. unfold validateSessionId.
  assert (sid ≠ "") as Hne by (intros ->; cbn in Hmin; lia).
  cbn [truthy]. rewrite (proj2 (String.eqb_neq _ _) Hne). cbn [negb].
  unfold validateSessionIdFormat. cbn [typeof ToString].
  change ("string" =? "string") with true. cbn [negb orb].
  rewrite (proj2 (Nat.ltb_ge _ _)) by lia. rewrite (proj2 (Nat.ltb_ge _ _)) by lia.
  cbn [orb]. change (Ok tt ≫= ?f) with (f tt). cbv beta.
  unfold validateSessionIdCharacters. cbn [ToString].
  assert (matches_session_chars sid = true) as ->.
  { apply all_session_chars_Forall in Hchars. by destruct sid. }
  done.
Qed.

(** X14. [validateSessionId] answers [null] for a missing identifier
    (any falsy value). Any other value is answered unchanged exactly when
    it is a string of 8 to 36 characters, each a letter, a digit, a hyphen
    or an underscore, and is otherwise rejected with a [ValidationError]
    of code [INVALID_SESSION_ID]. *)
Theorem validateSessionId_checks (sessionId : JsVal) :
  (truthy sessionId = false → validateSessionId sessionId = Ok JNull) ∧
  (truthy sessionId = true →
   match validateSessionId sessionId with
   | Ok validated =>
       validated = sessionId ∧
       ∃ sid, sessionId = JStr sid ∧ (8 ≤ String.length sid ≤ 36)%nat ∧
              Forall (fun c => is_session_char c = true) (String.list_ascii_of_string sid)
   | Throw e =>
       err_name e = "ValidationError" ∧ err_code e = Some "INVALID_SESSION_ID" ∧
       ¬ (∃ sid, sessionId = JStr sid ∧ (8 ≤ String.length sid ≤ 36)%nat ∧
                 Forall (fun c => is_session_char c = true)
                   (String.list_ascii_of_string sid))
   end).
Proof.
  split.
  - intros Ht. unfold validateSessionId. by rewrite Ht.
  - intros Ht. destruct (validateSessionId sessionId) as [validated|e] eqn:H.
    + apply validateSessionId_ok in H as [[Hf _] | (sid & -> & -> & Hlen & Hchars)];
        [congruence|]. split; [done|]. by exists sid.
    + destruct (validateSessionId_throw _ _ H) as (Hname & Hcode & _).
      split; [done|]. split; [done|]. intros (sid & -> & Hlen & Hchars).
      rewrite (validateSessionId_accepted sid Hlen Hchars) in H. discriminate.
Qed.

End RequestChecks.

(** ** The chat route *)

Section ChatRoute.

Variable cfg : Config.
Variable out : Outside.


End ChatRoute.

(** ** A batch of objects *)

Section ObjectBatch.

Variable out : Outside.

Lemma batchPromise_object call w :
  isRecord call = true →
  ∃ result urls,
    batchPromise out call w = (Fulfilled result, sent urls w) ∧
    length urls ≤ 1 ∧
    (no_params call = true →
     urls = [] ∧
     result = ErrorResult "Network error: Cannot convert undefined or null to object"
                (field call "endpoint") (field call "params")).
Proof.
  intros Hobj. destruct call as [| |b|r|s|l|props]; try discriminate.
  assert (get (JObj props) "endpoint" = Ok (field (JObj props) "endpoint")) as Hge by done.
  assert (get (JObj props) "params" = Ok (field (JObj props) "params")) as Hgp by done.
  unfold batchPromise, try_catch. rewrite bind_run. unfold lift at 1. rewrite Hge.
  rewrite bind_run. unfold lift at 1. rewrite Hgp.
  set (endpoint := field (JObj props) "endpoint").
  set (params := field (JObj props) "params").
  unfold executeCall, try_catch. rewrite bind_run. unfold lift at 1.
  unfold no_params. fold params.
  destruct (buildURL endpoint params) as [url|e] eqn:Hurl.
  - rewrite bind_run. unfold client_get at 1.
    destruct (axios_get out (length (requests_sent w)) url) as [data|e].
    + destruct (processResponse_total data endpoint) as [Hp _]. unfold lift. rewrite Hp.
      eexists _, [url]. split; [reflexivity|]. split; [cbn; lia|].
      intros Hnone. destruct params; try discriminate Hnone; discriminate Hurl.
    + unfold logAndThrowError, throw, lift, createBatchErrorResult. rewrite Hge, Hgp.
      eexists _, [url]. split; [reflexivity|]. split; [cbn; lia|].
      intros Hnone. destruct params; try discriminate Hnone; discriminate Hurl.
  - unfold logAndThrowError, throw, lift, createBatchErrorResult. rewrite Hge, Hgp.
    eexists _, []. split; [by rewrite sent_nil|]. split; [cbn; lia|].
    intros Hnone. split; [done|]. fold endpoint params.
    destruct params; try discriminate Hnone; by injection Hurl as <-.
Qed.

Lemma createBatchPromises_objects calls w :
  Forall (fun call => isRecord call = true) calls →
  ∃ results urls,
    createBatchPromises out calls w = (map Fulfilled results, sent urls w) ∧
    length urls ≤ length calls ∧
    Forall2 (fun call result =>
               no_params call = true →
               result = ErrorResult
                          "Network error: Cannot convert undefined or null to object"
                          (field call "endpoint") (field call "params"))
      calls results.
Proof.
  intros Hobjs. revert w. induction Hobjs as [|call calls Hobj _ IH]; intros w.
  - exists [], []. rewrite sent_nil. by repeat split.
  - destruct (batchPromise_object call w Hobj) as (result & urls1 & H1 & Hlen1 & Hnone).
    destruct (IH (sent urls1 w)) as (results & urls2 & H2 & Hlen2 & Hall).
    exists (result :: results), (urls1 ++ urls2).
    cbn [createBatchPromises]. rewrite H1, H2, sent_sent. split; [done|].
    split; [rewrite length_app; cbn; lia|]. constructor; [|done].
    intros Hn. by apply Hnone.
Qed.


End ObjectBatch.

(** ** Ingredients shown to the model *)

Lemma mapM_Ok_inv {A B} (f : A → Result B) (l : list A) (ys : list B) :
  mapM f l = Ok ys → Forall2 (fun x y => f x = Ok y) l ys.
Proof.
  revert ys. induction l as [|x l IH]; intros ys; cbn [mapM].
  - intros [= <-]. constructor.
  - unfold mbind, Result_bind. destruct (f x) as [y|e] eqn:Hx; [|discriminate].
    destruct (mapM f l) as [ys'|e]; [|discriminate].
    intros [= <-]. constructor; [done | by apply IH].
Qed.

Lemma omap_length_le {A B} (f : A → option B) (l : list A) :
  length (omap f l) ≤ length l.
Proof.
  induction l as [|x l IH]; [done|]. cbn [omap list_omap length].
  destruct (f x); cbn [length]; lia.
Qed.

Lemma ingredientAt_nonempty meal i text :
  ingredientAt meal i = Ok (Some text) → text ≠ ""%string.
Proof.
  unfold ingredientAt, mbind, Result_bind.
  destruct (get meal _) as [ingredient|e]; [|discriminate].
  destruct (get meal _) as [measure|e]; [|discriminate].
  destruct (truthy ingredient); [|discriminate].
  destruct (js_trim ingredient "ingredient") as [trimmed|e]; [|discriminate].
  destruct (String.eqb_spec trimmed ""%string) as [|Hne]; [discriminate|].
  destruct (truthy measure).
  - destruct (js_trim measure "measure") as [m|e]; [|discriminate].
    intros [= <-]. destruct m; discriminate.
  - by intros [= <-].
Qed.


(** ** Sanitizing *)

Section Sanitizing.

Lemma remove_angle_brackets_clean s :
  Forall (fun c => angle_bracket c = false) (chars (remove_angle_brackets s)).
Proof.
  induction s as [|c s IH]; [constructor|]. cbn [remove_angle_brackets].
  destruct (_ || _) eqn:E; [exact IH|]. constructor; [exact E | exact IH].
Qed.

Lemma remove_angle_brackets_id s :
  Forall (fun c => angle_bracket c = false) (chars s) → remove_angle_brackets s = s.
Proof.
  induction s as [|c s IH]; [done|]. intros [Hc Hs]%Forall_cons.
  cbn [remove_angle_brackets]. unfold angle_bracket in Hc. rewrite Hc. by rewrite IH.
Qed.

Lemma remove_javascript_sub (P : Ascii.ascii → Prop) skip s :
  Forall P (chars s) → Forall P (chars (remove_javascript skip s)).
Proof.
  revert skip. induction s as [|c s IH]; intros skip; [done|].
  intros [Hc Hs]%Forall_cons. cbn [remove_javascript].
  destruct skip as [|n]; [|by apply IH].
  destruct (skipText "javascript:"%string (String c s)); [by apply IH|].
  constructor; [done | by apply IH].
Qed.

Lemma remove_javascript_id s :
  includes (toLowerCase s) "javascript:"%string = false → remove_javascript 0 s = s.
Proof.
  induction s as [|c s IH]; [done|]. cbn [toLowerCase includes].
  intros [Hhere Hrest]%orb_false_elim. cbn [remove_javascript].
  pose proof (skipText_prefix "javascript:"%string (String c s)) as Hskip.
  change (toLowerCase "javascript:"%string) with "javascript:"%string in Hskip.
  cbn [toLowerCase] in Hskip. rewrite Hhere in Hskip.
  destruct (skipText "javascript:"%string (String c s)); [discriminate|]. by rewrite IH.
Qed.

Lemma substring0_length n s : String.length (substring0 n s) ≤ n.
Proof.
  unfold substring0. revert s. induction n as [|n IH]; intros s.
  - by destruct s.
  - destruct s as [|c s]; cbn; [lia|]. specialize (IH s). lia.
Qed.

Lemma substring0_sub (P : Ascii.ascii → Prop) n s :
  Forall P (chars s) → Forall P (chars (substring0 n s)).
Proof.
  unfold substring0. revert s. induction n as [|n IH]; intros s Hs.
  - destruct s; constructor.
  - destruct s as [|c s]; [constructor|]. apply Forall_cons in Hs as [Hc Hs].
    cbn. constructor; [done | by apply IH].
Qed.

Lemma substring0_id n s : String.length s ≤ n → substring0 n s = s.
Proof.
  unfold substring0. revert s. induction n as [|n IH]; intros s Hs.
  - destruct s; [done | cbn in Hs; lia].
  - destruct s as [|c s]; [done|]. cbn in Hs |- *. rewrite IH; [done | lia].
Qed.

(** X18. [sanitizeInput] returns a value that is not a string as it is.
    Of a string it returns at most 500 characters, none of them an angle
    bracket; a string that is trimmed, has no angle bracket, does not
    contain [javascript:] in any letter case and has at most 500
    characters is returned unchanged. *)
Theorem sanitizeInput_cleans (input : JsVal) :
  match input with
  | JStr s =>
      ∃ r, sanitizeInput input = JStr r ∧
           String.length r ≤ 500 ∧
           Forall (fun c => angle_bracket c = false) (chars r) ∧
           (trim s = s → Forall (fun c => angle_bracket c = false) (chars s) →
            includes (toLowerCase s) "javascript:"%string = false → String.length s ≤ 500 →
            r = s)
  | _ => sanitizeInput input = input
  end.
Proof.
  destruct input as [| |b|r|s|l|props]; try reflexivity.
  eexists. split; [reflexivity|]. split; [apply substring0_length|]. split.
  - apply substring0_sub, remove_javascript_sub, remove_angle_brackets_clean.
  - intros Htrim Hangle Hjs Hlen.
    rewrite Htrim, (remove_angle_brackets_id s Hangle), (remove_javascript_id s Hjs).
    by apply substring0_id.
Qed.

End Sanitizing.

(** ** The synthesis step without the generation backend *)

Lemma recipesFromMeals_eq meals recipes :
  recipesFromMeals meals recipes = recipes ++ take (3 - length recipes) meals.
Proof.
  revert recipes. induction meals as [|meal meals IH]; intros recipes.
  - by rewrite take_nil, app_nil_r.
  - cbn [recipesFromMeals]. destruct (Nat.leb_spec 3 (length recipes)).
    + replace (3 - length recipes) with 0 by lia. by rewrite take_0, app_nil_r.
    + rewrite IH, length_app. cbn [length].
      replace (3 - length recipes) with (S (3 - (length recipes + 1))) by lia.
      cbn [take]. by rewrite <- app_assoc.
Qed.

Lemma recipesFromResults_eq mealData recipes :
  recipesFromResults mealData recipes =
    recipes ++ take (3 - length recipes) (records mealData).
Proof.
  revert recipes. induction mealData as [|result mealData IH]; intros recipes.
  - cbn. by rewrite take_nil, app_nil_r.
  - rewrite records_cons. cbn [recipesFromResults].
    destruct (result_meals result) as [[|meal meals]|]; [apply IH | | apply IH].
    change (default [] (Some (meal :: meals))) with (meal :: meals).
    set (ms := meal :: meals). clearbody ms.
    rewrite recipesFromMeals_eq.
    destruct (Nat.leb_spec 3 (length (recipes ++ take (3 - length recipes) ms))) as [H|H];
      rewrite length_app, length_take in H.
    + by rewrite take_app_le by lia.
    + rewrite IH, length_app, length_take, <- app_assoc. f_equal.
      rewrite (take_ge ms) by lia. rewrite take_app_ge by lia. do 2 f_equal. lia.
Qed.

Section Synthesis.

Variable out : Outside.

(** X19. When the generation backend fails on the synthesis prompt,
    [synthesizeResponse] does not fail with it: it answers with the text
    of [createFallbackResponse], which is built from the first three
    records of the data, and is a fixed apology when there are no data or
    no records. *)
Theorem synthesis_falls_back (mealData : list BatchResult) (userMessage : string)
    (conversationHistory : list Message) (w : World) (prompt : string)
    (failure : JsError) :
  createSynthesisPrompt userMessage mealData conversationHistory = Ok prompt →
  bedrock out (length (prompts_sent w)) prompt = Throw failure →
  synthesizeResponse out mealData userMessage conversationHistory w =
    (createFallbackResponse mealData userMessage, prompted prompt w) ∧
  extractRecipesFromMealData mealData = take 3 (records mealData) ∧
  (mealData = [] →
   createFallbackResponse mealData userMessage =
     Ok "I'm sorry, I couldn't find any recipes matching your request. Could you try asking about a specific dish or ingredient?"%string) ∧
  (mealData ≠ [] → records mealData = [] →
   createFallbackResponse mealData userMessage =
     Ok "I found some results but couldn't extract the recipe details. Please try a different search term."%string).
Proof.
  intros Hprompt Hfail.
  assert (extractRecipesFromMealData mealData = take 3 (records mealData)) as Hrecipes.
  { unfold extractRecipesFromMealData. by rewrite recipesFromResults_eq. }
  split; [|split; [done|split]].
  - unfold synthesizeResponse. rewrite bind_run. unfold lift at 1. rewrite Hprompt.
    unfold try_catch, invokeModel. by rewrite Hfail.
  - by intros ->.
  - intros Hne Hnone. unfold createFallbackResponse. rewrite Hrecipes, Hnone.
    by destruct mealData.
Qed.

(** X20. A session that [getSession] returned is found again under its
    identifier, with the same history, meal data and creation time; the
    store is one where every session sits under its identifier, and the
    identifier is not empty. *)
Theorem getSession_round_trip (requested : option string) (w w1 : World)
    (session : Session) :
  keyed w → id session ≠ ""%string →
  getSession out requested w = (Ok session, w1) →
  ∃ again w2,
    getSession out (Some (id session)) w1 = (Ok again, w2) ∧
    id again = id session ∧ history again = history session ∧
    lastMealData again = lastMealData session ∧ createdAt again = createdAt session.
Proof.
  intros Hkeyed Hne Hget.
  assert (sessions w1 !! id session = Some session) as Hstored.
  { revert Hget. unfold getSession.
    destruct requested as [sid|]; [destruct (sid =? "")%string eqn:Hsid|].
    - destruct (createSession_eq out None w) as (s & w' & H & _ & _ & _ & Hw).
      rewrite H. intros [= <- <-]. rewrite Hw. apply lookup_insert_eq.
    - rewrite bind_run. unfold get_sessions at 1.
      destruct (sessions w !! sid) as [existing|] eqn:Hs.
      + cbn [now modify_sessions]. rewrite !bind_run. cbn [now modify_sessions mret M_ret].
        intros [= <- <-]. cbn [id set_sessions sessions].
        rewrite (Hkeyed _ _ Hs). apply lookup_insert_eq.
      + destruct (createSession_eq out (Some sid) w) as (s & w' & H & _ & _ & _ & Hw).
        rewrite H. intros [= <- <-]. rewrite Hw. apply lookup_insert_eq.
    - destruct (createSession_eq out None w) as (s & w' & H & _ & _ & _ & Hw).
      rewrite H. intros [= <- <-]. rewrite Hw. apply lookup_insert_eq. }
  destruct (getSession_known out (id session) w1 session Hne Hstored) as (t & w2 & H & _).
  eexists _, w2. split; [exact H|]. done.
Qed.

End Synthesis.

(** * The theorems on the example scenarios *)


(** C3 on the empty batch, on a filter with both parameters and on a
    batch of three valid operations. *)
Lemma validateApiCalls_example :
  (∃ e, validateApiCalls default_config (JArr []) = Throw e ∧
        err_name e = "ValidationError"%string ∧ is_Some (err_code e)) ∧
  (∃ e, validateApiCalls default_config
          (JArr [operation "filter.php"
                   [("i"%string, JStr "chicken"); ("c"%string, JStr "Beef")]]) = Throw e ∧
        err_name e = "ValidationError"%string ∧ is_Some (err_code e)) ∧
  validateApiCalls default_config (JArr example_batch) = Ok true.
Proof.
  split; [|split].
  - apply (validateApiCalls_enforces_rules default_config []). by left.
  - apply (validateApiCalls_enforces_rules default_config). right. right.
    apply Exists_cons_hd. by apply FilterWithBoth.
  - apply (validateApiCalls_enforces_rules default_config example_batch).
    + discriminate.
    + vm_compute. discriminate.
    + constructor; [|constructor; [|constructor; [|constructor]]].
      * by apply (ValidSearch _ "chicken"%string); [..|cbn; lia].
      * apply (ValidCategoryFilter _ "seafood"%string); try done; [cbn; lia|].
        unfold in_vocabulary. vm_compute. tauto.
      * by apply (ValidLookup _ "52772"%string).
Defined.


(** C5 with a window of two turns: of three turns appended to a new
    session, the last two are kept. *)
Lemma history_window_example :
  (0 < maxConversationLength small_config)%Z ∧
  let w := runCalls small_config example_outside [CallGetSession (Some "abcdefgh"%string)]
             initial_world in
  ∃ w' session',
    appendTurns small_config example_outside "abcdefgh" three_turns w = (Ok tt, w') ∧
    sessions w' !! "abcdefgh"%string = Some session' ∧
    transcript (history session') =
      [("user"%string, JStr "second"); ("assistant"%string, JStr "two");
       ("user"%string, JStr "third"); ("assistant"%string, JStr "three")].
Proof.
  assert (0 < maxConversationLength small_config)%Z as Hpos by (vm_compute; reflexivity).
  split; [exact Hpos|]. intros w.
  pose proof (history_is_a_sliding_window small_config example_outside
                [CallGetSession (Some "abcdefgh"%string)] "abcdefgh" three_turns Hpos) as H.
  cbv zeta in H. destruct H as [_ H].
  destruct (H (mkSession "abcdefgh" [] None 0 10))
    as (w' & session' & Hrun & Hs & _ & _ & Hlast).
  { vm_compute. reflexivity. }
  exists w', session'. split; [exact Hrun|]. split; [exact Hs|].
  rewrite Hlast; [reflexivity | vm_compute; lia].
Defined.



(** C9 without an identifier, in the initial world. *)
Lemma getSession_example :
  sessions initial_world !! uuidv4 example_outside (uuids_drawn initial_world) = None ∧
  ∃ session w',
    getSession example_outside None initial_world = (Ok session, w') ∧
    id session = "uuid-0"%string ∧ history session = [] ∧ lastMealData session = None ∧
    sessions w' = <[id session := session]> (sessions initial_world).
Proof.
  assert (sessions initial_world !! uuidv4 example_outside (uuids_drawn initial_world) = None)
    as Hfresh by (vm_compute; reflexivity).
  split; [exact Hfresh|].
  destruct (getSession_existing_or_new example_outside None initial_world Hfresh)
    as (session & w' & Hrun & Hnew).
  cbn in Hnew. destruct Hnew as (_ & Hh & Hm & Hw).
  exists session, w'. split; [exact Hrun|].
  split; [|by repeat split].
  vm_compute in Hrun. by injection Hrun as <- _.
Defined.

(** C10 on a request that fails after four requests were sent to
    MealDB. *)
Lemma error_outcome_example :
  ∃ outcome w',
    example_run = (Ok outcome, w') ∧ error outcome = true ∧
    length (requests_sent w') = 4 ∧ apiCallsMade outcome = 0.
Proof.
  destruct example_run as [[outcome|failure] w'] eqn:Hrun;
    [|vm_compute in Hrun; discriminate].
  assert (error outcome = true ∧ length (requests_sent w') = 4) as [Herr Hlen].
  { vm_compute in Hrun. by injection Hrun as <- <-. }
  exists outcome, w'. split; [reflexivity|]. split; [exact Herr|]. split; [exact Hlen|].
  exact (proj1 (error_outcome_reports_no_calls default_config example_outside "beef please")
           None initial_world outcome w' Hrun Herr).
Defined.

(** C8 at its failing input, with a generation backend that answers
    [null]. *)
Lemma parseAnalysisResponse_null_example :
  JSON_parse null_outside "null" = Some JNull ∧
  parseAnalysisResponse null_outside "null" =
    Throw (TypeError "Cannot read properties of null (reading 'api_calls')") ∧
  analyzePipeline null_outside "beef please" [] initial_world =
    (Throw (Error "Failed to analyze user intent: Cannot read properties of null (reading 'api_calls')"),
     prompted (createPhase1Prompt "beef please" []) initial_world).
Proof.
  assert (JSON_parse null_outside "null" = Some JNull) as Hnull by reflexivity.
  split; [exact Hnull|].
  destruct (proj1 (parseAnalysisResponse_fails_on_null default_config null_outside
                     "beef please" (mkSession "s" [] None 0 0) 0%Z initial_world) Hnull)
    as [Hparse Hrun].
  split; [exact Hparse|]. apply Hrun. reflexivity.
Defined.

(** * The further properties on the example scenarios *)


(** X3 on the request that fails after its lookups: the apology is
    recorded with the user message. *)
Lemma exchange_is_recorded_example :
  ∃ outcome w' stored,
    example_run = (Ok outcome, w') ∧
    sessions w' !! sessionId outcome = Some stored ∧
    transcript (history stored) =
      [("user"%string, JStr "beef please"); ("assistant"%string, message outcome)].
Proof.
  destruct example_run as [[outcome|failure] w'] eqn:Hrun;
    [|vm_compute in Hrun; discriminate].
  destruct (exchange_is_recorded default_config example_outside "beef please" None
              initial_world w' outcome) as (stored & Hstored & _ & Hhistory).
  - exact keyed_initial.
  - vm_compute. discriminate.
  - vm_compute. reflexivity.
  - exact Hrun.
  - exists outcome, w', stored. split; [reflexivity|]. split; [exact Hstored|].
    rewrite Hhistory. reflexivity.
Defined.

(** X4 on the same request: its session is the one of the first uuid. *)
Lemma other_sessions_untouched_example :
  ∃ outcome w',
    example_run = (Ok outcome, w') ∧ sessionId outcome = "uuid-0"%string ∧
    sessions w' !! "abcdefgh"%string = None.
Proof.
  destruct example_run as [[outcome|failure] w'] eqn:Hrun;
    [|vm_compute in Hrun; discriminate].
  destruct (other_sessions_untouched default_config example_outside "beef please" None
              initial_world w' outcome) as (Hsid & Hothers).
  - exact keyed_initial.
  - vm_compute. discriminate.
  - exact Hrun.
  - exists outcome, w'. split; [reflexivity|]. split; [exact Hsid|].
    rewrite Hothers; [reflexivity|]. rewrite Hsid. vm_compute. discriminate.
Defined.

(** X5 on the empty store. *)
Lemma store_stays_keyed_example :
  keyed initial_world ∧ keyed example_run.2.
Proof.
  pose proof (store_stays_keyed default_config example_outside initial_world) as [Hk H].
  split; [exact Hk|]. apply (H Hk).
Defined.



(** X8 with a clock that lets the session expire before the cleanup. *)
Lemma cleanup_example :
  sessions (one_session slow_outside) !! "abcdefgh"%string =
    Some (mkSession "abcdefgh" [] None 0 2000000) ∧
  sessions (cleanupExpiredSessions default_config slow_outside
              (one_session slow_outside)).2 !! "abcdefgh"%string = None.
Proof.
  assert (sessions (one_session slow_outside) !! "abcdefgh"%string =
            Some (mkSession "abcdefgh" [] None 0 2000000)) as Hs
    by (vm_compute; reflexivity).
  split; [exact Hs|].
  apply (cleanup_removes_expired default_config slow_outside (one_session slow_outside)
           "abcdefgh" _ Hs).
  vm_compute. reflexivity.
Defined.


(** X11 on a failure and an empty result. *)
Lemma countRecipes_example :
  countRecipes [ErrorResult "Network error" JUndefined JUndefined;
                EmptyResponse "No meals found"] = 0.
Proof.
  apply (countRecipes_counts_records _ []). repeat constructor.
Defined.

(** X13 on three spaces. *)
Lemma blank_message_example : validateUserMessage (JStr "   ") = Ok ""%string.
Proof.
  apply blank_message_is_accepted; [discriminate | cbn; lia | repeat constructor].
Defined.

(** X14 on a missing identifier and on an identifier of eight letters. *)
Lemma validateSessionId_example :
  validateSessionId JUndefined = Ok JNull ∧
  validateSessionId (JStr "abcdefgh") = Ok (JStr "abcdefgh").
Proof.
  split.
  - exact (proj1 (validateSessionId_checks JUndefined) eq_refl).
  - pose proof (proj2 (validateSessionId_checks (JStr "abcdefgh")) eq_refl) as H.
    destruct (validateSessionId (JStr "abcdefgh")) as [validated|e].
    + destruct H as [-> _]. reflexivity.
    + destruct H as (_ & _ & H). exfalso. apply H. exists "abcdefgh"%string.
      split; [reflexivity|]. split; [cbn; lia | repeat constructor].
Defined.



(** X18 on a clean text. *)
Lemma sanitizeInput_example : sanitizeInput (JStr "beef stew") = JStr "beef stew".
Proof.
  destruct (sanitizeInput_cleans (JStr "beef stew")) as (r & H & _ & _ & Hid).
  rewrite H. f_equal. apply Hid; [reflexivity | repeat constructor | reflexivity | cbn; lia].
Defined.

(** X19 with a backend that fails on every prompt. *)
Lemma synthesis_falls_back_example :
  createSynthesisPrompt "beef please" lookup_results [] = Ok example_synthesis_prompt ∧
  synthesizeResponse failing_outside lookup_results "beef please" [] initial_world =
    (createFallbackResponse lookup_results "beef please",
     prompted example_synthesis_prompt initial_world).
Proof.
  assert (createSynthesisPrompt "beef please" lookup_results [] = Ok example_synthesis_prompt)
    as Hprompt by (vm_compute; reflexivity).
  split; [exact Hprompt|].
  apply (synthesis_falls_back failing_outside lookup_results "beef please" []
           initial_world example_synthesis_prompt (Error "Request timeout") Hprompt).
  reflexivity.
Defined.

(** X20 on a new session. *)
Lemma getSession_round_trip_example :
  ∃ session w1 again w2,
    getSession example_outside None initial_world = (Ok session, w1) ∧
    getSession example_outside (Some (id session)) w1 = (Ok again, w2) ∧
    id again = "uuid-0"%string ∧ history again = [].
Proof.
  destruct (getSession example_outside None initial_world) as [[session|failure] w1]
    eqn:Hget; [|vm_compute in Hget; discriminate].
  assert (id session = "uuid-0"%string ∧ history session = []) as [Hid Hh].
  { vm_compute in Hget. by injection Hget as <- _. }
  destruct (getSession_round_trip example_outside None initial_world w1 session)
    as (again & w2 & Hagain & Hid' & Hh' & _).
  - exact keyed_initial.
  - rewrite Hid. discriminate.
  - exact Hget.
  - exists session, w1, again, w2. split; [reflexivity|]. split; [exact Hagain|].
    split; congruence.
Defined.

(** X21 on the empty store. *)
Lemma processRequest_keeps_window_example :
  (0 < maxConversationLength default_config)%Z ∧
  bounded default_config example_run.2.
Proof.
  assert (0 < maxConversationLength default_config)%Z as Hpos by (vm_compute; reflexivity).
  split; [exact Hpos|].
  apply (processRequest_keeps_window default_config example_outside "beef please" None
           initial_world Hpos). apply bounded_initial.
Defined.
